(** * simetri: the ingestion / dedup / retention / delivery pipeline

    A shallow embedding of [job_processor.py], [storage.py] and the posting
    paths of [scheduler.py], and the properties of the pipeline proved on it.

    Conventions of the embedding.
    - A Python [str] is a Rocq [string]; each character stands for one code
      point in the range U+0000..U+00FF, and [lower], [isspace] and the UTF-8
      encoding are Python's on that range.
    - A job is a Python [dict] from field names to values that are a [str] or
      [None]: a [gmap string pyval].
    - [datetime.now()] is read once per operation and passed in as [now], a
      naive datetime counted in microseconds (a [Z]).  [datetime.isoformat]
      and [datetime.fromisoformat] belong to Python's library: the class
      [Datetime] is their interface, and [Iso.datetime] the instance for the
      layout that [isoformat] prints.  [fromisoformat] returns a naive or
      an aware datetime, and comparing an aware one with the naive cutoff
      raises [TypeError].  Time is not bounded: [now - timedelta(days)] is
      always a datetime, as it is in Python for the years 1 to 9999.
    - An exception that a function lets through is a [Raise] of its
      [result]; a [try] ... [except] is [try_except].
    - The two JSON files are the fields of a [store]; a write replaces the
      whole document and is taken to succeed.  The pipeline is modelled on
      files that, where they decode, hold a list of job objects; [OnDisk]
      has the two loaders on any JSON content.
    - [process_jobs] takes the batch by value; [process_jobs_in_place] is
      the same call with the batch as the call leaves it, since Python
      rewrites the records of the batch where they lie.
    - The answers of the two delivery channels and the batches returned by
      the scrapers are inputs of the scheduler's events.
    - The rest of the pipeline follows the samples: the text helpers of
      [base_scraper.py], the queries and statistics of [storage.py], the two
      groupings of [job_processor.py] and the channel functions of
      [telegram_bot.py] and [blogger_client.py].  There, what lies outside
      the program (building the poster, sending one message, creating one
      blog post) is an input, and a [dict] the program builds is an
      association list in insertion order. *)

From Stdlib Require Import ZArith String Ascii List Bool Lia Permutation Sorted.
From stdpp Require Import gmap strings list.

Import ListNotations.
Local Open Scope Z_scope.

(** ** Python text operations *)

Module Text.

Definition code (c : ascii) : Z := Z.of_N (N_of_ascii c).
Definition chr (z : Z) : ascii := ascii_of_N (Z.to_N z).

(** [str.isspace] on U+0000..U+00FF. *)
Definition isspace (c : ascii) : bool :=
  let n := code c in
  ((9 <=? n) && (n <=? 13)) || ((28 <=? n) && (n <=? 32))
  || (n =? 133) || (n =? 160).

(** [str.lower] on one character of U+0000..U+00FF. *)
Definition lower_char (c : ascii) : ascii :=
  let n := code c in
  if ((65 <=? n) && (n <=? 90))
     || ((192 <=? n) && (n <=? 222) && negb (n =? 215))
  then chr (n + 32) else c.

Fixpoint lower (s : string) : string :=
  match s with
  | EmptyString => EmptyString
  | String c s' => String (lower_char c) (lower s')
  end.

(** [s.lstrip()], [s.rstrip()], [s.strip()]. *)
Fixpoint lstrip (s : string) : string :=
  match s with
  | EmptyString => EmptyString
  | String c s' => if isspace c then lstrip s' else s
  end.

Fixpoint rstrip (s : string) : string :=
  match s with
  | EmptyString => EmptyString
  | String c s' =>
      match rstrip s' with
      | EmptyString => if isspace c then EmptyString else String c EmptyString
      | r => String c r
      end
  end.

Definition strip (s : string) : string := rstrip (lstrip s).

(** [s.split()]: the maximal runs of non-whitespace characters.  [cur] is
    the run being read, in reverse. *)
Definition flush (cur : list ascii) (acc : list string) : list string :=
  match cur with
  | [] => acc
  | _ => string_of_list_ascii (rev cur) :: acc
  end.

Fixpoint split_aux (cur : list ascii) (s : string) : list string :=
  match s with
  | EmptyString => flush cur []
  | String c s' =>
      if isspace c then flush cur (split_aux [] s')
      else split_aux (c :: cur) s'
  end.

Definition split (s : string) : list string := split_aux [] s.

(** [sep.join(parts)]. *)
Definition join (sep : string) (parts : list string) : string :=
  String.concat sep parts.

(** [s.replace(old, new)] for a one-character [old]. *)
Fixpoint replace_char (old : ascii) (new : string) (s : string) : string :=
  match s with
  | EmptyString => EmptyString
  | String c s' =>
      if Ascii.eqb c old then new +:+ replace_char old new s'
      else String c (replace_char old new s')
  end.

(** ['  ' in s] and [s.replace('  ', ' ')] (leftmost, non-overlapping). *)
Definition is_blank (c : ascii) : bool := Ascii.eqb c " ".

Fixpoint has_double_space (s : string) : bool :=
  match s with
  | String c (String d _ as s') =>
      (is_blank c && is_blank d) || has_double_space s'
  | _ => false
  end.

Fixpoint replace_double_space (s : string) : string :=
  match s with
  | String c (String d s'' as s') =>
      if is_blank c && is_blank d then String " " (replace_double_space s'')
      else String c (replace_double_space s')
  | _ => s
  end.

(** [while '  ' in text: text = text.replace('  ', ' ')].  Every round
    shortens the text, so [length text] rounds are enough. *)
Fixpoint squeeze_loop (fuel : nat) (text : string) : string :=
  match fuel with
  | O => text
  | S fuel' =>
      if has_double_space text
      then squeeze_loop fuel' (replace_double_space text)
      else text
  end.

Definition squeeze (text : string) : string :=
  squeeze_loop (String.length text) text.

(** [s[:n]]. *)
Definition take (n : nat) (s : string) : string := String.substring 0 n s.

(** [s.encode('utf-8')] on U+0000..U+00FF, as a list of byte values. *)
Definition utf8_char (c : ascii) : list Z :=
  let n := code c in
  if n <? 128 then [n]
  else [Z.lor 192 (Z.shiftr n 6); Z.lor 128 (Z.land n 63)].

Fixpoint utf8 (s : string) : list Z :=
  match s with
  | EmptyString => []
  | String c s' => utf8_char c ++ utf8 s'
  end.

End Text.

(** ** [hashlib.md5(data).hexdigest()] (RFC 1321) *)

Module MD5.

Definition mask32 : Z := 4294967295.
Definition wrap32 (x : Z) : Z := Z.land x mask32.
Definition add32 (x y : Z) : Z := wrap32 (x + y).
Definition not32 (x : Z) : Z := Z.lxor x mask32.
Definition rotl32 (x c : Z) : Z :=
  wrap32 (Z.lor (Z.shiftl x c) (Z.shiftr x (32 - c))).

Definition shifts : list Z :=
  [7; 12; 17; 22; 7; 12; 17; 22; 7; 12; 17; 22; 7; 12; 17; 22;
   5; 9; 14; 20; 5; 9; 14; 20; 5; 9; 14; 20; 5; 9; 14; 20;
   4; 11; 16; 23; 4; 11; 16; 23; 4; 11; 16; 23; 4; 11; 16; 23;
   6; 10; 15; 21; 6; 10; 15; 21; 6; 10; 15; 21; 6; 10; 15; 21].

(** [floor (2^32 * abs (sin (i + 1)))] for [i = 0 .. 63]. *)
Definition sines : list Z :=
  [3614090360; 3905402710; 606105819; 3250441966;
   4118548399; 1200080426; 2821735955; 4249261313;
   1770035416; 2336552879; 4294925233; 2304563134;
   1804603682; 4254626195; 2792965006; 1236535329;
   4129170786; 3225465664; 643717713; 3921069994;
   3593408605; 38016083; 3634488961; 3889429448;
   568446438; 3275163606; 4107603335; 1163531501;
   2850285829; 4243563512; 1735328473; 2368359562;
   4294588738; 2272392833; 1839030562; 4259657740;
   2763975236; 1272893353; 4139469664; 3200236656;
   681279174; 3936430074; 3572445317; 76029189;
   3654602809; 3873151461; 530742520; 3299628645;
   4096336452; 1126891415; 2878612391; 4237533241;
   1700485571; 2399980690; 4293915773; 2240044497;
   1873313359; 4264355552; 2734768916; 1309151649;
   4149444226; 3174756917; 718787259; 3951481745].

(** Padding: one [0x80], zeros up to 56 modulo 64, then the bit length as
    eight little-endian bytes. *)
Definition le_bytes (n : nat) (x : Z) : list Z :=
  map (fun i => Z.land (Z.shiftr x (8 * Z.of_nat i)) 255) (seq 0 n).

Definition pad (msg : list Z) : list Z :=
  let len := Z.of_nat (length msg) in
  let zeros := Z.to_nat ((55 - len) mod 64) in
  msg ++ [128] ++ repeat 0 zeros ++ le_bytes 8 (Z.land (8 * len) (2 ^ 64 - 1)).

Fixpoint le_words (fuel : nat) (bs : list Z) : list Z :=
  match fuel, bs with
  | S fuel', b0 :: b1 :: b2 :: b3 :: rest =>
      (b0 + Z.shiftl b1 8 + Z.shiftl b2 16 + Z.shiftl b3 24)
        :: le_words fuel' rest
  | _, _ => []
  end.

Record regs := Regs { ra : Z; rb : Z; rc : Z; rd : Z }.

Definition init : regs :=
  Regs 1732584193 4023233417 2562383102 271733878.

Definition round (m : list Z) (r : regs) (i : nat) : regs :=
  let '(Regs a b c d) := r in
  let zi := Z.of_nat i in
  let '(f, g) :=
    if zi <? 16 then (Z.lor (Z.land b c) (Z.land (not32 b) d), zi)
    else if zi <? 32 then
      (Z.lor (Z.land d b) (Z.land (not32 d) c), (5 * zi + 1) mod 16)
    else if zi <? 48 then (Z.lxor b (Z.lxor c d), (3 * zi + 5) mod 16)
    else (Z.lxor c (Z.lor b (not32 d)), (7 * zi) mod 16) in
  let f' := add32 (add32 (add32 f a) (nth i sines 0)) (nth (Z.to_nat g) m 0) in
  Regs d (add32 b (rotl32 f' (nth i shifts 0))) b c.

Definition block (r : regs) (chunk : list Z) : regs :=
  let m := le_words 16 chunk in
  let r' := fold_left (round m) (seq 0 64) r in
  Regs (add32 (ra r) (ra r')) (add32 (rb r) (rb r'))
       (add32 (rc r) (rc r')) (add32 (rd r) (rd r')).

Fixpoint blocks (fuel : nat) (r : regs) (bs : list Z) : regs :=
  match fuel, bs with
  | S fuel', _ :: _ => blocks fuel' (block r (firstn 64 bs)) (skipn 64 bs)
  | _, _ => r
  end.

Definition digest (msg : list Z) : list Z :=
  let p := pad msg in
  let r := blocks (length p) init p in
  le_bytes 4 (ra r) ++ le_bytes 4 (rb r) ++ le_bytes 4 (rc r) ++ le_bytes 4 (rd r).

Definition hex_digit (n : Z) : ascii :=
  if n <? 10 then Text.chr (48 + n) else Text.chr (87 + n).

Fixpoint hex (bs : list Z) : string :=
  match bs with
  | [] => EmptyString
  | b :: bs' => String (hex_digit (Z.shiftr b 4)) (String (hex_digit (Z.land b 15)) (hex bs'))
  end.

(** [md5(text.encode('utf-8')).hexdigest()]. *)
Definition hexdigest (text : string) : string := hex (digest (Text.utf8 text)).

End MD5.

(** ** Values, jobs and exceptions *)

(** The values a job field holds: a Python [str] or [None] (JSON [null]). *)
Inductive pyval :=
  | VNone
  | VStr (s : string).

#[global] Instance pyval_eq_dec : EqDecision pyval.
Proof. solve_decision. Defined.

(** A job is a [dict] from field names to values. *)
Abbreviation job := (gmap string pyval).

(** Truth value of [job.get(field)]: a missing key, [None] and [''] are
    false. *)
Definition truthy (v : option pyval) : bool :=
  match v with
  | Some (VStr s) => negb (String.eqb s "")
  | _ => false
  end.

(** The string a field is read as once it is known to hold one. *)
Definition str_of (v : option pyval) : string :=
  match v with
  | Some (VStr s) => s
  | _ => ""
  end.

(** [f"{job.get(field, '')}"]: a missing key prints as the empty string and
    [None] prints as [None]. *)
Definition format_field (v : option pyval) : string :=
  match v with
  | None => ""
  | Some VNone => "None"
  | Some (VStr s) => s
  end.

(** The exceptions that cross a function boundary in the modelled code. *)
Inductive exn :=
  | JSONDecodeError
  | UnicodeDecodeError
  | ValueError
  | TypeError.

Inductive result (A : Type) :=
  | Ok (a : A)
  | Raise (e : exn).
Arguments Ok {A} a.
Arguments Raise {A} e.

#[global] Instance result_ret : MRet result := fun A a => Ok a.

#[global] Instance result_bind : MBind result := fun A B k r =>
  match r with
  | Ok a => k a
  | Raise e => Raise e
  end.

(** [try: body except ...: handler]. *)
Definition try_except {A} (body : result A) (handler : exn -> result A) : result A :=
  match body with
  | Ok a => Ok a
  | Raise e => handler e
  end.

(** [[x for x in l if p(x)]] where [p] may raise. *)
Fixpoint filter_raising {A} (p : A -> result bool) (l : list A) : result (list A) :=
  match l with
  | [] => Ok []
  | x :: l' =>
      b ← p x;
      rest ← filter_raising p l';
      Ok (if b : bool then x :: rest else rest)
  end.

(** ** The datetime library

    Datetimes are counted in microseconds.  [fromisoformat] returns [None]
    where Python raises [ValueError]; it returns an aware datetime for a
    string that carries a UTC offset. *)
Inductive datetime_value :=
  | Naive (t : Z)                  (* no UTC offset *)
  | Aware (t : Z) (utcoffset : Z). (* local time and UTC offset *)

Class Datetime := {
  isoformat : Z -> string;
  fromisoformat : string -> option datetime_value
}.

Definition timedelta_days (days : Z) : Z := days * 86400000000.

(** [datetime.fromisoformat(v)] for a dictionary value. *)
Definition fromisoformat_val `{Datetime} (v : pyval) : result datetime_value :=
  match v with
  | VNone => Raise TypeError
  | VStr s =>
      match fromisoformat s with
      | Some d => Ok d
      | None => Raise ValueError
      end
  end.

(** [d > cutoff_date] for a naive [cutoff_date]: Python refuses to compare
    an aware datetime with a naive one. *)
Definition later_than (d : datetime_value) (cutoff_date : Z) : result bool :=
  match d with
  | Naive t => Ok (cutoff_date <? t)
  | Aware _ _ => Raise TypeError
  end.

(** ** storage.py *)

Inductive file :=
  | Missing                      (* [os.path.exists] is false *)
  | Garbled (e : exn)            (* reading or decoding the content raises [e] *)
  | Document (jobs : list job).  (* a JSON list of job objects *)

Record store := Store {
  jobs_file : file;
  posted_jobs_file : file
}.

(** The body of the [try] of both load functions. *)
Definition read_document (f : file) : result (list job) :=
  match f with
  | Missing => Ok []
  | Garbled e => Raise e
  | Document jobs => Ok jobs
  end.

(** [try: ... except json.JSONDecodeError: return [] except Exception:
    return []]. *)
Definition load_guarded (f : file) : result (list job) :=
  try_except (read_document f)
    (fun e => match e with
              | JSONDecodeError => Ok []
              | _ => Ok []
              end).

Definition returned {A} (default : A) (r : result A) : A :=
  match r with
  | Ok a => a
  | Raise _ => default
  end.

Definition load_existing_jobs_result (st : store) : result (list job) :=
  load_guarded (jobs_file st).

Definition load_posted_jobs_result (st : store) : result (list job) :=
  load_guarded (posted_jobs_file st).

Definition load_existing_jobs (st : store) : list job :=
  returned [] (load_existing_jobs_result st).

Definition load_posted_jobs (st : store) : list job :=
  returned [] (load_posted_jobs_result st).

Definition save_jobs (jobs : list job) (st : store) : store :=
  Store (Document jobs) (posted_jobs_file st).

Definition save_posted_jobs (jobs : list job) (st : store) : store :=
  Store (jobs_file st) (Document jobs).

(** *** The loaders on any content

    The functions of the pipeline are modelled on files that, where they
    decode, hold a list of job objects.  The two loaders themselves take
    what [json.load] returns and check nothing but its [len], for the log:
    [OnDisk] has them on every content. *)

Module OnDisk.

(** What [json.load] returns. *)
#[warnings="-register-all"]
Inductive json :=
  | JNull
  | JBool (b : bool)
  | JNumber (n : Z)
  | JString (s : string)
  | JArray (items : list json)
  | JObject (members : list (string * json)).

Inductive content :=
  | Absent                (* [os.path.exists] is false *)
  | Unreadable (e : exn)  (* reading or decoding raises [e] *)
  | Decoded (v : json).   (* the file decodes to [v] *)

Record store := Store {
  jobs_file : content;
  posted_jobs_file : content
}.

(** [len(jobs)], in the message of the log: Python has none for a number,
    a boolean or [None]. *)
Definition len (v : json) : result nat :=
  match v with
  | JString s => Ok (String.length s)
  | JArray items => Ok (length items)
  | JObject members => Ok (length members)
  | _ => Raise TypeError
  end.

(** The body of the [try], then the two handlers. *)
Definition read_content (c : content) : result json :=
  match c with
  | Absent => Ok (JArray [])
  | Unreadable e => Raise e
  | Decoded jobs => _ ← len jobs; Ok jobs
  end.

Definition load_content (c : content) : result json :=
  try_except (read_content c)
    (fun e => match e with
              | JSONDecodeError => Ok (JArray [])
              | _ => Ok (JArray [])
              end).

Definition load_existing_jobs (st : store) : result json :=
  load_content (jobs_file st).

Definition load_posted_jobs (st : store) : result json :=
  load_content (posted_jobs_file st).

End OnDisk.

(** A file of the pipeline as content. *)
Definition json_of_value (v : pyval) : OnDisk.json :=
  match v with
  | VNone => OnDisk.JNull
  | VStr s => OnDisk.JString s
  end.

Definition json_of_job (j : job) : OnDisk.json :=
  OnDisk.JObject (map (fun kv => (kv.1, json_of_value kv.2)) (map_to_list j)).

Definition content_of (f : file) : OnDisk.content :=
  match f with
  | Missing => OnDisk.Absent
  | Garbled e => OnDisk.Unreadable e
  | Document jobs => OnDisk.Decoded (OnDisk.JArray (map json_of_job jobs))
  end.

(** ** job_processor.py *)

Section JobProcessor.
Context `{Datetime}.

(** [JobProcessor.clean_text]. *)
Definition clean_text (text : string) : string :=
  if String.eqb text "" then ""
  else
    let text := Text.join " " (Text.split text) in
    let text :=
      Text.replace_char "009" " "
        (Text.replace_char "013" " " (Text.replace_char "010" " " text)) in
    let text := Text.squeeze text in
    Text.strip text.

(** [JobProcessor.generate_job_hash]. *)
Definition hash_content (j : job) : string :=
  Text.strip
    (Text.lower
       (format_field (j !! "title") +:+ format_field (j !! "location")
          +:+ format_field (j !! "source"))).

Definition generate_job_hash (j : job) : string :=
  MD5.hexdigest (hash_content j).

(** The steps of [JobProcessor.clean_and_validate_job]. *)
Definition required_fields : list string := ["title"; "source"].

Definition text_fields : list string :=
  ["title"; "description"; "location"; "qualification"; "last_date"].

Definition defaults (now : Z) : list (string * pyval) :=
  [("description", VStr "Job details not available");
   ("location", VStr "India");
   ("state", VNone);
   ("category", VStr "government");
   ("qualification", VStr "As per notification");
   ("last_date", VStr "Check notification");
   ("apply_link", VStr "");
   ("scraped_at", VStr (isoformat now))].

Definition length_limits : list (string * nat) :=
  [("title", 200%nat); ("description", 1000%nat); ("location", 100%nat);
   ("qualification", 200%nat); ("last_date", 100%nat)].

Definition clean_field (j : job) (field : string) : job :=
  if truthy (j !! field)
  then <[field := VStr (clean_text (str_of (j !! field)))]> j
  else j.

Definition set_default (j : job) (d : string * pyval) : job :=
  if truthy (j !! d.1) then j else <[d.1 := d.2]> j.

Definition validate_category (j : job) : job :=
  if bool_decide (j !! "category" = Some (VStr "government")
                  ∨ j !! "category" = Some (VStr "private"))
  then j
  else <["category" := VStr "government"]> j.

(** [job[field] = job[field][:n]]; the field holds a [str] here, since it
    was cleaned or given its default. *)
Definition limit_length (j : job) (l : string * nat) : job :=
  <[l.1 := VStr (Text.take l.2 (str_of (j !! l.1)))]> j.

(** [JobProcessor.clean_and_validate_job]; [None] is Python's [None]. *)
Definition clean_and_validate_job (now : Z) (j : job) : option job :=
  if bool_decide (j = ∅) then None
  else if forallb (fun field => truthy (j !! field)) required_fields then
    let j := fold_left clean_field text_fields j in
    let j := fold_left set_default (defaults now) j in
    let j := validate_category j in
    let j := fold_left limit_length length_limits j in
    Some (<["processed_at" := VStr (isoformat now)]> j)
  else None.

(** The loop of [JobProcessor.process_jobs]: the state is
    [(existing_hashes, new_jobs)]. *)
Definition process_step (now : Z) (posted_hashes : gset string)
    (acc : gset string * list job) (raw : job) : gset string * list job :=
  match clean_and_validate_job now raw with
  | None => acc
  | Some processed_job =>
      let job_hash := generate_job_hash processed_job in
      if bool_decide (job_hash ∈ acc.1 ∨ job_hash ∈ posted_hashes) then acc
      else ({[job_hash]} ∪ acc.1,
            acc.2 ++ [<["job_hash" := VStr job_hash]> processed_job])
  end.

Definition hash_set (jobs : list job) : gset string :=
  list_to_set (map generate_job_hash jobs).

Definition process_loop (now : Z) (existing_hashes posted_hashes : gset string)
    (scraped_jobs : list job) : list job :=
  (fold_left (process_step now posted_hashes) scraped_jobs
     (existing_hashes, [])).2.

(** [JobProcessor.process_jobs]: the new jobs and the store afterwards. *)
Definition process_jobs (now : Z) (scraped_jobs : list job) (st : store)
    : list job * store :=
  match scraped_jobs with
  | [] => ([], st)
  | _ =>
      let existing_jobs := load_existing_jobs st in
      let posted_jobs := load_posted_jobs st in
      let new_jobs :=
        process_loop now (hash_set existing_jobs) (hash_set posted_jobs)
          scraped_jobs in
      match new_jobs with
      | [] => (new_jobs, st)
      | _ => (new_jobs, save_jobs (existing_jobs ++ new_jobs) st)
      end
  end.

(** The same call as its caller sees it.  [clean_and_validate_job] writes
    into the dict it is given and returns that very dict, and [process_jobs]
    writes [job_hash] into it: the records of the batch are rewritten where
    they lie.  A record that fails one of the two first checks is returned
    from before any write.  [process_jobs_in_place] gives the new jobs, the
    batch as the call leaves it, and the store; the records of a batch are
    taken to be distinct objects. *)
Definition process_step_in_place (now : Z) (posted_hashes : gset string)
    (acc : gset string * list job * list job) (raw : job)
    : gset string * list job * list job :=
  let '(existing_hashes, new_jobs, batch) := acc in
  match clean_and_validate_job now raw with
  | None => (existing_hashes, new_jobs, batch ++ [raw])
  | Some processed_job =>
      let job_hash := generate_job_hash processed_job in
      if bool_decide (job_hash ∈ existing_hashes ∨ job_hash ∈ posted_hashes)
      then (existing_hashes, new_jobs, batch ++ [processed_job])
      else
        let processed_job := <["job_hash" := VStr job_hash]> processed_job in
        ({[job_hash]} ∪ existing_hashes, new_jobs ++ [processed_job],
         batch ++ [processed_job])
  end.

Definition process_jobs_in_place (now : Z) (scraped_jobs : list job)
    (st : store) : list job * list job * store :=
  match scraped_jobs with
  | [] => ([], scraped_jobs, st)
  | _ =>
      let existing_jobs := load_existing_jobs st in
      let posted_jobs := load_posted_jobs st in
      let '(_, new_jobs, batch) :=
        fold_left (process_step_in_place now (hash_set posted_jobs))
          scraped_jobs (hash_set existing_jobs, [], []) in
      match new_jobs with
      | [] => (new_jobs, batch, st)
      | _ => (new_jobs, batch, save_jobs (existing_jobs ++ new_jobs) st)
      end
  end.

(** [unposted_jobs.sort(key=lambda x: x.get('scraped_at', ''),
    reverse=True)]: a stable sort, largest key first.  With two or more
    jobs every key is compared, and comparing [None] raises. *)
Definition sort_key (j : job) : pyval :=
  match j !! "scraped_at" with
  | None => VStr ""
  | Some v => v
  end.

Definition key_str (j : job) : string :=
  match sort_key j with
  | VStr s => s
  | VNone => ""
  end.

Definition key_is_none (j : job) : bool :=
  match sort_key j with
  | VNone => true
  | VStr _ => false
  end.

Fixpoint insert_newest_first (x : job) (l : list job) : list job :=
  match l with
  | [] => [x]
  | y :: l' =>
      if String.ltb (key_str x) (key_str y) then y :: insert_newest_first x l'
      else x :: l
  end.

Definition sorted_newest_first (l : list job) : list job :=
  foldr insert_newest_first [] l.

Definition sort_newest_first (l : list job) : result (list job) :=
  if (2 <=? length l)%nat && existsb key_is_none l then Raise TypeError
  else Ok (sorted_newest_first l).

(** [l[:n]] for an [int] [n]: a negative [n] counts from the end. *)
Definition slice_to (n : Z) (l : list job) : list job :=
  if 0 <=? n then firstn (Z.to_nat n) l
  else firstn (length l - Z.to_nat (- n)) l.

(** [{job.get('job_hash') for job in posted_jobs if job.get('job_hash')}]. *)
Definition posted_hash_set (posted_jobs : list job) : gset string :=
  list_to_set
    (map (fun j => str_of (j !! "job_hash"))
         (filter (fun j => truthy (j !! "job_hash") = true) posted_jobs)).

(** [job.get('job_hash') not in posted_hashes]; the set holds non-empty
    strings only. *)
Definition is_unposted (posted_hashes : gset string) (j : job) : bool :=
  match j !! "job_hash" with
  | Some (VStr h) => bool_decide (h ∉ posted_hashes)
  | _ => true
  end.

Definition unposted (st : store) : list job :=
  let posted_hashes := posted_hash_set (load_posted_jobs st) in
  List.filter (is_unposted posted_hashes) (load_existing_jobs st).

(** [JobProcessor.get_jobs_for_posting]; [limit = None] is the default. *)
Definition get_jobs_for_posting (limit : option Z) (st : store)
    : result (list job) :=
  unposted_jobs ← sort_newest_first (unposted st);
  match limit with
  | None => Ok unposted_jobs
  | Some n => if n =? 0 then Ok unposted_jobs else Ok (slice_to n unposted_jobs)
  end.

(** [JobProcessor.mark_jobs_as_posted]. *)
Definition still_recent (now : Z) (j : job) : result bool :=
  let cutoff_date := now - timedelta_days 30 in
  posted_at ← fromisoformat_val
                (default (VStr (isoformat now)) (j !! "posted_at"));
  later_than posted_at cutoff_date.

Definition mark_jobs_as_posted (now : Z) (jobs : list job) (st : store)
    : result store :=
  match jobs with
  | [] => Ok st
  | _ =>
      let posted_jobs := load_posted_jobs st in
      let jobs := map (insert "posted_at" (VStr (isoformat now))) jobs in
      let posted_jobs := posted_jobs ++ jobs in
      posted_jobs ← filter_raising (still_recent now) posted_jobs;
      Ok (save_posted_jobs posted_jobs st)
  end.

(** [JobProcessor.cleanup_old_data].  The [try] around the parsing catches
    [ValueError] only; the [TypeError] of a comparison leaves the function
    before anything is saved. *)
Definition keep_on_cleanup (cutoff_date : Z) (j : job) : result bool :=
  if truthy (j !! "scraped_at") then
    try_except
      (scraped_date ← fromisoformat_val (VStr (str_of (j !! "scraped_at")));
       later_than scraped_date cutoff_date)
      (fun e => match e with
                | ValueError => Ok true
                | _ => Raise e
                end)
  else Ok false.

Definition cleanup_old_data (now : Z) (days : Z) (st : store) : result store :=
  let cutoff_date := now - timedelta_days days in
  let jobs := load_existing_jobs st in
  recent_jobs ← filter_raising (keep_on_cleanup cutoff_date) jobs;
  Ok (if (length recent_jobs <? length jobs)%nat then save_jobs recent_jobs st
      else st).

End JobProcessor.

(** ** The layout printed by [datetime.isoformat]

    [YYYY-MM-DDTHH:MM:SS] with [.ffffff] appended when the microsecond is not
    zero, and [+HH:MM] or [-HH:MM] appended for an aware datetime, over the
    proleptic Gregorian calendar; microseconds are counted from
    1970-01-01T00:00:00.  [parse] reads this layout and no other; the
    instance is used on strings of this layout and on strings that no
    version of [fromisoformat] reads. *)

Module Iso.

Definition days_from_civil (y m d : Z) : Z :=
  let y := if m <=? 2 then y - 1 else y in
  let era := y / 400 in
  let yoe := y - era * 400 in
  let doy := (153 * (if 2 <? m then m - 3 else m + 9) + 2) / 5 + d - 1 in
  let doe := yoe * 365 + yoe / 4 - yoe / 100 + doy in
  era * 146097 + doe - 719468.

Definition civil_from_days (z : Z) : Z * Z * Z :=
  let z := z + 719468 in
  let era := z / 146097 in
  let doe := z - era * 146097 in
  let yoe := (doe - doe / 1460 + doe / 36524 - doe / 146096) / 365 in
  let doy := doe - (365 * yoe + yoe / 4 - yoe / 100) in
  let mp := (5 * doy + 2) / 153 in
  let d := doy - (153 * mp + 2) / 5 + 1 in
  let m := if mp <? 10 then mp + 3 else mp - 9 in
  let y := yoe + era * 400 in
  (if m <=? 2 then y + 1 else y, m, d).

Definition days_in_month (y m : Z) : Z :=
  days_from_civil (if m =? 12 then y + 1 else y) (if m =? 12 then 1 else m + 1) 1
  - days_from_civil y m 1.

Fixpoint digits (width : nat) (n : Z) : string :=
  match width with
  | O => ""
  | S w => digits w (n / 10) +:+ String (Text.chr (48 + n mod 10)) ""
  end.

Definition fmt (t : Z) : string :=
  let day := t / 86400000000 in
  let rest := t mod 86400000000 in
  let '(y, m, d) := civil_from_days day in
  let secs := rest / 1000000 in
  let us := rest mod 1000000 in
  digits 4 y +:+ "-" +:+ digits 2 m +:+ "-" +:+ digits 2 d +:+ "T"
    +:+ digits 2 (secs / 3600) +:+ ":" +:+ digits 2 (secs / 60 mod 60)
    +:+ ":" +:+ digits 2 (secs mod 60)
    +:+ (if us =? 0 then "" else "." +:+ digits 6 us).

Definition digit (c : ascii) : option Z :=
  let n := Text.code c in
  if (48 <=? n) && (n <=? 57) then Some (n - 48) else None.

Fixpoint number (acc : Z) (cs : list ascii) : option Z :=
  match cs with
  | [] => Some acc
  | c :: cs' => d ← digit c; number (10 * acc + d) cs'
  end.

(** [.ffffff], when there: the microseconds and what follows them. *)
Definition fraction (cs : list ascii) : option (Z * list ascii) :=
  match cs with
  | "."%char :: f1 :: f2 :: f3 :: f4 :: f5 :: f6 :: rest =>
      us ← number 0 [f1; f2; f3; f4; f5; f6]; Some (us, rest)
  | "."%char :: _ => None
  | _ => Some (0, cs)
  end.

(** [+HH:MM] or [-HH:MM], when there: the UTC offset in microseconds. *)
Definition utcoffset (cs : list ascii) : option (option Z) :=
  match cs with
  | [] => Some None
  | [sign; h1; h2; ":"%char; m1; m2] =>
      hh ← number 0 [h1; h2];
      mm ← number 0 [m1; m2];
      if (hh <? 24) && (mm <? 60) then
        if Ascii.eqb sign "+" then Some (Some ((hh * 3600 + mm * 60) * 1000000))
        else if Ascii.eqb sign "-"
        then Some (Some (- ((hh * 3600 + mm * 60) * 1000000)))
        else None
      else None
  | _ => None
  end.

Definition parse (s : string) : option datetime_value :=
  match list_ascii_of_string s with
  | y1 :: y2 :: y3 :: y4 :: "-"%char :: m1 :: m2 :: "-"%char :: d1 :: d2
      :: "T"%char :: h1 :: h2 :: ":"%char :: n1 :: n2 :: ":"%char
      :: s1 :: s2 :: tail =>
      y ← number 0 [y1; y2; y3; y4];
      m ← number 0 [m1; m2];
      d ← number 0 [d1; d2];
      hh ← number 0 [h1; h2];
      mm ← number 0 [n1; n2];
      ss ← number 0 [s1; s2];
      '(us, tail) ← fraction tail;
      offset ← utcoffset tail;
      if (1 <=? y) && (1 <=? m) && (m <=? 12) && (1 <=? d)
         && (d <=? days_in_month y m) && (hh <? 24) && (mm <? 60) && (ss <? 60)
      then
        let t := (days_from_civil y m d * 86400 + hh * 3600 + mm * 60 + ss)
                 * 1000000 + us in
        Some match offset with
             | None => Naive t
             | Some o => Aware t o
             end
      else None
  | _ => None
  end.

Definition datetime : Datetime :=
  {| isoformat := fmt; fromisoformat := parse |}.

End Iso.

(** ** scheduler.py: the posting paths

    The two channels are outside the program; what [run_telegram_posting]
    and [post_jobs_to_blogger] return is an input of each posting event.
    [outbox] records every call of [post_jobs] on a non-empty batch with
    the two answers, oldest first. *)

Record delivery := Delivery {
  batch : list job;
  success_telegram : bool;
  success_blogger : bool
}.

Definition delivered (d : delivery) : bool :=
  success_telegram d || success_blogger d.

Record scheduler := Scheduler {
  disk : store;
  delayed_posting : list (list job);  (* tasks tagged 'delayed_posting' *)
  outbox : list delivery
}.

Inductive event :=
  | ScrapingJob (now : Z) (all_scraped_jobs : list job)
  | PostingJob (now : Z) (telegram blogger : bool)
  | DelayedPostingJob (now : Z) (telegram blogger : bool)
  | CleanupJob (now : Z).

Section Scheduler.
Context `{Datetime}.
Variable MAX_JOBS_PER_POST : Z.

(** [JobScheduler.post_jobs]: an exception of the marking is caught and
    logged, which leaves the store as it was. *)
Definition post_jobs (now : Z) (telegram blogger : bool) (jobs : list job)
    (st : store) : store :=
  match jobs with
  | [] => st
  | _ =>
      returned st
        (try_except
           (if telegram || blogger then mark_jobs_as_posted now jobs st
            else Ok st)
           (fun _ => Ok st))
  end.

Definition record_delivery (telegram blogger : bool) (jobs : list job)
    (log : list delivery) : list delivery :=
  match jobs with
  | [] => log
  | _ => log ++ [Delivery jobs telegram blogger]
  end.

(** [JobScheduler.run_scraping_job], after the scrapers have run. *)
Definition run_scraping_job (now : Z) (all_scraped_jobs : list job)
    (s : scheduler) : scheduler :=
  let '(new_jobs, st) := process_jobs now all_scraped_jobs (disk s) in
  match new_jobs with
  | [] => Scheduler st (delayed_posting s) (outbox s)
  | _ => Scheduler st (delayed_posting s ++ [new_jobs]) (outbox s)
  end.

(** [JobScheduler.run_posting_job]. *)
Definition run_posting_job (now : Z) (telegram blogger : bool)
    (s : scheduler) : scheduler :=
  match get_jobs_for_posting (Some (MAX_JOBS_PER_POST * 3)) (disk s) with
  | Raise _ => s
  | Ok jobs_to_post =>
      Scheduler (post_jobs now telegram blogger jobs_to_post (disk s))
        (delayed_posting s)
        (record_delivery telegram blogger jobs_to_post (outbox s))
  end.

(** [JobScheduler.run_posting_job_for_jobs] on the captured batch, then
    [schedule.clear('delayed_posting')]. *)
Definition run_posting_job_for_jobs (now : Z) (telegram blogger : bool)
    (jobs : list job) (s : scheduler) : scheduler :=
  match jobs with
  | [] => s
  | _ =>
      Scheduler (post_jobs now telegram blogger jobs (disk s)) []
        (record_delivery telegram blogger jobs (outbox s))
  end.

(** [JobScheduler.run_cleanup_job]: an exception of the cleanup is caught
    and logged, which leaves the store as it was. *)
Definition run_cleanup_job (now : Z) (s : scheduler) : scheduler :=
  Scheduler (returned (disk s) (cleanup_old_data now 7 (disk s)))
    (delayed_posting s) (outbox s).

(** One scheduled action; a delayed posting event runs the oldest pending
    task. *)
Definition run_event (s : scheduler) (e : event) : scheduler :=
  match e with
  | ScrapingJob now all_scraped_jobs => run_scraping_job now all_scraped_jobs s
  | PostingJob now telegram blogger => run_posting_job now telegram blogger s
  | DelayedPostingJob now telegram blogger =>
      match delayed_posting s with
      | [] => s
      | jobs :: _ => run_posting_job_for_jobs now telegram blogger jobs s
      end
  | CleanupJob now => run_cleanup_job now s
  end.

Definition run_events (s : scheduler) (es : list event) : scheduler :=
  fold_left run_event es s.

End Scheduler.

(** The fingerprints a delivery carried. *)
Definition fingerprints (jobs : list job) : list string :=
  map (fun j => str_of (j !! "job_hash")) jobs.

(** No duplicate delivery, as the specification words it: no fingerprint
    appears in two distinct successful delivery batches. *)
Definition no_duplicate_delivery (log : list delivery) : Prop :=
  ∀ i j d1 d2 fp,
    i ≠ j → log !! i = Some d1 → log !! j = Some d2 →
    delivered d1 = true → delivered d2 = true →
    fp ∈ fingerprints (batch d1) → fp ∉ fingerprints (batch d2).

Definition fresh_store : store := Store Missing Missing.
Definition fresh_scheduler : scheduler := Scheduler fresh_store [] [].

(** ** Notions used in the statements *)

Section Notions.
Context `{Datetime}.

(** A raw record passes validation when [title] and [source] are there. *)
Definition is_valid (raw : job) : bool :=
  truthy (raw !! "title") && truthy (raw !! "source").

(** The record [clean_and_validate_job] builds, before the processing
    stamp. *)
Definition cleaned (now : Z) (raw : job) : job :=
  fold_left limit_length length_limits
    (validate_category
       (fold_left set_default (defaults now)
          (fold_left clean_field text_fields raw))).

(** The record [process_jobs] appends for an accepted raw record. *)
Definition accepted_record (now : Z) (raw : job) (job_hash : string) : job :=
  <["job_hash" := VStr job_hash]>
    (<["processed_at" := VStr (isoformat now)]> (cleaned now raw)).

(** The fingerprint the pipeline gives a raw record: the hash of the
    record once cleaned and validated. *)
Definition fingerprint (now : Z) (raw : job) : option string :=
  generate_job_hash <$> clean_and_validate_job now raw.

(** The fields the fingerprint is computed from, as
    [clean_and_validate_job] leaves them. *)
Definition final_title (raw : job) : string :=
  Text.take 200 (clean_text (str_of (raw !! "title"))).

Definition final_location (raw : job) : string :=
  let text := clean_text (str_of (raw !! "location")) in
  Text.take 100 (if String.eqb text "" then "India" else text).

Definition fingerprint_of (raw : job) : string :=
  MD5.hexdigest
    (Text.strip
       (Text.lower
          (final_title raw +:+ final_location raw
             +:+ str_of (raw !! "source")))).

(** Normalization of one field as the specification words it:
    whitespace collapsed, then case folded. *)
Definition normalize (v : option pyval) : string :=
  Text.lower (clean_text (str_of v)).

(** The accepted records as the specification words them: a valid record
    is accepted iff its fingerprint is in neither set and no record
    earlier in the batch produced it. *)
Definition accepts (now : Z) (known delivered : gset string)
    (earlier : list job) (fp : string) : Prop :=
  (fp ∉ known) ∧ (fp ∉ delivered)
  ∧ Forall (fun r => fingerprint now r ≠ Some fp) earlier.

Fixpoint accepted_from (now : Z) (known delivered : gset string)
    (earlier rest : list job) : list job :=
  match rest with
  | [] => []
  | raw :: rest' =>
      match clean_and_validate_job now raw with
      | Some record =>
          let fp := generate_job_hash record in
          if bool_decide (accepts now known delivered earlier fp)
          then [<["job_hash" := VStr fp]> record]
          else []
      | None => []
      end ++ accepted_from now known delivered (earlier ++ [raw]) rest'
  end.

(** The invariant of the loop of [process_jobs]: together with
    [posted_hashes], the set [existing_hashes] holds the known and
    delivered fingerprints and those of the records read so far. *)
Definition tracks (now : Z) (known delivered existing_hashes : gset string)
    (earlier : list job) : Prop :=
  ∀ h, h ∈ existing_hashes ∨ h ∈ delivered ↔
       h ∈ known ∨ h ∈ delivered
       ∨ Exists (fun r => fingerprint now r = Some h) earlier.

(** A record without the two fields that hold the time of processing. *)
Definition without_clock (j : job) : job :=
  delete "processed_at" (delete "scraped_at" j).




(** [scraped_at] is not JSON [null]. *)
Definition timestamp_not_null (j : job) : Prop :=
  j !! "scraped_at" ≠ Some VNone.

#[global] Instance timestamp_not_null_dec (j : job) :
  Decision (timestamp_not_null j).
Proof. unfold timestamp_not_null. apply _. Defined.

(** What the pipeline writes: a known record carries a fingerprint and a
    [str] under [scraped_at]; a delivered record carries a [posted_at]
    that [fromisoformat] reads as a naive datetime, or none. *)
Definition known_record (j : job) : Prop :=
  truthy (j !! "job_hash") = true ∧ key_is_none j = false.

Definition delivered_record (j : job) : Prop :=
  match j !! "posted_at" with
  | None => True
  | Some (VStr s) => ∃ t, fromisoformat s = Some (Naive t)
  | Some VNone => False
  end.

#[global] Instance delivered_record_dec (j : job) : Decision (delivered_record j).
Proof.
  unfold delivered_record. destruct (j !! "posted_at") as [[|s]|];
    [right; tauto| |left; exact I].
  destruct (fromisoformat s) as [[t|t o]|];
    [left; by exists t|right; by intros [? ?]|right; by intros [? ?]].
Defined.

Definition store_ok (st : store) : Prop :=
  Forall known_record (load_existing_jobs st)
  ∧ Forall delivered_record (load_posted_jobs st).

(** The clock prints what it reads back. *)
Definition clock_ok (now : Z) : Prop :=
  fromisoformat (isoformat now) = Some (Naive now).

Definition has_fingerprint (j : job) : Prop :=
  truthy (j !! "job_hash") = true.

(** The state the scheduler keeps: a store as the pipeline writes it, and
    delayed tasks that hold fingerprinted jobs. *)
Definition scheduler_ok (s : scheduler) : Prop :=
  store_ok (disk s) ∧ Forall (Forall has_fingerprint) (delayed_posting s).

(** The store a cleanup leaves: an exception leaves it as it was, the one
    write being the last step. *)
Definition after_cleanup (now days : Z) (st : store) : store :=
  returned st (cleanup_old_data now days st).

Definition event_time (e : event) : Z :=
  match e with
  | ScrapingJob now _ => now
  | PostingJob now _ _ => now
  | DelayedPostingJob now _ _ => now
  | CleanupJob now => now
  end.

End Notions.

(** ** Sample data *)

Module Sample.

Definition clerk : job :=
  {[ "title" := VStr "Clerk"; "location" := VStr "Delhi"; "source" := VStr "X" ]}.

Definition clerk_lowercase : job :=
  {[ "title" := VStr "clerk"; "location" := VStr "delhi"; "source" := VStr "X" ]}.

(** 2024-01-10T10:30:00 and half an hour later. *)
Definition t0 : Z := 1704882600000000.
Definition t1 : Z := t0 + 1800000000.

End Sample.

Module SourceSpacing.

(** Two records that differ only in the spacing inside [source]. *)
Definition two_spaces : job :=
  {[ "title" := VStr "Clerk"; "location" := VStr "Delhi";
     "source" := VStr "X  Y" ]}.

Definition one_space : job :=
  {[ "title" := VStr "Clerk"; "location" := VStr "Delhi";
     "source" := VStr "X Y" ]}.

End SourceSpacing.

Module CaseAndSpacing.

(** The same posting as two sources of text would give it. *)
Definition shouting : job :=
  {[ "title" := VStr "  Junior   CLERK "; "location" := VStr "New  Delhi";
     "source" := VStr "Sarkari Result"; "category" := VStr "private" ]}.

Definition plain : job :=
  {[ "title" := VStr "junior clerk"; "location" := VStr "new delhi";
     "source" := VStr "sarkari result"; "apply_link" := VStr "http://x" ]}.

End CaseAndSpacing.

Module NoCategory.

Definition posting : job :=
  {[ "title" := VStr "Clerk"; "source" := VStr "X" ]}.

Definition typo : job :=
  {[ "title" := VStr "Clerk"; "source" := VStr "X";
     "category" := VStr "Govt" ]}.

End NoCategory.

Module Backlog.

Definition job_at (title scraped_at job_hash : string) : job :=
  {[ "title" := VStr title; "source" := VStr "X";
     "scraped_at" := VStr scraped_at; "job_hash" := VStr job_hash ]}.

Definition monday : job := job_at "Clerk" "2024-01-08T09:00:00" "h1".
Definition wednesday : job := job_at "Driver" "2024-01-10T09:00:00" "h2".
Definition tuesday : job := job_at "Teacher" "2024-01-09T09:00:00" "h3".
Definition thursday : job := job_at "Nurse" "2024-01-11T09:00:00" "h4".

(** Four known jobs, of which Thursday's has been delivered. *)
Definition st : store :=
  Store (Document [monday; wednesday; tuesday; thursday])
        (Document [<["posted_at" := VStr "2024-01-11T10:00:00"]> thursday]).

End Backlog.

Module Timestamps.

Definition job_at (title : string) (scraped_at : pyval) : job :=
  {[ "title" := VStr title; "source" := VStr "X"; "scraped_at" := scraped_at ]}.

(** Seen from [Sample.t0], 2024-01-10T10:30:00: ten days old, one day old,
    not a timestamp, and an empty timestamp. *)
Definition old : job := job_at "Clerk" (VStr "2023-12-31T10:30:00").
Definition recent : job := job_at "Driver" (VStr "2024-01-09T10:30:00").
Definition garbled : job := job_at "Teacher" (VStr "last week").
Definition blank : job := job_at "Nurse" (VStr "").

Definition st : store := Store (Document [old; recent; garbled; blank]) Missing.

End Timestamps.

Module Offsets.

(** A job ten days old, and a job one day old whose [scraped_at] carries a
    UTC offset. *)
Definition aware : job :=
  Timestamps.job_at "Driver" (VStr "2024-01-09T10:30:00+05:30").

Definition st : store := Store (Document [Timestamps.old; aware]) Missing.

End Offsets.

Module NullTimestamp.

(** Two undelivered jobs, one with JSON [null] under [scraped_at]. *)
Definition st : store :=
  Store (Document [Backlog.monday; Timestamps.job_at "Driver" VNone]) Missing.

End NullTimestamp.

Module Misshapen.

(** [jobs.json] holds the object [{"jobs": []}], [posted_jobs.json] the
    list [[1, "x"]]. *)
Definition st : OnDisk.store :=
  OnDisk.Store
    (OnDisk.Decoded (OnDisk.JObject [("jobs", OnDisk.JArray [])]))
    (OnDisk.Decoded (OnDisk.JArray [OnDisk.JNumber 1; OnDisk.JString "x"])).

End Misshapen.

Module Truncated.

(** A title of 201 characters whose 200th is a blank. *)
Definition title : string :=
  string_of_list_ascii (replicate 199 "A"%char) +:+ " B".

Definition posting : job :=
  {[ "title" := VStr title; "location" := VStr "Delhi"; "source" := VStr "X" ]}.

(** The first run on a fresh store, then a second run on the batch as the
    first run left it. *)
Definition first : list job * list job * store :=
  process_jobs_in_place (H:=Iso.datetime) Sample.t0 [posting] fresh_store.


End Truncated.

Module OneChannel.

(** 2024-01-12T10:30:00; Telegram fails and Blogger succeeds on the two
    newest undelivered jobs of [Backlog.st]. *)
Definition now : Z := Sample.t0 + timedelta_days 2.
Definition jobs : list job := [Backlog.wednesday; Backlog.tuesday].
Definition after : store :=
  post_jobs (H:=Iso.datetime) now false true jobs Backlog.st.

End OneChannel.

Module Redelivery.

(** One cycle with the default [MAX_JOBS_PER_POST = 5]: the scraping job
    finds Clerk, the periodic posting job runs next, and the delayed posting
    job of the scraping job fires half an hour later; every channel call
    succeeds. *)
Definition events : list event :=
  [ScrapingJob Sample.t0 [Sample.clerk];
   PostingJob Sample.t0 true true;
   DelayedPostingJob Sample.t1 true true].

Definition after (n : nat) : scheduler :=
  run_events (H:=Iso.datetime) 5 fresh_scheduler (take n events).

End Redelivery.

(** * The rest of the pipeline *)

(** ** base_scraper.py *)

Module BaseScraper.

(** [BaseJobScraper.clean_text]. *)
Definition clean_text (text : string) : string :=
  if String.eqb text "" then ""
  else
    let text := Text.join " " (Text.split text) in
    let text :=
      Text.replace_char "009" " "
        (Text.replace_char "013" " " (Text.replace_char "010" " " text)) in
    Text.strip text.

(** [needle in hay]. *)
Fixpoint contains (needle hay : string) : bool :=
  String.prefix needle hay
  || match hay with
     | EmptyString => false
     | String _ hay' => contains needle hay'
     end.

(** [config.JOB_CATEGORIES]. *)
Definition government_keywords : list string :=
  ["sarkari"; "government"; "govt"; "public sector"; "psu"; "railway"; "bank";
   "ssc"; "upsc"].

Definition private_keywords : list string :=
  ["private"; "corporate"; "company"; "mnc"; "startup"; "it"; "software"].

(** [BaseJobScraper.categorize_job]. *)
Definition categorize_job (title description : string) : string :=
  let content := Text.lower (title +:+ " " +:+ description) in
  if existsb (fun keyword => contains keyword content) government_keywords
  then "government"
  else if existsb (fun keyword => contains keyword content) private_keywords
  then "private"
  else "government".

End BaseScraper.

(** ** Notions used in the further statements *)

(** A word: not empty, no whitespace. *)
Fixpoint no_space (s : string) : bool :=
  match s with
  | EmptyString => true
  | String c s' => negb (Text.isspace c) && no_space s'
  end.

Definition is_word (w : string) : Prop := w ≠ "" ∧ no_space w = true.

(** Only blanks for whitespace. *)
Fixpoint only_blanks (s : string) : bool :=
  match s with
  | EmptyString => true
  | String c s' => (negb (Text.isspace c) || Text.is_blank c) && only_blanks s'
  end.

(** A text field of a record, no longer than [n]. *)
Definition text_within (record : job) (field : string) (n : nat) : Prop :=
  ∃ s, record !! field = Some (VStr s) ∧ (String.length s <= n)%nat.

(** The fields [clean_and_validate_job] leaves in every record. *)
Definition record_fields : list string :=
  ["title"; "source"; "description"; "location"; "state"; "category";
   "qualification"; "last_date"; "apply_link"; "scraped_at"; "processed_at"].

(** The fingerprint a record carries is the one its fields give. *)
Definition fingerprint_consistent (j : job) : Prop :=
  j !! "job_hash" = Some (VStr (generate_job_hash j)).

(** No two known records share a fingerprint, and each carries its own. *)
Definition known_unique (st : store) : Prop :=
  NoDup (map generate_job_hash (load_existing_jobs st))
  ∧ Forall fingerprint_consistent (load_existing_jobs st).

(** A digit or a letter from a to f; a text of such characters. *)
Definition is_hex (c : ascii) : bool :=
  let n := Text.code c in
  ((48 <=? n) && (n <=? 57)) || ((97 <=? n) && (n <=? 102)).

Fixpoint all_chars (p : ascii → bool) (s : string) : bool :=
  match s with
  | EmptyString => true
  | String c s' => p c && all_chars p s'
  end.

(** ** More sample data *)

Module Expiry.

(** 2024-02-19T10:30:00, forty days after [Sample.t0]. *)
Definition now : Z := Sample.t0 + timedelta_days 40.

(** A delivered-set with a record whose [posted_at] is JSON [null]. *)
Definition broken : store :=
  Store (Document [Backlog.monday])
        (Document [<["posted_at" := VNone]> Backlog.thursday]).

End Expiry.

(** ** storage.py: queries and statistics *)

(** [StorageManager.append_job]. *)
Definition append_job (j : job) (st : store) : store :=
  save_jobs (load_existing_jobs st ++ [j]) st.

(** [job.get(field) == value] for a [str] [value]. *)
Definition field_is (field value : string) (j : job) : bool :=
  bool_decide (j !! field = Some (VStr value)).

Definition get_jobs_by_state (state : string) (st : store) : list job :=
  List.filter (field_is "state" state) (load_existing_jobs st).

Definition get_jobs_by_category (category : string) (st : store) : list job :=
  List.filter (field_is "category" category) (load_existing_jobs st).

Definition get_jobs_by_source (source : string) (st : store) : list job :=
  List.filter (field_is "source" source) (load_existing_jobs st).

(** A [dict] built by the program, in insertion order. *)
Section Dict.
Context {K V : Type} `{EqDecision K}.

Fixpoint dict_get (d : list (K * V)) (k : K) : option V :=
  match d with
  | [] => None
  | (k', v) :: d' => if decide (k' = k) then Some v else dict_get d' k
  end.

(** [d[k] = v]: a present key keeps its place. *)
Fixpoint dict_set (d : list (K * V)) (k : K) (v : V) : list (K * V) :=
  match d with
  | [] => [(k, v)]
  | (k', v') :: d' =>
      if decide (k' = k) then (k, v) :: d' else (k', v') :: dict_set d' k v
  end.

End Dict.

(** [job.get(field, 'Unknown')]. *)
Definition get_or_unknown (field : string) (j : job) : pyval :=
  default (VStr "Unknown") (j !! field).

(** [for job in jobs: key = job.get(field, 'Unknown');
    stats[key] = stats.get(key, 0) + 1]. *)
Definition count_by (field : string) (jobs : list job) : list (pyval * nat) :=
  fold_left
    (fun stats j =>
       let key := get_or_unknown field j in
       dict_set stats key (default 0%nat (dict_get stats key) + 1)%nat)
    jobs [].

(** [os.path.exists]. *)
Definition exists_file (f : file) : bool :=
  match f with
  | Missing => false
  | _ => true
  end.

Record storage_stats := StorageStats {
  total_jobs : nat;
  total_posted : nat;
  government_jobs : nat;
  private_jobs : nat;
  jobs_by_source : list (pyval * nat);
  jobs_by_state : list (pyval * nat);
  storage_files : bool * bool
}.

(** [StorageManager.get_storage_stats]; nothing in its [try] raises. *)
Definition get_storage_stats (st : store) : storage_stats :=
  let jobs := load_existing_jobs st in
  let posted_jobs := load_posted_jobs st in
  {| total_jobs := length jobs;
     total_posted := length posted_jobs;
     government_jobs := length (List.filter (field_is "category" "government") jobs);
     private_jobs := length (List.filter (field_is "category" "private") jobs);
     jobs_by_source := count_by "source" jobs;
     jobs_by_state := count_by "state" jobs;
     storage_files := (exists_file (jobs_file st), exists_file (posted_jobs_file st)) |}.

(** ** job_processor.py: grouping *)

(** [job.get('state') or 'Other']. *)
Definition state_or_other (j : job) : string :=
  if truthy (j !! "state") then str_of (j !! "state") else "Other".

(** [JobProcessor.categorize_jobs_by_state]. *)
Definition categorize_jobs_by_state (jobs : list job) : list (string * list job) :=
  fold_left
    (fun state_jobs j =>
       let state := state_or_other j in
       let state_jobs :=
         match dict_get state_jobs state with
         | None => dict_set state_jobs state []
         | Some _ => state_jobs
         end in
       dict_set state_jobs state (default [] (dict_get state_jobs state) ++ [j]))
    jobs [].

(** [JobProcessor.categorize_jobs_by_type]; [job_type in type_jobs] is false
    for [None]. *)
Definition categorize_jobs_by_type (jobs : list job) : list (string * list job) :=
  fold_left
    (fun type_jobs j =>
       match default (VStr "government") (j !! "category") with
       | VStr job_type =>
           match dict_get type_jobs job_type with
           | Some l => dict_set type_jobs job_type (l ++ [j])
           | None => type_jobs
           end
       | VNone => type_jobs
       end)
    jobs [("government", []); ("private", [])].

(** The category with the default of [categorize_jobs_by_type]. *)
Definition type_is (category : string) (j : job) : bool :=
  bool_decide (default (VStr "government") (j !! "category") = VStr category).

Definition valid_category (j : job) : Prop :=
  j !! "category" = Some (VStr "government")
  ∨ j !! "category" = Some (VStr "private").

(** ** telegram_bot.py

    The channel is outside the program: [sent k batch] tells whether
    formatting and sending the [k]-th batch returns, and [poster] whether
    building the poster does. *)

Section Telegram.
Variable MAX_JOBS_PER_POST : Z.
Variable sent : nat → list job → bool.

(** [range(0, stop, step)] for [stop >= 0]. *)
Definition range_to (stop step : Z) : result (list Z) :=
  if step =? 0 then Raise ValueError
  else if 0 <? step then
    Ok (map (fun k => Z.of_nat k * step)
          (seq 0 (Z.to_nat ((stop + step - 1) / step))))
  else Ok [].

(** [l[i:j]] for [0 <= i <= j]. *)
Definition slice (i j : Z) (l : list job) : list job :=
  take (Z.to_nat (j - i)) (drop (Z.to_nat i) l).

(** [for i in range(0, len(jobs), n): batches.append(jobs[i:i + n])]. *)
Definition batches_of (jobs : list job) : result (list (list job)) :=
  indices ← range_to (Z.of_nat (length jobs)) MAX_JOBS_PER_POST;
  Ok (map (fun i => slice i (i + MAX_JOBS_PER_POST) jobs) indices).

(** [TelegramJobPoster.group_jobs_for_posting]. *)
Definition group_jobs_for_posting (jobs : list job) : result (list (list job)) :=
  let gov_jobs := List.filter (field_is "category" "government") jobs in
  let private_jobs := List.filter (field_is "category" "private") jobs in
  gov_batches ← batches_of gov_jobs;
  private_batches ← batches_of private_jobs;
  Ok (gov_batches ++ private_batches).

Definition success_count (job_batches : list (list job)) : nat :=
  sum_list
    (imap (fun k batch => if sent k batch then length batch else 0%nat)
       job_batches).

(** [TelegramJobPoster.post_jobs_to_channel]. *)
Definition post_jobs_to_channel (jobs : list job) : bool :=
  match jobs with
  | [] => true
  | _ =>
      match group_jobs_for_posting jobs with
      | Ok job_batches => (0 <? success_count job_batches)%nat
      | Raise _ => false
      end
  end.

(** [run_telegram_posting]. *)
Definition run_telegram_posting (poster : result unit) (jobs : list job) : bool :=
  returned false (_ ← poster; Ok (post_jobs_to_channel jobs)).

End Telegram.

(** ** blogger_client.py

    [create_blog_post] catches what it raises and answers with a [bool]. *)

Section Blogger.
Variable api_key blog_id : string.
Variable create_blog_post : list job → string → bool.

(** [BloggerJobPoster.post_jobs_to_blogger]. *)
Definition post_jobs_to_blogger (jobs : list job) : bool :=
  if String.eqb api_key "" || String.eqb blog_id "" then true
  else
    match jobs with
    | [] => true
    | _ =>
        let gov_jobs := List.filter (field_is "category" "government") jobs in
        let private_jobs := List.filter (field_is "category" "private") jobs in
        let success_count := 0%nat in
        let success_count :=
          match gov_jobs with
          | [] => success_count
          | _ =>
              if create_blog_post gov_jobs "government"
              then (success_count + length gov_jobs)%nat
              else success_count
          end in
        let success_count :=
          match private_jobs with
          | [] => success_count
          | _ =>
              if create_blog_post private_jobs "private"
              then (success_count + length private_jobs)%nat
              else success_count
          end in
        (0 <? success_count)%nat
    end.

End Blogger.

(** [JobScheduler.post_jobs] with the two channels it calls. *)
Definition post_jobs_on_channels `{Datetime} (MAX_JOBS_PER_POST : Z)
    (poster : result unit) (sent : nat → list job → bool)
    (api_key blog_id : string) (create_blog_post : list job → string → bool)
    (now : Z) (jobs : list job) (st : store) : store :=
  post_jobs now
    (run_telegram_posting MAX_JOBS_PER_POST sent poster jobs)
    (post_jobs_to_blogger api_key blog_id create_blog_post jobs)
    jobs st.

(** What [process_jobs] writes: every field of [record_fields], a category
    of the two, and the fingerprint. *)
Definition complete_record (j : job) : Prop :=
  Forall (fun field => is_Some (j !! field)) record_fields
  ∧ valid_category j
  ∧ is_Some (j !! "job_hash").

Module Channels.

(** A government job, a private job and a job without category, with one
    job to the message; only the first message goes through. *)
Definition jobs : list job :=
  [<["category" := VStr "government"]> Backlog.wednesday;
   <["category" := VStr "private"]> Backlog.tuesday;
   Backlog.monday].

Definition sent (k : nat) (batch : list job) : bool := (k =? 0)%nat.

End Channels.

(** * Properties *)

(** ** The library models on known values *)

Example md5_empty : MD5.hexdigest "" = "d41d8cd98f00b204e9800998ecf8427e".
Proof. vm_compute. reflexivity. Qed.

Example md5_abc : MD5.hexdigest "abc" = "900150983cd24fb0d6963f7d28e17f72".
Proof. vm_compute. reflexivity. Qed.

Example md5_two_blocks :
  MD5.hexdigest "aaaaaaaaaaaaaaaaaaaaaaaaaaaaaaaaaaaaaaaaaaaaaaaaaaaaaaaa"
  = "3b0c8ac703f828b04c6c197006d17218".
Proof. vm_compute. reflexivity. Qed.

Example clean_text_example :
  clean_text (String "009" " Junior   CLERK " +:+ String "010" " x")
  = "Junior CLERK x"
  ∧ clean_text "   " = ""
  ∧ Text.replace_double_space "a     b" = "a   b"
  ∧ Text.squeeze "a     b" = "a b"
  ∧ Text.strip " X  " = "X"
  ∧ Text.split (" a" +:+ String "011" (String "012" "b ")) = ["a"; "b"].
Proof. vm_compute. repeat split. Qed.

Example iso_fmt_example : Iso.fmt 1704882600000000 = "2024-01-10T10:30:00".
Proof. vm_compute. reflexivity. Qed.

Example iso_parse_example :
  Iso.parse "2024-02-29T23:59:59.000250" = Some (Naive 1709251199000250)
  ∧ Iso.parse "2024-01-09T10:30:00+05:30"
    = Some (Aware 1704796200000000 19800000000)
  ∧ Iso.parse "2023-02-29T00:00:00" = None
  ∧ Iso.parse "" = None
  ∧ Iso.parse "last week" = None.
Proof. vm_compute. auto 6. Qed.

(** ** The loop of [clean_text] ends by its condition *)

Lemma replace_double_space_cons c d s :
  Text.replace_double_space (String c (String d s))
  = if Text.is_blank c && Text.is_blank d
    then String " " (Text.replace_double_space s)
    else String c (Text.replace_double_space (String d s)).
Proof. reflexivity. Qed.

Lemma has_double_space_cons c d s :
  Text.has_double_space (String c (String d s))
  = (Text.is_blank c && Text.is_blank d) || Text.has_double_space (String d s).
Proof. reflexivity. Qed.

Lemma replace_double_space_length s :
  (String.length (Text.replace_double_space s) <= String.length s)%nat
  ∧ (Text.has_double_space s = true →
     (String.length (Text.replace_double_space s) < String.length s)%nat).
Proof.
  assert (∀ s,
    ((String.length (Text.replace_double_space s) <= String.length s)%nat
     ∧ (Text.has_double_space s = true →
        (String.length (Text.replace_double_space s) < String.length s)%nat))
    ∧ ∀ c,
      ((String.length (Text.replace_double_space (String c s))
        <= String.length (String c s))%nat
       ∧ (Text.has_double_space (String c s) = true →
          (String.length (Text.replace_double_space (String c s))
           < String.length (String c s))%nat))) as Hboth.
  { clear s. induction s as [|d s [[IHle IHlt] IHc]].
    - repeat split; cbn; try lia; intros E; discriminate E.
    - split; [apply IHc|]. intros c.
      destruct (IHc d) as [IHdle IHdlt].
      rewrite replace_double_space_cons, has_double_space_cons.
      destruct (Text.is_blank c && Text.is_blank d).
      + cbn [orb String.length] in *. split; [lia|intros _; lia].
      + cbn [orb String.length] in *. split; [lia|].
        intros Hd. specialize (IHdlt Hd). lia. }
  apply Hboth.
Qed.

Lemma squeeze_loop_done fuel text :
  (String.length text <= fuel)%nat →
  Text.has_double_space (Text.squeeze_loop fuel text) = false.
Proof.
  revert text. induction fuel as [|fuel IH]; intros text Hlen.
  - destruct text; [reflexivity|cbn in Hlen; lia].
  - cbn [Text.squeeze_loop].
    destruct (Text.has_double_space text) eqn:Hd; [|exact Hd].
    apply IH. destruct (replace_double_space_length text) as [_ Hlt].
    specialize (Hlt Hd). lia.
Qed.

Lemma squeeze_done text : Text.has_double_space (Text.squeeze text) = false.
Proof. apply squeeze_loop_done. reflexivity. Qed.

(** ** Field by field: what [clean_and_validate_job] does *)

Section Cleaning.
Context `{Datetime}.

Lemma clean_field_other (j : job) field k :
  k ≠ field → clean_field j field !! k = j !! k.
Proof.
  intros Hne. unfold clean_field.
  destruct (truthy (j !! field)); [|done].
  by rewrite lookup_insert_ne.
Qed.

Lemma clean_field_same (j : job) field :
  clean_field j field !! field
  = if truthy (j !! field)
    then Some (VStr (clean_text (str_of (j !! field))))
    else j !! field.
Proof.
  unfold clean_field. destruct (truthy (j !! field)); [|done].
  by rewrite lookup_insert_eq.
Qed.

Lemma set_default_other (j : job) d k :
  k ≠ d.1 → set_default j d !! k = j !! k.
Proof.
  intros Hne. unfold set_default.
  destruct (truthy (j !! d.1)); [done|].
  by rewrite lookup_insert_ne.
Qed.

Lemma set_default_same (j : job) k v :
  set_default j (k, v) !! k = if truthy (j !! k) then j !! k else Some v.
Proof.
  unfold set_default. cbn [fst snd]. destruct (truthy (j !! k)); [done|].
  by rewrite lookup_insert_eq.
Qed.

Lemma validate_category_other (j : job) k :
  k ≠ "category" → validate_category j !! k = j !! k.
Proof.
  intros Hne. unfold validate_category. case_bool_decide; [done|].
  by rewrite lookup_insert_ne.
Qed.

Lemma limit_length_other (j : job) l k :
  k ≠ l.1 → limit_length j l !! k = j !! k.
Proof. intros Hne. unfold limit_length. by rewrite lookup_insert_ne. Qed.

Lemma limit_length_same (j : job) k n :
  limit_length j (k, n) !! k = Some (VStr (Text.take n (str_of (j !! k)))).
Proof. unfold limit_length. cbn [fst snd]. by rewrite lookup_insert_eq. Qed.

Lemma clean_and_validate_job_valid now raw :
  is_valid raw = true →
  clean_and_validate_job now raw
  = Some (<["processed_at" := VStr (isoformat now)]> (cleaned now raw)).
Proof.
  unfold is_valid, clean_and_validate_job. intros [Ht Hs]%andb_true_iff.
  case_bool_decide as Hempty.
  - subst raw. by rewrite lookup_empty in Ht.
  - cbn [forallb required_fields]. rewrite Ht, Hs. cbn [andb].
    unfold cleaned. reflexivity.
Qed.

Lemma clean_and_validate_job_invalid now raw :
  is_valid raw = false → clean_and_validate_job now raw = None.
Proof.
  unfold is_valid, clean_and_validate_job. intros Hv.
  case_bool_decide; [done|].
  cbn [forallb required_fields]. rewrite andb_true_r, Hv.
  reflexivity.
Qed.

Lemma clean_and_validate_job_Some now raw j :
  clean_and_validate_job now raw = Some j ↔
  is_valid raw = true
  ∧ j = <["processed_at" := VStr (isoformat now)]> (cleaned now raw).
Proof.
  destruct (is_valid raw) eqn:Hv.
  - rewrite clean_and_validate_job_valid by exact Hv. split.
    + intros Heq. split; congruence.
    + intros [_ ->]. reflexivity.
  - rewrite clean_and_validate_job_invalid by exact Hv. split.
    + intros Heq. discriminate Heq.
    + intros [Hf _]. discriminate Hf.
Qed.

Ltac field_ne := cbn [fst snd]; let E := fresh in intros E; discriminate E.

Ltac other_fields :=
  repeat first
    [ rewrite limit_length_other by field_ne
    | rewrite validate_category_other by field_ne
    | rewrite set_default_other by field_ne
    | rewrite clean_field_other by field_ne ].

Lemma cleaned_source now raw : cleaned now raw !! "source" = raw !! "source".
Proof.
  unfold cleaned, length_limits, defaults, text_fields. cbn [fold_left].
  other_fields. reflexivity.
Qed.

Lemma falsy_str_of v : truthy v = false → str_of v = "".
Proof.
  destruct v as [[|s]|]; cbn; try reflexivity.
  destruct (String.eqb_spec s ""); [congruence|discriminate].
Qed.

Lemma truthy_VStr s : truthy (Some (VStr s)) = negb (String.eqb s "").
Proof. reflexivity. Qed.

Lemma cleaned_title now raw :
  truthy (raw !! "title") = true →
  cleaned now raw !! "title" = Some (VStr (final_title raw)).
Proof.
  intros Ht. unfold cleaned, length_limits, defaults, text_fields.
  cbn [fold_left]. other_fields. rewrite limit_length_same.
  other_fields. rewrite clean_field_same, Ht. reflexivity.
Qed.

Lemma cleaned_location now raw :
  cleaned now raw !! "location" = Some (VStr (final_location raw)).
Proof.
  unfold cleaned, length_limits, defaults, text_fields.
  cbn [fold_left]. other_fields. rewrite limit_length_same.
  other_fields. rewrite set_default_same.
  other_fields. rewrite clean_field_same. other_fields.
  unfold final_location.
  destruct (truthy (raw !! "location")) eqn:Hl.
  - rewrite truthy_VStr.
    destruct (String.eqb (clean_text (str_of (raw !! "location"))) "");
      reflexivity.
  - rewrite Hl, (falsy_str_of _ Hl). reflexivity.
Qed.

Lemma cleaned_category now raw :
  cleaned now raw !! "category"
  = if bool_decide (raw !! "category" = Some (VStr "private"))
    then Some (VStr "private") else Some (VStr "government").
Proof.
  unfold cleaned, length_limits, defaults, text_fields.
  cbn [fold_left]. other_fields.
  match goal with
  | |- validate_category ?X !! _ = _ => set (rec := X)
  end.
  assert (rec !! "category"
          = if truthy (raw !! "category") then raw !! "category"
            else Some (VStr "government")) as HX.
  { subst rec. other_fields. rewrite set_default_same. other_fields.
    reflexivity. }
  clearbody rec.
  unfold validate_category. rewrite HX.
  destruct (truthy (raw !! "category")) eqn:Ht.
  - case_bool_decide as Hc.
    + rewrite HX. destruct Hc as [Hc|Hc]; rewrite Hc;
        case_bool_decide; congruence.
    + rewrite lookup_insert_eq. case_bool_decide as Hp; [|reflexivity].
      exfalso. apply Hc. right. exact Hp.
  - case_bool_decide as Hc.
    + rewrite HX. case_bool_decide as Hp; [|reflexivity].
      rewrite Hp in Ht. discriminate Ht.
    + exfalso. apply Hc. left. reflexivity.
Qed.

Lemma cleaned_scraped_at now raw :
  ∃ s, cleaned now raw !! "scraped_at" = Some (VStr s).
Proof.
  unfold cleaned, length_limits, defaults, text_fields.
  cbn [fold_left]. other_fields. rewrite set_default_same.
  other_fields.
  destruct (raw !! "scraped_at") as [[|s]|] eqn:Hs; cbn; eauto.
  destruct (String.eqb s ""); cbn; eauto.
Qed.

End Cleaning.

(** ** The fingerprint of a raw record *)

Section Fingerprint.
Context `{Datetime}.

Lemma truthy_format_field v : truthy v = true → format_field v = str_of v.
Proof. destruct v as [[|s]|]; cbn; congruence. Qed.

Lemma generate_job_hash_cleaned now raw :
  is_valid raw = true →
  generate_job_hash
    (<["processed_at" := VStr (isoformat now)]> (cleaned now raw))
  = fingerprint_of raw.
Proof.
  intros [Ht Hs]%andb_true_iff.
  unfold generate_job_hash, hash_content, fingerprint_of.
  rewrite !lookup_insert_ne by (let E := fresh in intros E; discriminate E).
  rewrite cleaned_title by exact Ht.
  rewrite cleaned_location, cleaned_source.
  rewrite (truthy_format_field _ Hs). reflexivity.
Qed.

Lemma fingerprint_valid now raw :
  is_valid raw = true → fingerprint now raw = Some (fingerprint_of raw).
Proof.
  intros Hv. unfold fingerprint.
  rewrite clean_and_validate_job_valid by exact Hv.
  cbn [fmap option_fmap option_map].
  rewrite generate_job_hash_cleaned by exact Hv. reflexivity.
Qed.

Lemma fingerprint_invalid now raw :
  is_valid raw = false → fingerprint now raw = None.
Proof.
  intros Hv. unfold fingerprint.
  rewrite clean_and_validate_job_invalid by exact Hv. reflexivity.
Qed.

(** The fingerprint does not depend on the clock. *)
Lemma fingerprint_clock now1 now2 raw :
  fingerprint now1 raw = fingerprint now2 raw.
Proof.
  destruct (is_valid raw) eqn:Hv.
  - rewrite !fingerprint_valid by exact Hv. reflexivity.
  - rewrite !fingerprint_invalid by exact Hv. reflexivity.
Qed.

(** One round of the loop of [process_jobs], by cases. *)
Lemma process_step_cases now posted_hashes acc raw :
  process_step now posted_hashes acc raw
  = if is_valid raw then
      if bool_decide (fingerprint_of raw ∈ acc.1
                      ∨ fingerprint_of raw ∈ posted_hashes)
      then acc
      else ({[fingerprint_of raw]} ∪ acc.1,
            acc.2 ++ [accepted_record now raw (fingerprint_of raw)])
    else acc.
Proof.
  unfold process_step. destruct (is_valid raw) eqn:Hv.
  - rewrite clean_and_validate_job_valid by exact Hv. cbv zeta.
    rewrite generate_job_hash_cleaned by exact Hv.
    unfold accepted_record. reflexivity.
  - rewrite clean_and_validate_job_invalid by exact Hv. reflexivity.
Qed.

End Fingerprint.

(** ** The loop of [process_jobs] against its specification *)

Section Dedup.
Context `{Datetime}.

Lemma accepted_from_cons now known delivered earlier raw rest :
  accepted_from now known delivered earlier (raw :: rest)
  = (if is_valid raw then
       if bool_decide (accepts now known delivered earlier (fingerprint_of raw))
       then [accepted_record now raw (fingerprint_of raw)]
       else []
     else [])
    ++ accepted_from now known delivered (earlier ++ [raw]) rest.
Proof.
  cbn [accepted_from]. destruct (is_valid raw) eqn:Hv.
  - rewrite clean_and_validate_job_valid by exact Hv. cbv zeta.
    rewrite generate_job_hash_cleaned by exact Hv.
    unfold accepted_record. reflexivity.
  - rewrite clean_and_validate_job_invalid by exact Hv. reflexivity.
Qed.

Lemma tracks_accepts now known delivered existing_hashes earlier h :
  tracks now known delivered existing_hashes earlier →
  accepts now known delivered earlier h ↔
  ¬ (h ∈ existing_hashes ∨ h ∈ delivered).
Proof.
  intros Htr. rewrite (Htr h). unfold accepts.
  assert (Forall (fun r => fingerprint now r ≠ Some h) earlier
          ↔ ¬ Exists (fun r => fingerprint now r = Some h) earlier) as ->.
  { rewrite Forall_forall, Exists_exists. split.
    - intros Hall (r & Hr & Hfp). exact (Hall r Hr Hfp).
    - intros Hno r Hr Hfp. apply Hno. exists r. split; assumption. }
  tauto.
Qed.

Lemma tracks_skip now known delivered existing_hashes earlier raw :
  tracks now known delivered existing_hashes earlier →
  (∀ h, fingerprint now raw = Some h →
        h ∈ existing_hashes ∨ h ∈ delivered) →
  tracks now known delivered existing_hashes (earlier ++ [raw]).
Proof.
  intros Htr Hin h. rewrite Exists_app, Exists_cons, Exists_nil.
  specialize (Htr h). split.
  - tauto.
  - intros [?|[?|[?|[Hfp|[]]]]]; try tauto. apply Hin, Hfp.
Qed.

Lemma tracks_add now known delivered existing_hashes earlier raw h :
  tracks now known delivered existing_hashes earlier →
  fingerprint now raw = Some h →
  tracks now known delivered ({[h]} ∪ existing_hashes) (earlier ++ [raw]).
Proof.
  intros Htr Hfp h'. rewrite Exists_app, Exists_cons, Exists_nil.
  rewrite elem_of_union, elem_of_singleton. specialize (Htr h'). split.
  - intros [[->|?]|?]; [right; right; right; left; exact Hfp|tauto|tauto].
  - intros [?|[?|[?|[Hfp'|[]]]]]; try tauto.
    left. left. congruence.
Qed.

Lemma process_loop_from now known delivered earlier rest existing_hashes out :
  tracks now known delivered existing_hashes earlier →
  (fold_left (process_step now delivered) rest (existing_hashes, out)).2
  = out ++ accepted_from now known delivered earlier rest.
Proof.
  revert earlier existing_hashes out.
  induction rest as [|raw rest IH]; intros earlier existing_hashes out Htr.
  - cbn. by rewrite app_nil_r.
  - cbn [fold_left]. rewrite process_step_cases, accepted_from_cons.
    cbn [fst snd].
    destruct (is_valid raw) eqn:Hv.
    + pose proof (fingerprint_valid now raw Hv) as Hfp.
      rewrite (bool_decide_ext _ _
                 (tracks_accepts _ _ _ _ _ (fingerprint_of raw) Htr)).
      rewrite bool_decide_not.
      case_bool_decide as Hseen; cbn [negb].
      * rewrite (IH (earlier ++ [raw])); [reflexivity|].
        apply tracks_skip; [exact Htr|].
        intros h Hh. rewrite Hfp in Hh. by injection Hh as <-.
      * rewrite (IH (earlier ++ [raw])).
        -- by rewrite <- app_assoc.
        -- by apply tracks_add.
    + rewrite (IH (earlier ++ [raw])); [reflexivity|].
      apply tracks_skip; [exact Htr|].
      intros h Hh. rewrite fingerprint_invalid in Hh by exact Hv.
      discriminate Hh.
Qed.

Lemma process_loop_spec now known delivered scraped_jobs :
  process_loop now known delivered scraped_jobs
  = accepted_from now known delivered [] scraped_jobs.
Proof.
  unfold process_loop.
  rewrite (process_loop_from now known delivered []); [reflexivity|].
  intros h. rewrite Exists_nil. tauto.
Qed.

Lemma process_jobs_new_jobs now scraped_jobs st :
  (process_jobs now scraped_jobs st).1
  = process_loop now (hash_set (load_existing_jobs st))
      (hash_set (load_posted_jobs st)) scraped_jobs.
Proof.
  unfold process_jobs. destruct scraped_jobs as [|raw rest]; [reflexivity|].
  cbv zeta.
  destruct (process_loop _ _ _ (raw :: rest)); reflexivity.
Qed.

End Dedup.

Section DedupScenario.
Context `{Datetime}.

Lemma clerk_fingerprints :
  is_valid Sample.clerk = true
  ∧ is_valid Sample.clerk_lowercase = true
  ∧ fingerprint_of Sample.clerk = "873e7dac0fa1b61bdbb0c90a6bb13a9c"
  ∧ fingerprint_of Sample.clerk_lowercase = "873e7dac0fa1b61bdbb0c90a6bb13a9c".
Proof. vm_compute. auto. Qed.

Lemma clerk_scenario now :
  (process_jobs now [Sample.clerk; Sample.clerk_lowercase] fresh_store).1
  = [accepted_record now Sample.clerk "873e7dac0fa1b61bdbb0c90a6bb13a9c"].
Proof.
  destruct clerk_fingerprints as (Hv1 & Hv2 & Hf1 & Hf2).
  rewrite process_jobs_new_jobs. unfold process_loop. cbn [fold_left].
  rewrite (process_step_cases _ _ _ Sample.clerk), Hv1, Hf1.
  cbn [fst snd].
  replace (bool_decide _) with false by (vm_compute; reflexivity).
  rewrite (process_step_cases _ _ _ Sample.clerk_lowercase), Hv2, Hf2.
  cbn [fst snd].
  replace (bool_decide _) with true by (vm_compute; reflexivity).
  reflexivity.
Qed.

End DedupScenario.

(** C4. For every raw batch, whatever the known and delivered fingerprint
    sets, the loop of [process_jobs] returns exactly the records chosen by
    [accepted_from]: reading the batch in order, a record that passes
    validation is accepted iff its fingerprint is neither among the known
    fingerprints nor among the delivered ones and no earlier record of the
    batch produced it; so does [process_jobs] on the sets of the store.  On
    the batch of Clerk/Delhi/X and clerk/delhi/X against an empty store,
    exactly one record, the first, is accepted. *)
Theorem process_jobs_first_occurrence_wins `{Datetime} now scraped_jobs st :
  (∀ known delivered,
     process_loop now known delivered scraped_jobs
     = accepted_from now known delivered [] scraped_jobs)
  ∧ (process_jobs now scraped_jobs st).1
    = accepted_from now (hash_set (load_existing_jobs st))
        (hash_set (load_posted_jobs st)) [] scraped_jobs
  ∧ (process_jobs now [Sample.clerk; Sample.clerk_lowercase] fresh_store).1
    = [accepted_record now Sample.clerk "873e7dac0fa1b61bdbb0c90a6bb13a9c"].
Proof.
  split; [|split].
  - intros known delivered. apply process_loop_spec.
  - rewrite process_jobs_new_jobs. apply process_loop_spec.
  - apply clerk_scenario.
Qed.

(** ** Case folding commutes with the operations of the fingerprint *)

Lemma lower_app s1 s2 :
  Text.lower (s1 +:+ s2) = Text.lower s1 +:+ Text.lower s2.
Proof.
  induction s1 as [|c s1 IH]; [reflexivity|].
  change (String (Text.lower_char c) (Text.lower (s1 +:+ s2))
          = String (Text.lower_char c) (Text.lower s1 +:+ Text.lower s2)).
  by rewrite IH.
Qed.

Lemma lower_take n s : Text.lower (Text.take n s) = Text.take n (Text.lower s).
Proof.
  unfold Text.take. revert n.
  induction s as [|c s IH]; intros [|n]; try reflexivity.
  change (String (Text.lower_char c) (Text.lower (String.substring 0 n s))
          = String (Text.lower_char c) (String.substring 0 n (Text.lower s))).
  by rewrite IH.
Qed.

Lemma lower_empty s : String.eqb (Text.lower s) "" = String.eqb s "".
Proof. destruct s; reflexivity. Qed.

Section FingerprintInputs.
Context `{Datetime}.

Lemma lower_final_title raw :
  Text.lower (final_title raw) = Text.take 200 (normalize (raw !! "title")).
Proof. unfold final_title, normalize. apply lower_take. Qed.

Lemma lower_final_location raw :
  Text.lower (final_location raw)
  = Text.take 100
      (if String.eqb (normalize (raw !! "location")) "" then "india"
       else normalize (raw !! "location")).
Proof.
  unfold final_location, normalize. rewrite lower_take, lower_empty.
  destruct (String.eqb _ ""); reflexivity.
Qed.

Lemma fingerprint_of_inputs r1 r2 :
  normalize (r1 !! "title") = normalize (r2 !! "title") →
  normalize (r1 !! "location") = normalize (r2 !! "location") →
  Text.lower (str_of (r1 !! "source")) = Text.lower (str_of (r2 !! "source")) →
  fingerprint_of r1 = fingerprint_of r2.
Proof.
  intros Ht Hl Hs. unfold fingerprint_of.
  rewrite !lower_app, !lower_final_title, !lower_final_location.
  by rewrite Ht, Hl, Hs.
Qed.

End FingerprintInputs.

(** C3, as stated, fails: the two records of [SourceSpacing] have the same
    title, location and source after whitespace collapsing and case folding,
    and [generate_job_hash] separates them, on the raw records and on the
    records that [clean_and_validate_job] makes of them.  On raw records it
    also separates the two of [CaseAndSpacing], which differ in case and in
    the spacing of title and location only. *)
Lemma fingerprint_keeps_source_spacing :
  normalize (SourceSpacing.two_spaces !! "title")
  = normalize (SourceSpacing.one_space !! "title")
  ∧ normalize (SourceSpacing.two_spaces !! "location")
    = normalize (SourceSpacing.one_space !! "location")
  ∧ normalize (SourceSpacing.two_spaces !! "source")
    = normalize (SourceSpacing.one_space !! "source")
  ∧ generate_job_hash SourceSpacing.two_spaces
    ≠ generate_job_hash SourceSpacing.one_space
  ∧ fingerprint (H:=Iso.datetime) Sample.t0 SourceSpacing.two_spaces
    ≠ fingerprint (H:=Iso.datetime) Sample.t0 SourceSpacing.one_space
  ∧ generate_job_hash CaseAndSpacing.shouting
    ≠ generate_job_hash CaseAndSpacing.plain.
Proof.
  vm_compute. repeat split; try reflexivity; intros E; discriminate E.
Qed.

(** C3, amended.  Two raw records that pass validation and whose titles and
    locations are equal after whitespace collapsing and case folding, and
    whose sources are equal after case folding, get the same fingerprint
    from the pipeline, whatever their other fields and whenever they are
    processed. *)
Theorem fingerprint_determined_by_inputs `{Datetime} now1 now2 r1 r2 :
  is_valid r1 = true → is_valid r2 = true →
  normalize (r1 !! "title") = normalize (r2 !! "title") →
  normalize (r1 !! "location") = normalize (r2 !! "location") →
  Text.lower (str_of (r1 !! "source")) = Text.lower (str_of (r2 !! "source")) →
  fingerprint now1 r1 = fingerprint now2 r2
  ∧ is_Some (fingerprint now1 r1).
Proof.
  intros Hv1 Hv2 Ht Hl Hs.
  rewrite (fingerprint_valid now1 r1 Hv1), (fingerprint_valid now2 r2 Hv2).
  split; [|eexists; reflexivity].
  f_equal. by apply fingerprint_of_inputs.
Qed.

Lemma fingerprint_determined_by_inputs_witness :
  fingerprint (H:=Iso.datetime) Sample.t0 CaseAndSpacing.shouting
  = fingerprint (H:=Iso.datetime) Sample.t1 CaseAndSpacing.plain
  ∧ is_Some (fingerprint (H:=Iso.datetime) Sample.t0 CaseAndSpacing.shouting).
Proof.
  apply (fingerprint_determined_by_inputs (H:=Iso.datetime));
    vm_compute; reflexivity.
Defined.

(** C8. A raw record that passes validation and whose [category] is absent,
    or is neither [government] nor [private], comes out of
    [clean_and_validate_job] with [category] equal to [government], and
    keeps it when [process_jobs] adds the fingerprint. *)
Theorem category_defaults_to_government `{Datetime} now raw record :
  clean_and_validate_job now raw = Some record →
  raw !! "category" = None
  ∨ (raw !! "category" ≠ Some (VStr "government")
     ∧ raw !! "category" ≠ Some (VStr "private")) →
  record !! "category" = Some (VStr "government")
  ∧ ∀ job_hash,
      (<["job_hash" := VStr job_hash]> record) !! "category"
      = Some (VStr "government").
Proof.
  intros [Hv ->]%clean_and_validate_job_Some Hcat.
  assert (raw !! "category" ≠ Some (VStr "private")) as Hp.
  { destruct Hcat as [Hnone|[_ Hp]]; [|exact Hp].
    rewrite Hnone. intros E. discriminate E. }
  assert (∀ k, k ≠ "category" → ∀ v : pyval,
            (<[k := v]> (cleaned now raw)) !! "category"
            = Some (VStr "government")) as Hgov.
  { intros k Hk v. rewrite lookup_insert_ne by exact Hk.
    rewrite cleaned_category. case_bool_decide; [contradiction|reflexivity]. }
  split.
  - apply Hgov. intros E. discriminate E.
  - intros job_hash. rewrite lookup_insert_ne by (intros E; discriminate E).
    apply Hgov. intros E. discriminate E.
Qed.

Lemma category_defaults_to_government_witness :
  let record :=
    <["processed_at" := VStr (isoformat (Datetime:=Iso.datetime) Sample.t0)]>
      (cleaned (H:=Iso.datetime) Sample.t0 NoCategory.posting) in
  record !! "category" = Some (VStr "government")
  ∧ ∀ job_hash,
      (<["job_hash" := VStr job_hash]> record) !! "category"
      = Some (VStr "government").
Proof.
  intros record.
  refine (category_defaults_to_government (H:=Iso.datetime) Sample.t0
            NoCategory.posting record _ _).
  - vm_compute. reflexivity.
  - left. vm_compute. reflexivity.
Defined.

Example category_typo :
  (process_jobs (H:=Iso.datetime) Sample.t0 [NoCategory.typo] fresh_store).1
  = [accepted_record (H:=Iso.datetime) Sample.t0 NoCategory.typo
       "0b565b66b657cc3549536ee74392f515"].
Proof. vm_compute. reflexivity. Qed.

(** ** The store *)

(** On the files the pipeline is modelled on, the loaders of [OnDisk]
    return what [load_existing_jobs] and [load_posted_jobs] return. *)
Lemma load_content_of (f : file) :
  OnDisk.load_content (content_of f)
  = Ok (OnDisk.JArray (map json_of_job (returned [] (load_guarded f)))).
Proof. by destruct f as [|[]|jobs]. Qed.



(** C6, as stated, fails: on a fresh store and the one-record batch Clerk,
    [process_jobs] itself writes the known-set. *)
Lemma process_jobs_writes_known_set :
  (process_jobs (H:=Iso.datetime) Sample.t0 [Sample.clerk] fresh_store).2
  ≠ fresh_store
  ∧ jobs_file
      (process_jobs (H:=Iso.datetime) Sample.t0 [Sample.clerk] fresh_store).2
    = Document
        (process_jobs (H:=Iso.datetime) Sample.t0 [Sample.clerk] fresh_store).1.
Proof.
  vm_compute. split; [intros E; discriminate E|reflexivity].
Qed.

(** C6, amended.  [process_jobs] never touches the delivered-set; it leaves
    the known-set as it is when it accepts nothing, and otherwise itself
    saves the known records followed by the accepted ones. *)
Theorem process_jobs_store_effect `{Datetime} now scraped_jobs st :
  posted_jobs_file (process_jobs now scraped_jobs st).2 = posted_jobs_file st
  ∧ jobs_file (process_jobs now scraped_jobs st).2
    = match (process_jobs now scraped_jobs st).1 with
      | [] => jobs_file st
      | new_jobs => Document (load_existing_jobs st ++ new_jobs)
      end.
Proof.
  unfold process_jobs. destruct scraped_jobs as [|raw rest].
  - split; reflexivity.
  - cbv zeta. destruct (process_loop _ _ _ (raw :: rest)); split; reflexivity.
Qed.

(** ** Running [process_jobs] again *)

Section SecondRun.
Context `{Datetime}.

Lemma generate_job_hash_accepted now raw h :
  is_valid raw = true →
  generate_job_hash (accepted_record now raw h) = fingerprint_of raw.
Proof.
  intros Hv. rewrite <- (generate_job_hash_cleaned now raw Hv).
  unfold accepted_record, generate_job_hash, hash_content.
  by rewrite !(lookup_insert_ne _ "job_hash")
    by (let E := fresh in intros E; discriminate E).
Qed.

Lemma hash_set_app l1 l2 : hash_set (l1 ++ l2) = hash_set l1 ∪ hash_set l2.
Proof. unfold hash_set. by rewrite map_app, list_to_set_app_L. Qed.

(** What the loop leaves in [existing_hashes]: the fingerprints it started
    with and those of the records it accepted; every valid record of the
    batch is then covered. *)
Lemma process_loop_state now posted_hashes rest existing_hashes out :
  ∃ new_jobs,
    fold_left (process_step now posted_hashes) rest (existing_hashes, out)
    = (hash_set new_jobs ∪ existing_hashes, out ++ new_jobs)
    ∧ Forall (fun raw => is_valid raw = true →
                fingerprint_of raw ∈ hash_set new_jobs ∪ existing_hashes
                ∨ fingerprint_of raw ∈ posted_hashes) rest.
Proof.
  revert existing_hashes out.
  induction rest as [|raw rest IH]; intros existing_hashes out.
  - exists []. cbn [fold_left]. split; [|constructor].
    f_equal; [|by rewrite app_nil_r].
    unfold hash_set. cbn [map list_to_set]. by rewrite (left_id_L ∅ (∪)).
  - cbn [fold_left]. rewrite process_step_cases. cbn [fst snd].
    destruct (is_valid raw) eqn:Hv; [case_bool_decide as Hseen|].
    + destruct (IH existing_hashes out) as (new_jobs & -> & Hall).
      exists new_jobs. split; [reflexivity|]. constructor; [|exact Hall].
      intros _. rewrite elem_of_union. tauto.
    + destruct (IH ({[fingerprint_of raw]} ∪ existing_hashes)
                  (out ++ [accepted_record now raw (fingerprint_of raw)]))
        as (new_jobs & -> & Hall).
      exists (accepted_record now raw (fingerprint_of raw) :: new_jobs).
      assert (hash_set (accepted_record now raw (fingerprint_of raw) :: new_jobs)
              = {[fingerprint_of raw]} ∪ hash_set new_jobs) as Hset.
      { unfold hash_set. cbn [map list_to_set].
        by rewrite generate_job_hash_accepted by exact Hv. }
      rewrite Hset.
      assert (hash_set new_jobs ∪ ({[fingerprint_of raw]} ∪ existing_hashes)
              = {[fingerprint_of raw]} ∪ hash_set new_jobs ∪ existing_hashes)
        as Hassoc.
      { apply set_eq. intros h. rewrite !elem_of_union. tauto. }
      rewrite Hassoc in Hall |- *. split.
      * f_equal. by rewrite <- app_assoc.
      * constructor; [|exact Hall].
        intros _. left. rewrite !elem_of_union, elem_of_singleton. tauto.
    + destruct (IH existing_hashes out) as (new_jobs & -> & Hall).
      exists new_jobs. split; [reflexivity|]. constructor; [|exact Hall].
      intros Hv'. congruence.
Qed.

(** A batch whose valid records are all known or delivered adds nothing. *)
Lemma process_loop_all_seen now posted_hashes rest existing_hashes out :
  Forall (fun raw => is_valid raw = true →
            fingerprint_of raw ∈ existing_hashes
            ∨ fingerprint_of raw ∈ posted_hashes) rest →
  fold_left (process_step now posted_hashes) rest (existing_hashes, out)
  = (existing_hashes, out).
Proof.
  induction 1 as [|raw rest Hraw _ IH]; [reflexivity|].
  cbn [fold_left]. rewrite process_step_cases. cbn [fst snd].
  destruct (is_valid raw); [|exact IH].
  rewrite bool_decide_eq_true_2 by (by apply Hraw). exact IH.
Qed.

Lemma load_existing_jobs_after now scraped_jobs st :
  hash_set (load_existing_jobs (process_jobs now scraped_jobs st).2)
  = hash_set (process_jobs now scraped_jobs st).1
    ∪ hash_set (load_existing_jobs st)
  ∧ load_posted_jobs (process_jobs now scraped_jobs st).2 = load_posted_jobs st.
Proof.
  unfold process_jobs. destruct scraped_jobs as [|raw rest].
  - cbn [fst snd]. split; [|reflexivity].
    unfold hash_set at 2. cbn [map list_to_set]. by rewrite (left_id_L ∅ (∪)).
  - cbv zeta. destruct (process_loop _ _ _ (raw :: rest)) as [|j new_jobs].
    + cbn [fst snd]. split; [|reflexivity].
      unfold hash_set at 2. cbn [map list_to_set].
      by rewrite (left_id_L ∅ (∪)).
    + cbn [fst snd]. split; [|reflexivity].
      change (load_existing_jobs (save_jobs ?l st)) with l.
      rewrite hash_set_app. apply set_eq. intros h. rewrite !elem_of_union.
      tauto.
Qed.

Lemma second_run_empty now1 now2 scraped_jobs st :
  (process_jobs now2 scraped_jobs (process_jobs now1 scraped_jobs st).2).1 = [].
Proof.
  rewrite (process_jobs_new_jobs now2).
  destruct (load_existing_jobs_after now1 scraped_jobs st) as [-> ->].
  rewrite (process_jobs_new_jobs now1). unfold process_loop.
  destruct (process_loop_state now1 (hash_set (load_posted_jobs st))
              scraped_jobs (hash_set (load_existing_jobs st)) [])
    as (new_jobs & -> & Hall).
  cbn [fst snd app].
  by rewrite process_loop_all_seen by exact Hall.
Qed.

End SecondRun.

(** ** The clock only shows in [scraped_at] and [processed_at] *)

Section Clock.
Context `{Datetime}.

Lemma validate_category_agree (j1 j2 : job) :
  (∀ k, k ≠ "scraped_at" → j1 !! k = j2 !! k) →
  ∀ k, k ≠ "scraped_at" → validate_category j1 !! k = validate_category j2 !! k.
Proof.
  intros Hagree k Hk. unfold validate_category.
  rewrite (Hagree "category") by (intros E; discriminate E).
  case_bool_decide; [by apply Hagree|].
  destruct (decide (k = "category")) as [->|Hne].
  - by rewrite !lookup_insert_eq.
  - rewrite !lookup_insert_ne by done. by apply Hagree.
Qed.

Lemma limit_length_agree (j1 j2 : job) l :
  l.1 ≠ "scraped_at" →
  (∀ k, k ≠ "scraped_at" → j1 !! k = j2 !! k) →
  ∀ k, k ≠ "scraped_at" → limit_length j1 l !! k = limit_length j2 l !! k.
Proof.
  intros Hl Hagree k Hk. unfold limit_length.
  rewrite (Hagree l.1) by exact Hl.
  destruct (decide (k = l.1)) as [->|Hne].
  - by rewrite !lookup_insert_eq.
  - rewrite !lookup_insert_ne by done. by apply Hagree.
Qed.

Lemma limit_lengths_agree limits (j1 j2 : job) :
  Forall (fun l : string * nat => l.1 ≠ "scraped_at") limits →
  (∀ k, k ≠ "scraped_at" → j1 !! k = j2 !! k) →
  ∀ k, k ≠ "scraped_at" →
       fold_left limit_length limits j1 !! k
       = fold_left limit_length limits j2 !! k.
Proof.
  intros Hlimits. revert j1 j2.
  induction Hlimits as [|l limits Hl _ IH]; intros j1 j2 Hagree; [exact Hagree|].
  cbn [fold_left]. apply IH. by apply limit_length_agree.
Qed.

Lemma cleaned_clock now1 now2 raw k :
  k ≠ "scraped_at" → cleaned now1 raw !! k = cleaned now2 raw !! k.
Proof.
  unfold cleaned, defaults. cbn [fold_left]. revert k.
  apply limit_lengths_agree.
  { unfold length_limits.
    repeat constructor; cbn [fst]; intros E; discriminate E. }
  apply validate_category_agree. intros k Hk.
  by rewrite !(set_default_other _ ("scraped_at", _) k Hk).
Qed.

Lemma accepted_record_clock now1 now2 raw h :
  without_clock (accepted_record now1 raw h)
  = without_clock (accepted_record now2 raw h).
Proof.
  apply map_eq. intros k. unfold without_clock.
  destruct (decide (k = "processed_at")) as [->|Hp].
  { rewrite !lookup_delete_eq. exact eq_refl. }
  rewrite !(lookup_delete_ne _ "processed_at") by congruence.
  destruct (decide (k = "scraped_at")) as [->|Hs].
  { rewrite !lookup_delete_eq. exact eq_refl. }
  rewrite !(lookup_delete_ne _ "scraped_at") by congruence.
  unfold accepted_record.
  destruct (decide (k = "job_hash")) as [->|Hj].
  { rewrite !lookup_insert_eq. exact eq_refl. }
  rewrite !(lookup_insert_ne _ "job_hash") by congruence.
  rewrite !(lookup_insert_ne _ "processed_at") by congruence.
  apply cleaned_clock. exact Hs.
Qed.

Lemma process_loop_clock now1 now2 posted_hashes rest existing_hashes out1 out2 :
  map without_clock out1 = map without_clock out2 →
  (fold_left (process_step now1 posted_hashes) rest (existing_hashes, out1)).1
  = (fold_left (process_step now2 posted_hashes) rest (existing_hashes, out2)).1
  ∧ map without_clock
      (fold_left (process_step now1 posted_hashes) rest (existing_hashes, out1)).2
    = map without_clock
        (fold_left (process_step now2 posted_hashes) rest (existing_hashes, out2)).2.
Proof.
  revert existing_hashes out1 out2.
  induction rest as [|raw rest IH]; intros existing_hashes out1 out2 Hout.
  - split; [reflexivity|exact Hout].
  - cbn [fold_left]. rewrite !process_step_cases. cbn [fst snd].
    destruct (is_valid raw); [case_bool_decide|]; try by apply IH.
    apply IH. rewrite !map_app. cbn [map].
    by rewrite Hout, (accepted_record_clock now1 now2).
Qed.

Lemma fingerprints_without_clock jobs :
  fingerprints (map without_clock jobs) = fingerprints jobs.
Proof.
  unfold fingerprints. rewrite map_map. apply map_ext. intros j.
  unfold without_clock.
  by rewrite !lookup_delete_ne by (let E := fresh in intros E; discriminate E).
Qed.

End Clock.

(** Two runs on equal copies of a raw batch.  Once the first run has
    returned, with its accepted records saved in the known-set, a second run
    on a copy of the raw batch accepts nothing.  A second run that finds the
    store as the first run found it accepts the same records as the first:
    the same fingerprints in the same order, and the same fields apart from
    the two that hold the time of processing. *)
Lemma process_jobs_twice `{Datetime} now1 now2 scraped_jobs st :
  (process_jobs now2 scraped_jobs (process_jobs now1 scraped_jobs st).2).1 = []
  ∧ map without_clock (process_jobs now2 scraped_jobs st).1
    = map without_clock (process_jobs now1 scraped_jobs st).1
  ∧ fingerprints (process_jobs now2 scraped_jobs st).1
    = fingerprints (process_jobs now1 scraped_jobs st).1.
Proof.
  assert (map without_clock (process_jobs now2 scraped_jobs st).1
          = map without_clock (process_jobs now1 scraped_jobs st).1) as Hsame.
  { rewrite !process_jobs_new_jobs. unfold process_loop.
    by apply process_loop_clock. }
  split; [apply second_run_empty|]. split; [exact Hsame|].
  rewrite <- (fingerprints_without_clock (process_jobs now2 scraped_jobs st).1).
  rewrite Hsame. apply fingerprints_without_clock.
Qed.

(** [process_jobs] is [process_jobs_in_place] without the batch. *)
Lemma process_step_in_place_projects `{Datetime} now posted_hashes rest
    existing_hashes new_jobs batch :
  (fold_left (process_step_in_place now posted_hashes) rest
     (existing_hashes, new_jobs, batch)).1
  = fold_left (process_step now posted_hashes) rest (existing_hashes, new_jobs).
Proof.
  revert existing_hashes new_jobs batch.
  induction rest as [|raw rest IH]; intros existing_hashes new_jobs batch;
    [reflexivity|].
  cbn [fold_left]. unfold process_step_in_place at 2, process_step at 2.
  destruct (clean_and_validate_job now raw) as [processed_job|]; [|apply IH].
  cbv zeta. cbn [fst snd]. case_bool_decide; apply IH.
Qed.

Lemma process_jobs_in_place_projects `{Datetime} now scraped_jobs st :
  ((process_jobs_in_place now scraped_jobs st).1.1,
   (process_jobs_in_place now scraped_jobs st).2)
  = process_jobs now scraped_jobs st.
Proof.
  unfold process_jobs_in_place, process_jobs, process_loop.
  destruct scraped_jobs as [|raw rest]; [reflexivity|]. cbv zeta.
  pose proof (process_step_in_place_projects now
                (hash_set (load_posted_jobs st)) (raw :: rest)
                (hash_set (load_existing_jobs st)) [] []) as Hfold.
  destruct (fold_left (process_step_in_place _ _) _ _) as [[hashes new_jobs] batch].
  cbn [fst] in Hfold. rewrite <- Hfold. cbn [snd].
  by destruct new_jobs.
Qed.


(** ** The order of the sort *)


Lemma string_compare_refl s : String.compare s s = Eq.
Proof.
  induction s as [|c s IH]; [reflexivity|]. cbn [String.compare].
  unfold Ascii.compare. by rewrite N.compare_refl.
Qed.




Section Sorting.
Context `{Datetime}.





Lemma insert_newest_first_perm x l :
  Permutation (insert_newest_first x l) (x :: l).
Proof.
  induction l as [|y l IH]; [reflexivity|]. cbn [insert_newest_first].
  destruct (String.ltb (key_str x) (key_str y)); [|reflexivity].
  rewrite IH. apply perm_swap.
Qed.


Lemma sorted_newest_first_perm l : Permutation (sorted_newest_first l) l.
Proof.
  induction l as [|x l IH]; [reflexivity|]. cbn [sorted_newest_first foldr].
  rewrite insert_newest_first_perm. by constructor.
Qed.




End Sorting.

(** ** Selecting the backlog *)

Lemma elem_of_unposted (st : store) (j : job) :
  j ∈ unposted st ↔
  j ∈ load_existing_jobs st
  ∧ is_unposted (posted_hash_set (load_posted_jobs st)) j = true.
Proof. unfold unposted. by rewrite !list_elem_of_In, filter_In. Qed.

Lemma truthy_str_of v : truthy v = true → v = Some (VStr (str_of v)).
Proof. destruct v as [[|s]|]; cbn; congruence. Qed.

Lemma elem_of_posted_hash_set (posted_jobs : list job) h :
  h ∈ posted_hash_set posted_jobs ↔
  ∃ p, p ∈ posted_jobs ∧ truthy (p !! "job_hash") = true
       ∧ p !! "job_hash" = Some (VStr h).
Proof.
  unfold posted_hash_set.
  rewrite elem_of_list_to_set, list_elem_of_In, in_map_iff. split.
  - intros (p & <- & Hp).
    apply list_elem_of_In, list_elem_of_filter in Hp as [Ht Hp].
    exists p. split; [exact Hp|]. split; [exact Ht|].
    by apply truthy_str_of.
  - intros (p & Hp & Ht & Hh). exists p. split; [by rewrite Hh|].
    by apply list_elem_of_In, list_elem_of_filter.
Qed.





Example backlog_order :
  get_jobs_for_posting (Some 2) Backlog.st
  = Ok [Backlog.wednesday; Backlog.tuesday].
Proof. vm_compute. reflexivity. Qed.

(** ** Retention *)

Lemma filter_raising_Ok {A} (p : A → result bool) (l kept : list A) :
  filter_raising p l = Ok kept →
  kept = List.filter (fun x => returned false (p x)) l
  ∧ Forall (fun x => ∃ b, p x = Ok b) l.
Proof.
  revert kept. induction l as [|x l IH]; intros kept; cbn [filter_raising].
  - intros [= <-]. by split.
  - destruct (p x) as [b|e] eqn:Hx; cbn; [|intros E; discriminate E].
    destruct (filter_raising p l) as [rest|e]; cbn; [|intros E; discriminate E].
    intros [= <-]. destruct (IH rest eq_refl) as [-> Hall].
    split; [|constructor; eauto]. rewrite Hx. by destruct b.
Qed.

Lemma filter_raising_total {A} (p : A → result bool) (l : list A) :
  Forall (fun x => ∃ b, p x = Ok b) l →
  filter_raising p l = Ok (List.filter (fun x => returned false (p x)) l).
Proof.
  induction 1 as [|x l [b Hb] _ IH]; [reflexivity|].
  cbn [filter_raising List.filter]. rewrite Hb, IH. cbn. by destruct b.
Qed.

Lemma filter_raising_raises {A} (p : A → result bool) (l : list A) x e :
  x ∈ l → p x = Raise e → ∃ e', filter_raising p l = Raise e'.
Proof.
  intros Hx Hp. induction l as [|y l IH]; [by apply elem_of_nil in Hx|].
  cbn [filter_raising]. apply elem_of_cons in Hx as [<-|Hx].
  - rewrite Hp. cbn. eauto.
  - destruct (p y) as [b|e1]; cbn; [|eauto].
    destruct (IH Hx) as [e' ->]. cbn. eauto.
Qed.

Section Retention.
Context `{Datetime}.

Lemma filter_same_length {A} (f : A → bool) (l : list A) :
  (length (List.filter f l) <? length l)%nat = false → List.filter f l = l.
Proof.
  rewrite Nat.ltb_ge. induction l as [|x l IH]; [reflexivity|].
  cbn [List.filter]. pose proof (filter_length_le f l) as Hle.
  destruct (f x); cbn [length]; intros Hlen.
  - f_equal. apply IH. lia.
  - lia.
Qed.

Lemma keep_on_cleanup_cases cutoff_date (j : job) :
  keep_on_cleanup cutoff_date j
  = if truthy (j !! "scraped_at") then
      match fromisoformat (str_of (j !! "scraped_at")) with
      | Some (Naive scraped_date) => Ok (cutoff_date <? scraped_date)
      | Some (Aware _ _) => Raise TypeError
      | None => Ok true
      end
    else Ok false.
Proof.
  unfold keep_on_cleanup, fromisoformat_val. destruct (truthy _); [|reflexivity].
  by destruct (fromisoformat _) as [[t|t o]|].
Qed.

Lemma after_cleanup_known now days st :
  load_existing_jobs (after_cleanup now days st)
  = match filter_raising (keep_on_cleanup (now - timedelta_days days))
            (load_existing_jobs st) with
    | Ok recent_jobs => recent_jobs
    | Raise _ => load_existing_jobs st
    end.
Proof.
  unfold after_cleanup, cleanup_old_data. cbv zeta.
  destruct (filter_raising _ _) as [recent_jobs|e] eqn:Hrecent; [|reflexivity].
  cbn [mbind result_bind returned].
  destruct (_ <? _)%nat eqn:Hlen; [reflexivity|].
  apply filter_raising_Ok in Hrecent as [-> _].
  by rewrite filter_same_length.
Qed.

Lemma after_cleanup_posted now days st :
  posted_jobs_file (after_cleanup now days st) = posted_jobs_file st.
Proof.
  unfold after_cleanup, cleanup_old_data. cbv zeta.
  destruct (filter_raising _ _) as [recent_jobs|e]; [|reflexivity].
  cbn [mbind result_bind returned]. by destruct (_ <? _)%nat.
Qed.

(** Whatever happens, the known jobs after a cleanup are known jobs of
    before, in their order. *)
Lemma after_cleanup_filter now days st :
  ∃ q, load_existing_jobs (after_cleanup now days st)
       = List.filter q (load_existing_jobs st).
Proof.
  rewrite after_cleanup_known.
  destruct (filter_raising _ _) as [recent_jobs|e] eqn:Hrecent.
  - apply filter_raising_Ok in Hrecent as [-> _]. by eexists.
  - exists (fun _ => true). symmetry. apply forallb_filter_id.
    by apply forallb_forall.
Qed.

Lemma elem_of_cleanup now days st st' j :
  cleanup_old_data now days st = Ok st' →
  j ∈ load_existing_jobs st' ↔
  j ∈ load_existing_jobs st
  ∧ keep_on_cleanup (now - timedelta_days days) j = Ok true.
Proof.
  intros Hclean.
  assert (after_cleanup now days st = st') as <-
    by (unfold after_cleanup; by rewrite Hclean).
  rewrite after_cleanup_known. revert Hclean. unfold cleanup_old_data. cbv zeta.
  destruct (filter_raising _ _) as [recent_jobs|e] eqn:Hrecent;
    [intros _|intros E; discriminate E].
  apply filter_raising_Ok in Hrecent as [-> Hall].
  rewrite !list_elem_of_In, filter_In. split; intros [Hj Hkeep]; split; try done.
  - destruct (keep_on_cleanup _ j) as [[]|]; done.
  - by rewrite Hkeep.
Qed.

(** Where the cleanup returns, it keeps what the specification says of a
    non-empty [scraped_at]: a time older than the cutoff goes, a newer one
    stays, and so does a string that does not parse. *)
Lemma cleanup_keeps_recent_and_unparsable now days st st' j s :
  cleanup_old_data now days st = Ok st' →
  j ∈ load_existing_jobs st →
  j !! "scraped_at" = Some (VStr s) →
  s ≠ "" →
  match fromisoformat s with
  | Some (Naive scraped_date) =>
      (scraped_date < now - timedelta_days days → j ∉ load_existing_jobs st')
      ∧ (now - timedelta_days days < scraped_date → j ∈ load_existing_jobs st')
  | Some (Aware _ _) => False
  | None => j ∈ load_existing_jobs st'
  end.
Proof.
  intros Hclean Hj Hs Hne.
  pose proof (elem_of_cleanup now days st st' j Hclean) as Hin.
  assert (truthy (j !! "scraped_at") = true) as Ht.
  { rewrite Hs. cbn [truthy]. apply String.eqb_neq in Hne. by rewrite Hne. }
  assert (∃ b, keep_on_cleanup (now - timedelta_days days) j = Ok b)
    as [b Hb].
  { revert Hclean. unfold cleanup_old_data. cbv zeta.
    destruct (filter_raising _ _) as [recent_jobs|e] eqn:Hrecent;
      [intros _|intros E; discriminate E].
    apply filter_raising_Ok in Hrecent as [_ Hall].
    rewrite Forall_forall in Hall. by apply Hall. }
  rewrite keep_on_cleanup_cases, Ht, Hs in Hin, Hb. cbn [str_of] in Hin, Hb.
  destruct (fromisoformat s) as [[scraped_date|t o]|].
  - split.
    + intros Hold [_ [= Hk]]%Hin. lia.
    + intros Hnew. apply Hin. split; [exact Hj|]. f_equal. lia.
  - discriminate Hb.
  - apply Hin. by split.
Qed.

End Retention.

(** C5.  The prune breaks the retention rule on two stores, seen from
    2024-01-10T10:30:00 with a horizon of seven days.  A known record whose
    [scraped_at] is the empty string, which does not parse, is removed
    instead of kept.  And next to a record whose [scraped_at] carries a UTC
    offset, the comparison with the cutoff raises [TypeError], the cleanup
    job logs it, nothing is saved, and the record that is ten days old is
    still there. *)
Theorem cleanup_breaks_retention :
  (Timestamps.blank ∈ load_existing_jobs Timestamps.st
   ∧ fromisoformat (Datetime:=Iso.datetime)
       (str_of (Timestamps.blank !! "scraped_at")) = None
   ∧ Timestamps.blank
     ∉ load_existing_jobs
         (disk (run_cleanup_job (H:=Iso.datetime) Sample.t0
                  (Scheduler Timestamps.st [] []))))
  ∧ (fromisoformat (Datetime:=Iso.datetime)
       (str_of (Timestamps.old !! "scraped_at")) = Some (Naive 1704018600000000)
     ∧ 1704018600000000 < Sample.t0 - timedelta_days 7
     ∧ cleanup_old_data (H:=Iso.datetime) Sample.t0 7 Offsets.st
       = Raise TypeError
     ∧ disk (run_cleanup_job (H:=Iso.datetime) Sample.t0
               (Scheduler Offsets.st [] [])) = Offsets.st
     ∧ Timestamps.old
       ∈ load_existing_jobs
           (disk (run_cleanup_job (H:=Iso.datetime) Sample.t0
                    (Scheduler Offsets.st [] [])))).
Proof.
  split; [split; [|split]|split; [|split; [|split; [|split]]]].
  - apply (bool_decide_unpack _). vm_compute. exact I.
  - vm_compute. reflexivity.
  - apply (bool_decide_unpack _). vm_compute. exact I.
  - vm_compute. reflexivity.
  - vm_compute. reflexivity.
  - vm_compute. reflexivity.
  - vm_compute. reflexivity.
  - apply (bool_decide_unpack _). vm_compute. exact I.
Qed.

(** ** Marking a batch as posted *)

Lemma filter_raising_ok {A} (p : A → result bool) (l : list A) :
  Forall (fun x => ∃ b, p x = Ok b) l →
  ∃ kept, filter_raising p l = Ok kept
          ∧ ∀ x, x ∈ kept ↔ x ∈ l ∧ p x = Ok true.
Proof.
  induction 1 as [|x l [b Hb] _ (kept & Hkept & Hin)].
  - exists []. split; [reflexivity|]. intros x. rewrite elem_of_nil. tauto.
  - cbn [filter_raising]. rewrite Hb, Hkept. cbn.
    exists (if b then x :: kept else kept). split; [reflexivity|].
    intros y. rewrite elem_of_cons. destruct b.
    + rewrite elem_of_cons, Hin. split; [|tauto].
      intros [->|?]; tauto.
    + rewrite Hin. split; [tauto|].
      intros [[->|?] Hy]; [congruence|tauto].
Qed.

Section Marking.
Context `{Datetime}.

Lemma still_recent_new now (j : job) :
  clock_ok now →
  still_recent now (<["posted_at" := VStr (isoformat now)]> j) = Ok true.
Proof.
  intros Hclock. unfold still_recent. rewrite lookup_insert_eq.
  unfold default, fromisoformat_val. cbn [from_option id].
  rewrite Hclock. cbn [mbind result_bind later_than].
  f_equal. unfold timedelta_days. lia.
Qed.

Lemma still_recent_delivered now (j : job) :
  clock_ok now → delivered_record j → ∃ b, still_recent now j = Ok b.
Proof.
  intros Hclock Hj. unfold still_recent, delivered_record in *.
  destruct (j !! "posted_at") as [[|s]|];
    unfold default, fromisoformat_val; cbn [from_option id].
  - destruct Hj.
  - destruct Hj as [t ->]. cbn [mbind result_bind later_than]. eauto.
  - rewrite Hclock. cbn [mbind result_bind later_than]. eauto.
Qed.

(** With a clock that reads back what it prints and a delivered-set whose
    timestamps parse, the marking does not raise: it saves the delivered
    records of the last 30 days and every job of the batch, stamped. *)
Lemma mark_jobs_as_posted_ok now jobs st :
  clock_ok now →
  Forall delivered_record (load_posted_jobs st) →
  jobs ≠ [] →
  ∃ kept,
    mark_jobs_as_posted now jobs st = Ok (save_posted_jobs kept st)
    ∧ ∀ p, p ∈ kept ↔
           p ∈ load_posted_jobs st
               ++ map (insert "posted_at" (VStr (isoformat now))) jobs
           ∧ still_recent now p = Ok true.
Proof.
  intros Hclock Hposted Hjobs. unfold mark_jobs_as_posted.
  destruct jobs as [|j jobs]; [done|]. cbv zeta.
  destruct (filter_raising_ok (still_recent now)
              (load_posted_jobs st
                 ++ map (insert "posted_at" (VStr (isoformat now))) (j :: jobs)))
    as (kept & -> & Hkept).
  - apply Forall_app. split.
    + eapply Forall_impl; [exact Hposted|]. cbn. intros p.
      by apply still_recent_delivered.
    + apply Forall_forall. intros p Hp.
      apply list_elem_of_In, in_map_iff in Hp as (j' & <- & _).
      exists true. by apply still_recent_new.
  - exists kept. split; [reflexivity|exact Hkept].
Qed.

Lemma posted_hash_set_elem (posted_jobs : list job) (j : job) :
  j ∈ posted_jobs → truthy (j !! "job_hash") = true →
  str_of (j !! "job_hash") ∈ posted_hash_set posted_jobs.
Proof.
  intros Hj Ht. unfold posted_hash_set.
  rewrite elem_of_list_to_set, list_elem_of_In, in_map_iff.
  exists j. split; [reflexivity|]. by apply list_elem_of_In, list_elem_of_filter.
Qed.

Lemma unposted_not_posted (st : store) (p j : job) :
  p ∈ load_posted_jobs st → truthy (p !! "job_hash") = true →
  j ∈ unposted st → j !! "job_hash" ≠ p !! "job_hash".
Proof.
  intros Hp Ht [_ Hj]%elem_of_unposted Heq.
  pose proof (posted_hash_set_elem _ _ Hp Ht) as Hin.
  unfold is_unposted in Hj. rewrite Heq in Hj.
  destruct (p !! "job_hash") as [[|h]|]; try discriminate Ht.
  cbn [str_of] in Hin. by apply bool_decide_eq_true in Hj.
Qed.

Lemma slice_to_subseteq n (l : list job) : slice_to n l ⊆ l.
Proof. unfold slice_to. destruct (0 <=? n); apply subseteq_take. Qed.

Lemma get_jobs_for_posting_subseteq limit st backlog :
  get_jobs_for_posting limit st = Ok backlog → backlog ⊆ unposted st.
Proof.
  unfold get_jobs_for_posting, sort_newest_first.
  destruct (_ && _); [intros E; discriminate E|]. cbn.
  assert (sorted_newest_first (unposted st) ⊆ unposted st) as Hsub.
  { intros j. by rewrite sorted_newest_first_perm. }
  destruct limit as [n|]; [destruct (n =? 0)|]; intros [= <-];
    try exact Hsub.
  etrans; [apply slice_to_subseteq|exact Hsub].
Qed.

End Marking.

(** C2, as stated, fails: the delivered-set holds one record whose
    [posted_at] is JSON [null].  The backlog is Monday's job; both channels
    report success on it; [mark_jobs_as_posted] raises [TypeError] on the
    record of the delivered-set, [post_jobs] logs it, the store is as it
    was, and the next selection returns Monday's job again. *)
Lemma post_jobs_success_without_marking :
  get_jobs_for_posting None Expiry.broken = Ok [Backlog.monday]
  ∧ mark_jobs_as_posted (H:=Iso.datetime) Expiry.now [Backlog.monday]
      Expiry.broken = Raise TypeError
  ∧ post_jobs (H:=Iso.datetime) Expiry.now true true [Backlog.monday]
      Expiry.broken = Expiry.broken
  ∧ get_jobs_for_posting None
      (post_jobs (H:=Iso.datetime) Expiry.now true true [Backlog.monday]
         Expiry.broken) = Ok [Backlog.monday].
Proof. vm_compute. repeat split. Qed.

(** C2, amended.  [post_jobs] on a non-empty batch, with a clock that reads
    back what it prints, a delivered-set in which every [posted_at] parses
    to a naive datetime, and jobs that carry their fingerprint: when
    Telegram or Blogger reports success, every job of the batch is in the
    delivered-set afterwards, stamped with the time of delivery, and the
    next selection of the backlog returns no job with the fingerprint of a
    job of the batch; when both fail, the store is unchanged. *)
Theorem post_jobs_marks_on_any_success `{Datetime} now telegram blogger jobs st :
  jobs ≠ [] →
  clock_ok now →
  Forall delivered_record (load_posted_jobs st) →
  Forall has_fingerprint jobs →
  (telegram || blogger = true →
   Forall (fun j => <["posted_at" := VStr (isoformat now)]> j
                    ∈ load_posted_jobs (post_jobs now telegram blogger jobs st))
     jobs
   ∧ (∀ j j', j ∈ jobs →
              j' ∈ unposted (post_jobs now telegram blogger jobs st) →
              j' !! "job_hash" ≠ j !! "job_hash")
   ∧ (∀ limit backlog j j',
        get_jobs_for_posting limit (post_jobs now telegram blogger jobs st)
        = Ok backlog →
        j ∈ jobs → j' ∈ backlog → j' !! "job_hash" ≠ j !! "job_hash"))
  ∧ (telegram || blogger = false →
     post_jobs now telegram blogger jobs st = st).
Proof.
  intros Hjobs Hclock Hposted Hhash. split.
  - intros Hsuccess.
    destruct (mark_jobs_as_posted_ok now jobs st Hclock Hposted Hjobs)
      as (kept & Hmark & Hkept).
    assert (post_jobs now telegram blogger jobs st = save_posted_jobs kept st)
      as ->.
    { unfold post_jobs. destruct jobs; [done|]. by rewrite Hsuccess, Hmark. }
    change (load_posted_jobs (save_posted_jobs kept st)) with kept.
    assert (∀ j, j ∈ jobs → <["posted_at" := VStr (isoformat now)]> j ∈ kept)
      as Hin.
    { intros j Hj. apply Hkept. split; [|by apply still_recent_new].
      apply elem_of_app. right. apply list_elem_of_In, in_map.
      by apply list_elem_of_In. }
    assert (∀ j j', j ∈ jobs → j' ∈ unposted (save_posted_jobs kept st) →
                    j' !! "job_hash" ≠ j !! "job_hash") as Hout.
    { intros j j' Hj Hj'. rewrite Forall_forall in Hhash.
      replace (j !! "job_hash")
        with ((<["posted_at" := VStr (isoformat now)]> j) !! "job_hash")
        by (apply lookup_insert_ne; intros E; discriminate E).
      apply (unposted_not_posted (save_posted_jobs kept st)); [|  |exact Hj'].
      - by apply Hin.
      - rewrite lookup_insert_ne by (intros E; discriminate E). by apply Hhash. }
    split; [by apply Forall_forall|]. split; [exact Hout|].
    intros limit backlog j j' Hsel Hj Hj'. apply (Hout j j' Hj).
    exact (get_jobs_for_posting_subseteq _ _ _ Hsel j' Hj').
  - intros Hfail. unfold post_jobs. destruct jobs; [done|]. by rewrite Hfail.
Qed.

Lemma post_jobs_marks_on_any_success_witness :
  (false || true = true →
   Forall (fun j => <["posted_at" := VStr (Iso.fmt OneChannel.now)]> j
                    ∈ load_posted_jobs OneChannel.after) OneChannel.jobs
   ∧ (∀ j j', j ∈ OneChannel.jobs → j' ∈ unposted OneChannel.after →
              j' !! "job_hash" ≠ j !! "job_hash")
   ∧ (∀ limit backlog j j',
        get_jobs_for_posting limit OneChannel.after = Ok backlog →
        j ∈ OneChannel.jobs → j' ∈ backlog →
        j' !! "job_hash" ≠ j !! "job_hash"))
  ∧ (false || true = false → OneChannel.after = Backlog.st).
Proof.
  refine (post_jobs_marks_on_any_success (H:=Iso.datetime) OneChannel.now
            false true OneChannel.jobs Backlog.st _ _ _ _).
  - intros E. discriminate E.
  - vm_compute. reflexivity.
  - apply (bool_decide_unpack _). vm_compute. exact I.
  - apply (bool_decide_unpack _). vm_compute. exact I.
Defined.

Example one_channel_backlog :
  get_jobs_for_posting None OneChannel.after = Ok [Backlog.monday].
Proof. vm_compute. reflexivity. Qed.

(** ** Delivery passes *)

Section Passes.
Context `{Datetime}.
Variable MAX_JOBS_PER_POST : Z.

(** The periodic pass publishes undelivered jobs only. *)
Lemma run_posting_job_selects_unposted now telegram blogger s d :
  d ∈ outbox (run_posting_job MAX_JOBS_PER_POST now telegram blogger s) →
  d ∈ outbox s ∨ batch d ⊆ unposted (disk s).
Proof.
  unfold run_posting_job.
  destruct (get_jobs_for_posting _ (disk s)) as [jobs_to_post|e] eqn:Hsel;
    [|by left].
  cbn [outbox]. unfold record_delivery.
  destruct jobs_to_post as [|j jobs]; [by left|].
  intros [Hd|Hd]%elem_of_app; [by left|right].
  apply list_elem_of_singleton in Hd as ->. cbn [batch].
  by apply (get_jobs_for_posting_subseteq _ _ _ Hsel).
Qed.

(** The delayed pass publishes the batch it captured, whatever the
    delivered-set holds by then. *)
Lemma run_posting_job_for_jobs_posts_captured now telegram blogger j jobs s :
  outbox (run_posting_job_for_jobs now telegram blogger (j :: jobs) s)
  = outbox s ++ [Delivery (j :: jobs) telegram blogger].
Proof. reflexivity. Qed.

End Passes.

(** C1 fails on the code.  In the cycle of [Redelivery], the periodic pass
    delivers Clerk and marks its fingerprint delivered; the delayed pass then
    delivers the batch it captured at scraping time, without looking at the
    delivered-set, so the same fingerprint is in two successful delivery
    batches. *)
Theorem delayed_posting_delivers_again :
  map (fun d => (fingerprints (batch d), delivered d))
      (outbox (Redelivery.after 3))
  = [(["873e7dac0fa1b61bdbb0c90a6bb13a9c"], true);
     (["873e7dac0fa1b61bdbb0c90a6bb13a9c"], true)]
  ∧ fingerprints (load_posted_jobs (disk (Redelivery.after 2)))
    = ["873e7dac0fa1b61bdbb0c90a6bb13a9c"]
  ∧ unposted (disk (Redelivery.after 2)) = []
  ∧ ¬ no_duplicate_delivery (outbox (Redelivery.after 3)).
Proof.
  assert (map (fun d => (fingerprints (batch d), delivered d))
              (outbox (Redelivery.after 3))
          = [(["873e7dac0fa1b61bdbb0c90a6bb13a9c"], true);
             (["873e7dac0fa1b61bdbb0c90a6bb13a9c"], true)]) as Hlog
    by (vm_compute; reflexivity).
  split; [exact Hlog|]. split; [vm_compute; reflexivity|].
  split; [vm_compute; reflexivity|].
  intros Hnodup.
  destruct (outbox (Redelivery.after 3)) as [|d1 [|d2 [|d3 log]]];
    try discriminate Hlog.
  injection Hlog as Hfp1 Hd1 Hfp2 Hd2.
  apply (Hnodup 0%nat 1%nat d1 d2 "873e7dac0fa1b61bdbb0c90a6bb13a9c");
    try done.
  - rewrite Hfp1. apply list_elem_of_singleton. reflexivity.
  - rewrite Hfp2. apply list_elem_of_singleton. reflexivity.
Qed.

(** ** What the scheduler preserves

    The conditions under which the posting and selection results are stated
    hold in every state the scheduler reaches from a fresh store. *)

Lemma hexdigest_not_empty text : MD5.hexdigest text ≠ "".
Proof.
  unfold MD5.hexdigest, MD5.digest. cbv zeta.
  generalize (MD5.blocks (length (MD5.pad (Text.utf8 text))) MD5.init
                (MD5.pad (Text.utf8 text))).
  intros r. unfold MD5.le_bytes at 1. cbn [seq map app MD5.hex].
  intros E. discriminate E.
Qed.

Section Invariant.
Context `{Datetime}.
Variable MAX_JOBS_PER_POST : Z.

Lemma accepted_record_known now raw :
  known_record (accepted_record now raw (fingerprint_of raw)).
Proof.
  unfold known_record, accepted_record, key_is_none, sort_key. split.
  - rewrite lookup_insert_eq. cbn [truthy].
    destruct (String.eqb_spec (fingerprint_of raw) "") as [E|_]; [|reflexivity].
    unfold fingerprint_of in E. destruct (hexdigest_not_empty _ E).
  - rewrite !lookup_insert_ne by (let E := fresh in intros E; discriminate E).
    by destruct (cleaned_scraped_at now raw) as [s ->].
Qed.

Lemma process_loop_known now posted_hashes rest existing_hashes out :
  Forall known_record out →
  Forall known_record
    (fold_left (process_step now posted_hashes) rest (existing_hashes, out)).2.
Proof.
  revert existing_hashes out.
  induction rest as [|raw rest IH]; intros existing_hashes out Hout;
    [exact Hout|].
  cbn [fold_left]. rewrite process_step_cases. cbn [fst snd].
  destruct (is_valid raw); [case_bool_decide|].
  - apply IH, Hout.
  - apply IH, Forall_app. split; [exact Hout|].
    repeat constructor; apply accepted_record_known.
  - apply IH, Hout.
Qed.

Lemma process_jobs_known now scraped_jobs st :
  Forall known_record (process_jobs now scraped_jobs st).1.
Proof.
  rewrite process_jobs_new_jobs. unfold process_loop.
  apply process_loop_known. constructor.
Qed.

Lemma process_jobs_ok now scraped_jobs st :
  store_ok st → store_ok (process_jobs now scraped_jobs st).2.
Proof.
  intros [Hknown Hposted].
  pose proof (process_jobs_known now scraped_jobs st) as Hnew.
  unfold store_ok, process_jobs in *. destruct scraped_jobs as [|raw rest].
  - by split.
  - cbv zeta in *. destruct (process_loop _ _ _ (raw :: rest)) as [|j new_jobs].
    + by split.
    + cbn [fst snd] in *. split; [|exact Hposted].
      change (load_existing_jobs (save_jobs ?l st)) with l.
      apply Forall_app. by split.
Qed.

Lemma post_jobs_ok now telegram blogger jobs st :
  clock_ok now → store_ok st → store_ok (post_jobs now telegram blogger jobs st).
Proof.
  intros Hclock [Hknown Hposted]. unfold post_jobs.
  destruct jobs as [|j rest]; [by split|].
  destruct (telegram || blogger); [|by split].
  destruct (mark_jobs_as_posted_ok now (j :: rest) st Hclock Hposted)
    as (kept & -> & Hkept); [done|].
  cbn [try_except returned]. split; [exact Hknown|].
  change (load_posted_jobs (save_posted_jobs kept st)) with kept.
  apply Forall_forall. intros p [Hp _]%Hkept.
  apply elem_of_app in Hp as [Hp|Hp].
  - rewrite Forall_forall in Hposted. by apply Hposted.
  - apply list_elem_of_In, in_map_iff in Hp as (j' & <- & _).
    unfold delivered_record. rewrite lookup_insert_eq. by exists now.
Qed.

Lemma cleanup_old_data_ok now days st :
  store_ok st → store_ok (after_cleanup now days st).
Proof.
  intros [Hknown Hposted]. split.
  - destruct (after_cleanup_filter now days st) as [q ->]. apply Forall_forall.
    intros j [Hj _]%list_elem_of_In%filter_In.
    rewrite Forall_forall in Hknown. by apply Hknown, list_elem_of_In.
  - unfold load_posted_jobs, load_posted_jobs_result.
    by rewrite after_cleanup_posted.
Qed.

Lemma run_event_ok s e :
  clock_ok (event_time e) → scheduler_ok s →
  scheduler_ok (run_event MAX_JOBS_PER_POST s e).
Proof.
  intros Hclock Hs. pose proof Hs as [Hstore Hdelayed].
  destruct e as [now raw|now tg bl|now tg bl|now];
    cbn [run_event event_time] in *.
  - unfold run_scraping_job.
    pose proof (process_jobs_ok now raw (disk s) Hstore) as Hst.
    pose proof (process_jobs_known now raw (disk s)) as Hnew.
    destruct (process_jobs now raw (disk s)) as [new_jobs st].
    cbn [fst snd] in *.
    destruct new_jobs as [|j new_jobs]; split; cbn [disk delayed_posting];
      try assumption.
    apply Forall_app. split; [exact Hdelayed|]. constructor; [|constructor].
    eapply Forall_impl; [exact Hnew|]. by intros j' [Hj' _].
  - unfold run_posting_job.
    destruct (get_jobs_for_posting _ (disk s)); [|exact Hs].
    split; cbn [disk delayed_posting];
      [by apply post_jobs_ok|exact Hdelayed].
  - destruct (delayed_posting s) as [|jobs rest]; [exact Hs|].
    unfold run_posting_job_for_jobs. destruct jobs; [exact Hs|].
    split; cbn [disk delayed_posting]; [by apply post_jobs_ok|constructor].
  - split; cbn [disk delayed_posting run_cleanup_job];
      [by apply (cleanup_old_data_ok now 7)|exact Hdelayed].
Qed.

(** Every state reached from a fresh store is well formed when the clock
    reads back what it prints at the times of the events. *)
Lemma run_events_ok es s :
  Forall (fun e => clock_ok (event_time e)) es → scheduler_ok s →
  scheduler_ok (run_events MAX_JOBS_PER_POST s es).
Proof.
  intros Hes. revert s. unfold run_events.
  induction Hes as [|e es He _ IH]; intros s Hs; [exact Hs|].
  cbn [fold_left]. apply IH. by apply run_event_ok.
Qed.

Lemma fresh_scheduler_ok : scheduler_ok fresh_scheduler.
Proof. repeat split; constructor. Qed.

(** In such a state the backlog can be sorted, and what the periodic pass
    selects carries its fingerprints. *)
Lemma scheduler_ok_unposted s :
  scheduler_ok s →
  Forall (fun j => key_is_none j = false) (unposted (disk s))
  ∧ Forall has_fingerprint (unposted (disk s)).
Proof.
  intros [[Hknown _] _]. rewrite Forall_forall in Hknown.
  split; apply Forall_forall; intros j [Hj _]%elem_of_unposted;
    by destruct (Hknown j Hj).
Qed.

End Invariant.

(** * Further properties of the pipeline *)

(** ** The shape of a cleaned text *)

Lemma string_of_list_ascii_app l1 l2 :
  string_of_list_ascii (l1 ++ l2)
  = string_of_list_ascii l1 +:+ string_of_list_ascii l2.
Proof. induction l1 as [|c l1 IH]; [reflexivity|]. cbn. by rewrite IH. Qed.

Lemma no_space_of_list l :
  no_space (string_of_list_ascii l) = forallb (fun c => negb (Text.isspace c)) l.
Proof. induction l as [|c l IH]; [reflexivity|]. cbn. by rewrite IH. Qed.

Lemma flush_words cur acc :
  forallb (fun c => negb (Text.isspace c)) cur = true →
  Forall is_word acc → Forall is_word (Text.flush cur acc).
Proof.
  intros Hcur Hacc. destruct cur as [|c cur]; [exact Hacc|].
  cbn [Text.flush]. constructor; [|exact Hacc]. split.
  - cbn [rev]. rewrite string_of_list_ascii_app.
    destruct (string_of_list_ascii (rev cur)); cbn; intros E; discriminate E.
  - rewrite no_space_of_list. rewrite forallb_forall in Hcur |- *.
    intros x Hx. by apply Hcur, in_rev.
Qed.

Lemma split_aux_words cur s :
  forallb (fun c => negb (Text.isspace c)) cur = true →
  Forall is_word (Text.split_aux cur s).
Proof.
  revert cur. induction s as [|c s IH]; intros cur Hcur; cbn [Text.split_aux].
  - apply flush_words; [exact Hcur|constructor].
  - destruct (Text.isspace c) eqn:Hc.
    + apply flush_words; [exact Hcur|]. by apply IH.
    + apply IH. cbn. by rewrite Hc.
Qed.

Lemma split_words s : Forall is_word (Text.split s).
Proof. by apply split_aux_words. Qed.

(** Reading a word moves its characters to the run being read. *)
Lemma split_aux_word w cur rest :
  no_space w = true →
  Text.split_aux cur (w +:+ rest)
  = Text.split_aux (rev (list_ascii_of_string w) ++ cur) rest.
Proof.
  revert cur. induction w as [|c w IH]; intros cur Hw; [reflexivity|].
  cbn in Hw. apply andb_true_iff in Hw as [Hc Hw].
  apply negb_true_iff in Hc.
  change (String c w +:+ rest) with (String c (w +:+ rest)).
  cbn [Text.split_aux list_ascii_of_string rev]. rewrite Hc, (IH _ Hw).
  by rewrite <- app_assoc.
Qed.

Lemma flush_word w acc :
  w ≠ "" → Text.flush (rev (list_ascii_of_string w)) acc = w :: acc.
Proof.
  intros Hw. unfold Text.flush.
  destruct (rev (list_ascii_of_string w)) as [|c l] eqn:Hrev.
  - apply (f_equal (@rev ascii)) in Hrev. rewrite rev_involutive in Hrev.
    destruct w; [done|discriminate Hrev].
  - by rewrite <- Hrev, rev_involutive, string_of_list_ascii_of_string.
Qed.

Lemma app_empty_r (s : string) : s +:+ "" = s.
Proof.
  induction s as [|c s IH]; [reflexivity|].
  change (String c s +:+ "") with (String c (s +:+ "")). by rewrite IH.
Qed.

Lemma join_cons w w' ws :
  Text.join " " (w :: w' :: ws) = w +:+ String " " (Text.join " " (w' :: ws)).
Proof. reflexivity. Qed.

Lemma split_join ws :
  Forall is_word ws → Text.split (Text.join " " ws) = ws.
Proof.
  unfold Text.split. induction 1 as [|w ws [Hne Hw] Hws IH]; [reflexivity|].
  destruct ws as [|w' ws].
  - cbn [Text.join String.concat].
    rewrite <- (app_empty_r w) at 1. rewrite (split_aux_word w [] "" Hw).
    rewrite app_nil_r. cbn [Text.split_aux]. by apply flush_word.
  - rewrite join_cons, (split_aux_word w [] _ Hw), app_nil_r.
    cbn [Text.split_aux].
    replace (Text.isspace " ") with true by reflexivity.
    rewrite IH. by apply flush_word.
Qed.

(** The shape of [' '.join(words)]. *)
Lemma join_unfold w ws :
  Text.join " " (w :: ws)
  = w +:+ match ws with
          | [] => ""
          | _ => String " " (Text.join " " ws)
          end.
Proof. destruct ws; [by rewrite app_empty_r|reflexivity]. Qed.

Lemma word_head w :
  is_word w → ∃ c w', w = String c w' ∧ Text.isspace c = false ∧ no_space w' = true.
Proof.
  intros [Hne Hw]. destruct w as [|c w']; [done|]. exists c, w'.
  cbn in Hw. apply andb_true_iff in Hw as [Hc Hw].
  by apply negb_true_iff in Hc.
Qed.

Lemma join_head w ws :
  is_word w →
  ∃ c t, Text.join " " (w :: ws) = String c t ∧ Text.isspace c = false.
Proof.
  intros (c & w' & -> & Hc & _)%word_head. rewrite join_unfold.
  by exists c, (w' +:+ match ws with [] => "" | _ => String " " (Text.join " " ws) end).
Qed.

Lemma lstrip_join ws :
  Forall is_word ws → Text.lstrip (Text.join " " ws) = Text.join " " ws.
Proof.
  destruct 1 as [|w ws Hw _]; [reflexivity|].
  destruct (join_head w ws Hw) as (c & t & -> & Hc). cbn. by rewrite Hc.
Qed.

Lemma rstrip_app_r a b :
  Text.rstrip b = b → b ≠ "" → Text.rstrip (a +:+ b) = a +:+ b.
Proof.
  intros Hb Hne. induction a as [|c a IH]; [exact Hb|].
  change (String c a +:+ b) with (String c (a +:+ b)).
  cbn [Text.rstrip]. rewrite IH.
  destruct (a +:+ b) eqn:Hab; [|reflexivity].
  destruct a; [destruct (Hne Hab)|discriminate Hab].
Qed.

Lemma rstrip_cons c s :
  Text.rstrip s = s → s ≠ "" → Text.rstrip (String c s) = String c s.
Proof. intros Hs Hne. by apply (rstrip_app_r (String c "") s). Qed.

Lemma rstrip_word w : is_word w → Text.rstrip w = w.
Proof.
  intros [Hne Hw]. induction w as [|c w IH]; [done|].
  cbn in Hw. apply andb_true_iff in Hw as [Hc Hw].
  apply negb_true_iff in Hc. destruct w as [|d w].
  - cbn. by rewrite Hc.
  - apply rstrip_cons; [|done]. by apply IH.
Qed.

Lemma rstrip_join w ws :
  Forall is_word (w :: ws) →
  Text.rstrip (Text.join " " (w :: ws)) = Text.join " " (w :: ws)
  ∧ Text.join " " (w :: ws) ≠ "".
Proof.
  revert w. induction ws as [|w' ws IH]; intros w Hws.
  - apply Forall_cons in Hws as [Hw _]. cbn [Text.join String.concat].
    split; [by apply rstrip_word|apply Hw].
  - apply Forall_cons in Hws as [Hw Hws]. destruct (IH w' Hws) as [Hr Hne].
    rewrite join_cons. split.
    + apply rstrip_app_r; [|done]. by apply rstrip_cons.
    + destruct Hw as [Hw _]. by destruct w.
Qed.

Lemma strip_join ws :
  Forall is_word ws → Text.strip (Text.join " " ws) = Text.join " " ws.
Proof.
  intros Hws. unfold Text.strip. rewrite lstrip_join by done.
  destruct ws as [|w ws]; [reflexivity|]. by apply rstrip_join.
Qed.

Lemma space_not_blank c : Text.isspace c = false → Text.is_blank c = false.
Proof.
  intros Hc. unfold Text.is_blank. destruct (Ascii.eqb_spec c " ") as [->|]; [|done].
  discriminate Hc.
Qed.

Lemma has_double_space_word_then w t :
  no_space w = true → w ≠ "" →
  Text.has_double_space (w +:+ String " " t)
  = Text.has_double_space (String " " t).
Proof.
  intros Hw Hne. induction w as [|c w IH]; [done|].
  cbn in Hw. apply andb_true_iff in Hw as [Hc Hw].
  apply negb_true_iff, space_not_blank in Hc. destruct w as [|d w].
  - change (Text.has_double_space (String c (String " " t))
            = Text.has_double_space (String " " t)).
    rewrite has_double_space_cons, Hc. reflexivity.
  - change (Text.has_double_space (String c (String d (w +:+ String " " t)))
            = Text.has_double_space (String " " t)).
    rewrite has_double_space_cons, Hc. cbn [andb orb]. by apply IH.
Qed.

Lemma has_double_space_word w :
  no_space w = true → Text.has_double_space w = false.
Proof.
  induction w as [|c w IH]; [reflexivity|]. intros Hw.
  cbn in Hw. apply andb_true_iff in Hw as [Hc Hw].
  apply negb_true_iff, space_not_blank in Hc. destruct w as [|d w]; [reflexivity|].
  rewrite has_double_space_cons, Hc. by apply IH.
Qed.

Lemma has_double_space_join ws :
  Forall is_word ws → Text.has_double_space (Text.join " " ws) = false.
Proof.
  induction 1 as [|w ws [Hne Hw] Hws IH]; [reflexivity|].
  destruct ws as [|w' ws]; [by apply has_double_space_word|].
  rewrite join_cons, has_double_space_word_then by done.
  apply Forall_cons in Hws as [Hw' _].
  destruct (join_head w' ws Hw') as (c & t & Heq & Hc). rewrite Heq in IH |- *.
  rewrite has_double_space_cons, (space_not_blank _ Hc), andb_false_r.
  exact IH.
Qed.

Lemma only_blanks_app s1 s2 :
  only_blanks (s1 +:+ s2) = only_blanks s1 && only_blanks s2.
Proof.
  induction s1 as [|c s1 IH]; [reflexivity|].
  change (only_blanks (String c (s1 +:+ s2))
          = only_blanks (String c s1) && only_blanks s2).
  cbn [only_blanks]. by rewrite IH, andb_assoc.
Qed.

Lemma only_blanks_word w : no_space w = true → only_blanks w = true.
Proof.
  induction w as [|c w IH]; [reflexivity|]. cbn.
  intros [Hc Hw]%andb_true_iff. by rewrite Hc, IH.
Qed.

Lemma only_blanks_join ws :
  Forall is_word ws → only_blanks (Text.join " " ws) = true.
Proof.
  induction 1 as [|w ws [Hne Hw] Hws IH]; [reflexivity|].
  destruct ws as [|w' ws]; [by apply only_blanks_word|].
  rewrite join_cons, only_blanks_app, only_blanks_word by done.
  cbn [only_blanks andb]. exact IH.
Qed.

Lemma replace_char_absent old new s :
  Text.isspace old = true → Text.is_blank old = false →
  only_blanks s = true → Text.replace_char old new s = s.
Proof.
  intros Hsp Hbl. induction s as [|c s IH]; [reflexivity|].
  cbn [only_blanks Text.replace_char]. intros [Hc Hs]%andb_true_iff.
  destruct (Ascii.eqb_spec c old) as [->|_].
  - rewrite Hsp, Hbl in Hc. discriminate Hc.
  - by rewrite IH.
Qed.

Lemma squeeze_no_double_space s :
  Text.has_double_space s = false → Text.squeeze s = s.
Proof.
  intros Hs. unfold Text.squeeze. destruct (String.length s); [reflexivity|].
  cbn [Text.squeeze_loop]. by rewrite Hs.
Qed.

Lemma join_split_empty : Text.join " " (Text.split "") = "".
Proof. reflexivity. Qed.

(** [clean_text] is [' '.join(text.split())]: its later steps find nothing
    to do. *)
Lemma clean_text_join_split text :
  clean_text text = Text.join " " (Text.split text).
Proof.
  unfold clean_text. destruct (String.eqb_spec text "") as [->|_]; [reflexivity|].
  cbv zeta. pose proof (split_words text) as Hws.
  rewrite (replace_char_absent "010"), (replace_char_absent "013"),
    (replace_char_absent "009")
    by (first [reflexivity | by apply only_blanks_join]).
  rewrite squeeze_no_double_space by (by apply has_double_space_join).
  by apply strip_join.
Qed.

Lemma base_clean_text_join_split text :
  BaseScraper.clean_text text = Text.join " " (Text.split text).
Proof.
  unfold BaseScraper.clean_text.
  destruct (String.eqb_spec text "") as [->|_]; [reflexivity|].
  cbv zeta. pose proof (split_words text) as Hws.
  rewrite (replace_char_absent "010"), (replace_char_absent "013"),
    (replace_char_absent "009")
    by (first [reflexivity | by apply only_blanks_join]).
  by apply strip_join.
Qed.

(** X1. What [clean_text] returns has no leading or trailing whitespace,
    no two spaces in a row, and no whitespace character other than the
    space: it is the words of the input joined by single spaces. *)
Theorem clean_text_shape text :
  clean_text text = Text.join " " (Text.split text)
  ∧ Text.strip (clean_text text) = clean_text text
  ∧ Text.has_double_space (clean_text text) = false
  ∧ Forall (fun c => Text.isspace c = true → c = " "%char)
      (list_ascii_of_string (clean_text text)).
Proof.
  rewrite clean_text_join_split. pose proof (split_words text) as Hws.
  split; [reflexivity|].
  split; [by apply strip_join|]. split; [by apply has_double_space_join|].
  apply only_blanks_join in Hws. revert Hws.
  generalize (Text.join " " (Text.split text)). intros s.
  induction s as [|c s IH]; cbn [only_blanks list_ascii_of_string];
    [constructor|].
  intros [Hc Hs]%andb_true_iff. constructor; [|by apply IH].
  intros Hsp. rewrite Hsp in Hc. cbn in Hc. unfold Text.is_blank in Hc.
  by apply Ascii.eqb_eq in Hc.
Qed.

(** X2. [clean_text] is idempotent: cleaning a cleaned text changes
    nothing. *)
Theorem clean_text_idempotent text :
  clean_text (clean_text text) = clean_text text.
Proof.
  rewrite !clean_text_join_split. f_equal. apply split_join, split_words.
Qed.

(** X3. The scraper's [clean_text], which has no loop on double spaces,
    returns the same text as the processor's, so a text cleaned by a
    scraper passes through [JobProcessor.clean_text] unchanged. *)
Theorem scraper_clean_text_agrees text :
  BaseScraper.clean_text text = clean_text text
  ∧ clean_text (BaseScraper.clean_text text) = BaseScraper.clean_text text.
Proof.
  rewrite base_clean_text_join_split, !clean_text_join_split.
  split; [reflexivity|]. f_equal. apply split_join, split_words.
Qed.

Lemma take_length n s : (String.length (Text.take n s) <= n)%nat.
Proof.
  unfold Text.take. revert n. induction s as [|c s IH]; intros [|n]; cbn; try lia.
  specialize (IH n). lia.
Qed.

Section Records.
Context `{Datetime}.

Ltac key_ne := cbn [fst snd]; let E := fresh in intros E; discriminate E.

Ltac skip_steps :=
  repeat first
    [ rewrite limit_length_other by key_ne
    | rewrite validate_category_other by key_ne
    | rewrite set_default_other by key_ne
    | rewrite clean_field_other by key_ne ].

Lemma cleaned_limited now raw k n :
  In (k, n) length_limits →
  ∃ s, cleaned now raw !! k = Some (VStr s) ∧ (String.length s <= n)%nat.
Proof.
  unfold length_limits at 1. cbn [In].
  intros [E|[E|[E|[E|[E|[]]]]]]; injection E as <- <-;
    unfold cleaned, length_limits, defaults, text_fields; cbn [fold_left];
    skip_steps; rewrite limit_length_same;
    (eexists; split; [reflexivity|apply take_length]).
Qed.

Lemma insert_keeps_key (j : job) i (v : pyval) k :
  is_Some (j !! k) → is_Some (<[i := v]> j !! k).
Proof.
  intros Hk. rewrite lookup_insert. case_decide; [by eexists|exact Hk].
Qed.

Lemma step_keeps_keys (j : job) k :
  is_Some (j !! k) →
  (∀ field, is_Some (clean_field j field !! k))
  ∧ (∀ d, is_Some (set_default j d !! k))
  ∧ is_Some (validate_category j !! k)
  ∧ (∀ l, is_Some (limit_length j l !! k)).
Proof.
  intros Hk. repeat split; intros;
    unfold clean_field, set_default, validate_category, limit_length;
    repeat case_match; try exact Hk; by apply insert_keeps_key.
Qed.

Lemma fold_keeps_keys {A} (f : job → A → job) (l : list A) (j : job) k :
  (∀ j a, is_Some (j !! k) → is_Some (f j a !! k)) →
  is_Some (j !! k) → is_Some (fold_left f l j !! k).
Proof.
  intros Hf. revert j. induction l as [|a l IH]; intros j Hj; [exact Hj|].
  cbn [fold_left]. by apply IH, Hf.
Qed.

Lemma cleaned_keeps_keys now raw k :
  is_Some (raw !! k) → is_Some (cleaned now raw !! k).
Proof.
  intros Hk. unfold cleaned.
  apply fold_keeps_keys; [intros j a Hj; by apply step_keeps_keys|].
  apply step_keeps_keys.
  apply fold_keeps_keys; [intros j a Hj; by apply step_keeps_keys|].
  apply fold_keeps_keys; [intros j a Hj; by apply step_keeps_keys|].
  exact Hk.
Qed.

Lemma set_default_present (j : job) k v : is_Some (set_default j (k, v) !! k).
Proof.
  rewrite set_default_same. destruct (truthy (j !! k)) eqn:Ht; [|by eexists].
  destruct (j !! k); [by eexists|discriminate Ht].
Qed.

Lemma cleaned_defaults now raw k v :
  In (k, v) (defaults now) → is_Some (cleaned now raw !! k).
Proof.
  intros Hin. unfold cleaned.
  apply fold_keeps_keys; [intros j a Hj; by apply step_keeps_keys|].
  apply step_keeps_keys.
  revert Hin. generalize (fold_left clean_field text_fields raw).
  generalize (defaults now). intros ds. induction ds as [|d ds IH] using rev_ind.
  - intros j [].
  - intros j [Hin|[->|[]]]%in_app_iff; rewrite fold_left_app; cbn [fold_left].
    + by apply step_keeps_keys, IH.
    + apply set_default_present.
Qed.

End Records.


Section Records2.
Context `{Datetime}.

(** X4. In a record that [clean_and_validate_job] returns, the five text
    fields hold strings within their limits: title 200, description 1000,
    location 100, qualification 200 and last_date 100 characters. *)
Theorem validated_record_lengths now raw record :
  clean_and_validate_job now raw = Some record →
  text_within record "title" 200 ∧ text_within record "description" 1000
  ∧ text_within record "location" 100 ∧ text_within record "qualification" 200
  ∧ text_within record "last_date" 100.
Proof.
  intros [_ ->]%clean_and_validate_job_Some.
  assert (∀ k n, In (k, n) length_limits →
            text_within (<["processed_at" := VStr (isoformat now)]>
                           (cleaned now raw)) k n) as Hall.
  { intros k n Hin. unfold text_within.
    assert (k ≠ "processed_at") as Hne.
    { unfold length_limits in Hin. cbn [In] in Hin.
      destruct Hin as [E|[E|[E|[E|[E|[]]]]]]; injection E as <- _;
        intros E'; discriminate E'. }
    rewrite lookup_insert_ne by congruence. by apply cleaned_limited. }
  repeat split; apply Hall; unfold length_limits; cbn [In]; tauto.
Qed.

Lemma stamped_complete now raw :
  is_valid raw = true →
  Forall (fun field =>
            is_Some ((<["processed_at" := VStr (isoformat now)]>
                        (cleaned now raw)) !! field)) record_fields
  ∧ (cleaned now raw !! "category" = Some (VStr "government")
     ∨ cleaned now raw !! "category" = Some (VStr "private")).
Proof.
  intros [Ht Hs]%andb_true_iff.
  assert (∀ k, is_Some (cleaned now raw !! k) →
            is_Some ((<["processed_at" := VStr (isoformat now)]>
                        (cleaned now raw)) !! k)) as Hstamp
    by (intros k; apply insert_keeps_key).
  assert (∀ k, truthy (raw !! k) = true → is_Some (cleaned now raw !! k))
    as Hraw.
  { intros k Hk. apply cleaned_keeps_keys.
    destruct (raw !! k); [by eexists|discriminate Hk]. }
  assert (∀ k v, In (k, v) (defaults now) → is_Some (cleaned now raw !! k))
    as Hdef by (intros k v; apply cleaned_defaults).
  split.
  - unfold record_fields.
    repeat (apply Forall_cons; split);
      try apply Forall_nil; try exact I;
      try (apply Hstamp;
           first [ by apply Hraw
                 | solve [eapply Hdef; unfold defaults; cbn [In]; eauto 10] ]).
    rewrite lookup_insert_eq. by eexists.
  - rewrite cleaned_category. case_bool_decide; auto.
Qed.

(** X5. A record that [clean_and_validate_job] returns carries every
    field of [record_fields], its category is government or private, its
    source is the one of the input, and [processed_at] is the time of the
    call. *)
Theorem validated_record_complete now raw record :
  clean_and_validate_job now raw = Some record →
  Forall (fun field => is_Some (record !! field)) record_fields
  ∧ (record !! "category" = Some (VStr "government")
     ∨ record !! "category" = Some (VStr "private"))
  ∧ record !! "source" = raw !! "source"
  ∧ record !! "processed_at" = Some (VStr (isoformat now)).
Proof.
  intros [Hv ->]%clean_and_validate_job_Some.
  destruct (stamped_complete now raw Hv) as [Hfields Hcat].
  split; [exact Hfields|]. split; [|split].
  - by rewrite lookup_insert_ne by (intros E; discriminate E).
  - rewrite lookup_insert_ne by (intros E; discriminate E).
    apply cleaned_source.
  - by rewrite lookup_insert_eq.
Qed.

Lemma fingerprint_consistent_accepted now raw :
  is_valid raw = true →
  fingerprint_consistent (accepted_record now raw (fingerprint_of raw)).
Proof.
  intros Hv. unfold fingerprint_consistent.
  rewrite generate_job_hash_accepted by exact Hv.
  unfold accepted_record. by rewrite lookup_insert_eq.
Qed.

(** The loop of [process_jobs] only adds fingerprints it has not seen. *)
Lemma process_loop_fresh now posted_hashes rest existing_hashes out :
  ∃ new_jobs,
    fold_left (process_step now posted_hashes) rest (existing_hashes, out)
    = (hash_set new_jobs ∪ existing_hashes, out ++ new_jobs)
    ∧ NoDup (map generate_job_hash new_jobs)
    ∧ Forall (fun j => (generate_job_hash j ∉ existing_hashes)
                       ∧ (generate_job_hash j ∉ posted_hashes)
                       ∧ fingerprint_consistent j) new_jobs.
Proof.
  revert existing_hashes out.
  induction rest as [|raw rest IH]; intros existing_hashes out.
  - exists []. cbn [fold_left]. split; [|split; constructor].
    f_equal; [|by rewrite app_nil_r].
    unfold hash_set. cbn [map list_to_set]. by rewrite (left_id_L ∅ (∪)).
  - cbn [fold_left]. rewrite process_step_cases. cbn [fst snd].
    destruct (is_valid raw) eqn:Hv; [case_bool_decide as Hseen|]; try apply IH.
    destruct (IH ({[fingerprint_of raw]} ∪ existing_hashes)
                (out ++ [accepted_record now raw (fingerprint_of raw)]))
      as (new_jobs & -> & Hnodup & Hall).
    exists (accepted_record now raw (fingerprint_of raw) :: new_jobs).
    assert (hash_set (accepted_record now raw (fingerprint_of raw) :: new_jobs)
            = {[fingerprint_of raw]} ∪ hash_set new_jobs) as Hset.
    { unfold hash_set. cbn [map list_to_set].
      by rewrite generate_job_hash_accepted by exact Hv. }
    rewrite Hset. split; [|split].
    + f_equal; [|by rewrite <- app_assoc].
      apply set_eq. intros h. rewrite !elem_of_union. tauto.
    + cbn [map]. rewrite generate_job_hash_accepted by exact Hv.
      constructor; [|exact Hnodup]. intros Hin.
      apply list_elem_of_In, in_map_iff in Hin as (j & Hj & Hin).
      rewrite Forall_forall in Hall.
      destruct (Hall j) as (Hnot & _); [by apply list_elem_of_In|].
      apply Hnot. rewrite Hj, elem_of_union, elem_of_singleton. by left.
    + constructor.
      * rewrite generate_job_hash_accepted by exact Hv.
        split; [tauto|]. split; [tauto|].
        by apply fingerprint_consistent_accepted.
      * eapply Forall_impl; [exact Hall|]. cbn.
        intros j (Hnot & Hp & Hc). split; [|done].
        intros Hin. apply Hnot. rewrite elem_of_union. by right.
Qed.

Lemma fingerprints_consistent jobs :
  Forall fingerprint_consistent jobs →
  fingerprints jobs = map generate_job_hash jobs.
Proof.
  unfold fingerprints. induction 1 as [|j jobs Hj _ IH]; [reflexivity|].
  cbn [map]. by rewrite IH, Hj.
Qed.

End Records2.

Lemma validated_record_lengths_witness :
  let record :=
    <["processed_at" := VStr (isoformat (Datetime:=Iso.datetime) Sample.t0)]>
      (cleaned (H:=Iso.datetime) Sample.t0 NoCategory.typo) in
  text_within record "title" 200 ∧ text_within record "description" 1000
  ∧ text_within record "location" 100 ∧ text_within record "qualification" 200
  ∧ text_within record "last_date" 100.
Proof.
  intros record.
  refine (validated_record_lengths (H:=Iso.datetime) Sample.t0 NoCategory.typo
            record _).
  vm_compute. reflexivity.
Defined.

Lemma validated_record_complete_witness :
  let record :=
    <["processed_at" := VStr (isoformat (Datetime:=Iso.datetime) Sample.t0)]>
      (cleaned (H:=Iso.datetime) Sample.t0 NoCategory.typo) in
  Forall (fun field => is_Some (record !! field)) record_fields
  ∧ (record !! "category" = Some (VStr "government")
     ∨ record !! "category" = Some (VStr "private"))
  ∧ record !! "source" = NoCategory.typo !! "source"
  ∧ record !! "processed_at"
    = Some (VStr (isoformat (Datetime:=Iso.datetime) Sample.t0)).
Proof.
  intros record.
  refine (validated_record_complete (H:=Iso.datetime) Sample.t0 NoCategory.typo
            record _).
  vm_compute. reflexivity.
Defined.

Lemma process_jobs_fresh `{Datetime} now scraped_jobs st :
  NoDup (map generate_job_hash (process_jobs now scraped_jobs st).1)
  ∧ Forall (fun j =>
              fingerprint_consistent j
              ∧ (generate_job_hash j ∉ hash_set (load_existing_jobs st))
              ∧ (generate_job_hash j ∉ hash_set (load_posted_jobs st)))
      (process_jobs now scraped_jobs st).1.
Proof.
  rewrite process_jobs_new_jobs. unfold process_loop.
  destruct (process_loop_fresh now (hash_set (load_posted_jobs st)) scraped_jobs
              (hash_set (load_existing_jobs st)) [])
    as (new_jobs & -> & Hnodup & Hall).
  cbn [fst snd app]. split; [exact Hnodup|].
  eapply Forall_impl; [exact Hall|]. intros j (? & ? & Hc). by split.
Qed.

Lemma process_jobs_appends `{Datetime} now scraped_jobs st :
  load_existing_jobs (process_jobs now scraped_jobs st).2
  = load_existing_jobs st ++ (process_jobs now scraped_jobs st).1
  ∧ posted_jobs_file (process_jobs now scraped_jobs st).2 = posted_jobs_file st.
Proof.
  unfold process_jobs.
  destruct scraped_jobs as [|raw rest]; [by rewrite app_nil_r|]. cbv zeta.
  destruct (process_loop _ _ _ (raw :: rest)); [by rewrite app_nil_r|].
  split; reflexivity.
Qed.

(** X6. The jobs [process_jobs] returns carry pairwise distinct
    fingerprints; each carries under [job_hash] the fingerprint of its own
    fields, and that fingerprint was neither among the known nor among the
    delivered jobs before the call. *)
Theorem process_jobs_new_fingerprints `{Datetime} now scraped_jobs st :
  NoDup (fingerprints (process_jobs now scraped_jobs st).1)
  ∧ Forall (fun j =>
              j !! "job_hash" = Some (VStr (generate_job_hash j))
              ∧ (generate_job_hash j ∉ hash_set (load_existing_jobs st))
              ∧ (generate_job_hash j ∉ hash_set (load_posted_jobs st)))
      (process_jobs now scraped_jobs st).1.
Proof.
  destruct (process_jobs_fresh now scraped_jobs st) as [Hnodup Hall].
  split; [|exact Hall].
  rewrite fingerprints_consistent; [exact Hnodup|].
  eapply Forall_impl; [exact Hall|]. by intros j [Hc _].
Qed.

(** ** Fingerprints stay unique *)

Lemma NoDup_map_filter {A B} (f : A → B) (p : A → bool) (l : list A) :
  NoDup (map f l) → NoDup (map f (List.filter p l)).
Proof.
  induction l as [|x l IH]; [done|]. cbn [map List.filter].
  intros [Hx Hl]%NoDup_cons. destruct (p x); [|by apply IH].
  cbn [map]. apply NoDup_cons. split; [|by apply IH].
  intros Hin. apply Hx.
  apply list_elem_of_In, in_map_iff in Hin as (y & Hy & Hin%filter_In).
  apply list_elem_of_In, in_map_iff. exists y. tauto.
Qed.

Lemma NoDup_map_take {A B} (f : A → B) n (l : list A) :
  NoDup (map f l) → NoDup (map f (take n l)).
Proof.
  rewrite <- (take_drop n l) at 1. rewrite map_app.
  by intros [? _]%NoDup_app.
Qed.

Lemma NoDup_map_perm {A B} (f : A → B) (l l' : list A) :
  Permutation l l' → NoDup (map f l) → NoDup (map f l').
Proof. intros Hp. by rewrite (Permutation_map f Hp). Qed.

Section Unique.
Context `{Datetime}.
Variable MAX_JOBS_PER_POST : Z.

Lemma mark_jobs_as_posted_known now jobs st st' :
  mark_jobs_as_posted now jobs st = Ok st' → jobs_file st' = jobs_file st.
Proof.
  unfold mark_jobs_as_posted. destruct jobs as [|j jobs]; [by intros [= <-]|].
  cbv zeta. destruct (filter_raising _ _) as [kept|e]; cbn; [|done].
  by intros [= <-].
Qed.

Lemma post_jobs_known now telegram blogger jobs st :
  jobs_file (post_jobs now telegram blogger jobs st) = jobs_file st.
Proof.
  unfold post_jobs. destruct jobs as [|j jobs]; [reflexivity|].
  destruct (telegram || blogger); [|reflexivity].
  destruct (mark_jobs_as_posted now (j :: jobs) st) as [st'|e] eqn:Hmark;
    [|reflexivity].
  cbn [try_except returned]. by apply (mark_jobs_as_posted_known _ _ _ _ Hmark).
Qed.

Lemma load_existing_jobs_file st st' :
  jobs_file st' = jobs_file st → load_existing_jobs st' = load_existing_jobs st.
Proof.
  unfold load_existing_jobs, load_existing_jobs_result. by intros ->.
Qed.

Lemma process_jobs_unique now scraped_jobs st :
  known_unique st → known_unique (process_jobs now scraped_jobs st).2.
Proof.
  intros [Hnodup Hcons]. unfold known_unique.
  rewrite (proj1 (process_jobs_appends now scraped_jobs st)).
  destruct (process_jobs_fresh now scraped_jobs st) as [Hnew Hall].
  split.
  - rewrite map_app. apply NoDup_app. split; [exact Hnodup|]. split; [|exact Hnew].
    intros h Hold Hin.
    apply list_elem_of_In, in_map_iff in Hin as (j & <- & Hj).
    rewrite Forall_forall in Hall.
    destruct (Hall j) as (_ & Hnot & _); [by apply list_elem_of_In|].
    apply Hnot. unfold hash_set. by apply elem_of_list_to_set.
  - apply Forall_app. split; [exact Hcons|].
    eapply Forall_impl; [exact Hall|]. by intros j [Hc _].
Qed.

Lemma cleanup_old_data_unique now days st :
  known_unique st → known_unique (after_cleanup now days st).
Proof.
  intros [Hnodup Hcons]. unfold known_unique.
  destruct (after_cleanup_filter now days st) as [q ->].
  split; [by apply NoDup_map_filter|].
  apply Forall_forall. intros j [Hj _]%list_elem_of_In%filter_In.
  rewrite Forall_forall in Hcons. by apply Hcons, list_elem_of_In.
Qed.

Lemma known_unique_file st st' :
  jobs_file st' = jobs_file st → known_unique st → known_unique st'.
Proof.
  intros Hfile. unfold known_unique.
  by rewrite (load_existing_jobs_file _ _ Hfile).
Qed.

Lemma run_event_unique s e :
  known_unique (disk s) → known_unique (disk (run_event MAX_JOBS_PER_POST s e)).
Proof.
  intros Hs. destruct e as [now raw|now tg bl|now tg bl|now]; cbn [run_event].
  - unfold run_scraping_job.
    pose proof (process_jobs_unique now raw (disk s) Hs) as Hst.
    destruct (process_jobs now raw (disk s)) as [new_jobs st].
    by destruct new_jobs.
  - unfold run_posting_job.
    destruct (get_jobs_for_posting _ (disk s)); [|exact Hs].
    cbn [disk]. eapply known_unique_file; [apply post_jobs_known|exact Hs].
  - destruct (delayed_posting s) as [|jobs rest]; [exact Hs|].
    unfold run_posting_job_for_jobs. destruct jobs; [exact Hs|].
    cbn [disk]. eapply known_unique_file; [apply post_jobs_known|exact Hs].
  - cbn [run_cleanup_job disk]. by apply (cleanup_old_data_unique now 7).
Qed.

Lemma run_events_unique es s :
  known_unique (disk s) → known_unique (disk (run_events MAX_JOBS_PER_POST s es)).
Proof.
  revert s. unfold run_events.
  induction es as [|e es IH]; intros s Hs; [exact Hs|].
  cbn [fold_left]. by apply IH, run_event_unique.
Qed.

Lemma backlog_unique limit st backlog :
  known_unique st →
  get_jobs_for_posting limit st = Ok backlog → NoDup (fingerprints backlog).
Proof.
  intros [Hnodup Hcons] Hsel.
  assert (NoDup (map generate_job_hash (unposted st))) as Hun
    by (by apply NoDup_map_filter).
  assert (Forall fingerprint_consistent backlog) as Hback.
  { apply Forall_forall. intros j Hj.
    apply (get_jobs_for_posting_subseteq _ _ _ Hsel), elem_of_unposted in Hj
      as [Hj _].
    rewrite Forall_forall in Hcons. by apply Hcons. }
  rewrite fingerprints_consistent by exact Hback.
  revert Hsel. unfold get_jobs_for_posting, sort_newest_first.
  destruct (_ && _); [intros E; discriminate E|]. cbn.
  assert (NoDup (map generate_job_hash (sorted_newest_first (unposted st))))
    as Hsorted.
  { eapply NoDup_map_perm; [|exact Hun].
    symmetry. apply sorted_newest_first_perm. }
  destruct limit as [n|]; [destruct (n =? 0)|]; intros [= <-]; try exact Hsorted.
  unfold slice_to. destruct (0 <=? n); by apply NoDup_map_take.
Qed.

End Unique.

(** X7. In every state the scheduler reaches from an empty store, by
    whatever scraping, posting, delayed posting and cleanup events, no two
    known jobs share a fingerprint, each known job carries the fingerprint
    of its own fields, and every backlog [get_jobs_for_posting] returns has
    pairwise distinct fingerprints. *)
Theorem reachable_fingerprints_unique `{Datetime} MAX_JOBS_PER_POST es :
  let s := run_events MAX_JOBS_PER_POST fresh_scheduler es in
  NoDup (map generate_job_hash (load_existing_jobs (disk s)))
  ∧ Forall (fun j => j !! "job_hash" = Some (VStr (generate_job_hash j)))
      (load_existing_jobs (disk s))
  ∧ ∀ limit backlog,
      get_jobs_for_posting limit (disk s) = Ok backlog →
      NoDup (fingerprints backlog).
Proof.
  intros s.
  assert (known_unique (disk s)) as Hs.
  { apply run_events_unique. split; constructor. }
  split; [apply Hs|]. split; [apply Hs|].
  intros limit backlog. by apply backlog_unique.
Qed.


(** ** The digest *)

Lemma le_bytes_range n x :
  Forall (fun b => 0 <= b < 256) (MD5.le_bytes n x).
Proof.
  unfold MD5.le_bytes. apply Forall_forall. intros b Hb.
  apply list_elem_of_In, in_map_iff in Hb as (i & <- & _).
  change 255 with (Z.ones 8). rewrite Z.land_ones by lia.
  apply Z.mod_pos_bound. lia.
Qed.

Lemma hex_digit_is_hex n : 0 <= n < 16 → is_hex (MD5.hex_digit n) = true.
Proof.
  intros Hn.
  assert (n = 0 ∨ n = 1 ∨ n = 2 ∨ n = 3 ∨ n = 4 ∨ n = 5 ∨ n = 6 ∨ n = 7
          ∨ n = 8 ∨ n = 9 ∨ n = 10 ∨ n = 11 ∨ n = 12 ∨ n = 13 ∨ n = 14
          ∨ n = 15) as Hcases by lia.
  repeat (destruct Hcases as [->|Hcases]; [reflexivity|]).
  by subst n.
Qed.

Lemma hex_shape bs :
  Forall (fun b => 0 <= b < 256) bs →
  String.length (MD5.hex bs) = (2 * length bs)%nat
  ∧ all_chars is_hex (MD5.hex bs) = true.
Proof.
  induction 1 as [|b bs Hb _ [IHlen IHhex]]; [done|].
  cbn [MD5.hex String.length all_chars length]. split; [lia|].
  rewrite IHhex, !hex_digit_is_hex; [done| |].
  - change 15 with (Z.ones 4). rewrite Z.land_ones by lia.
    apply Z.mod_pos_bound. lia.
  - rewrite Z.shiftr_div_pow2 by lia. change (2 ^ 4) with 16.
    split; [apply Z.div_pos; lia|apply Z.div_lt_upper_bound; lia].
Qed.

Lemma hexdigest_shape text :
  String.length (MD5.hexdigest text) = 32%nat
  ∧ all_chars is_hex (MD5.hexdigest text) = true.
Proof.
  unfold MD5.hexdigest, MD5.digest. cbv zeta.
  set (r := MD5.blocks _ _ _).
  destruct (hex_shape (MD5.le_bytes 4 (MD5.ra r) ++ MD5.le_bytes 4 (MD5.rb r)
                         ++ MD5.le_bytes 4 (MD5.rc r) ++ MD5.le_bytes 4 (MD5.rd r)))
    as [Hlen Hhex].
  { rewrite !Forall_app. repeat split; apply le_bytes_range. }
  split; [|exact Hhex]. rewrite Hlen. reflexivity.
Qed.

(** X8. A fingerprint is 32 characters long, each a digit or a letter
    from a to f. *)
Theorem generate_job_hash_shape `{Datetime} (j : job) :
  String.length (generate_job_hash j) = 32%nat
  ∧ all_chars is_hex (generate_job_hash j) = true.
Proof. apply hexdigest_shape. Qed.

(** ** Marking: expiry and failure *)

Section ExpiryFacts.
Context `{Datetime}.

Lemma still_recent_parsed now (p : job) s t :
  p !! "posted_at" = Some (VStr s) → fromisoformat s = Some (Naive t) →
  still_recent now p = Ok (now - timedelta_days 30 <? t).
Proof.
  intros Hp Ht. unfold still_recent. rewrite Hp.
  unfold default, fromisoformat_val. cbn [from_option id]. by rewrite Ht.
Qed.

Lemma still_recent_broken now (p : job) :
  ¬ delivered_record p → ∃ e, still_recent now p = Raise e.
Proof.
  unfold delivered_record, still_recent.
  destruct (p !! "posted_at") as [[|s]|];
    unfold default, fromisoformat_val; cbn [from_option id].
  - intros _. cbn. eauto.
  - destruct (fromisoformat s) as [[t|t o]|]; cbn; [|eauto|eauto].
    intros Hp. destruct Hp. eauto.
  - intros Hp. by destruct Hp.
Qed.

End ExpiryFacts.

(** X9. With a clock that reads back what it prints and a delivered-set
    whose timestamps parse, marking a non-empty batch succeeds and leaves
    the jobs file alone; a delivered record whose [posted_at] is 30 days
    old or older is dropped from the delivered-set, a younger one is
    kept. *)
Theorem mark_jobs_as_posted_expires `{Datetime} now jobs st p s t :
  clock_ok now →
  Forall delivered_record (load_posted_jobs st) →
  jobs ≠ [] →
  p ∈ load_posted_jobs st →
  p !! "posted_at" = Some (VStr s) →
  fromisoformat s = Some (Naive t) →
  ∃ st',
    mark_jobs_as_posted now jobs st = Ok st'
    ∧ jobs_file st' = jobs_file st
    ∧ (t <= now - timedelta_days 30 → p ∉ load_posted_jobs st')
    ∧ (now - timedelta_days 30 < t → p ∈ load_posted_jobs st').
Proof.
  intros Hclock Hposted Hjobs Hp Hat Ht.
  destruct (mark_jobs_as_posted_ok now jobs st Hclock Hposted Hjobs)
    as (kept & Hmark & Hkept).
  exists (save_posted_jobs kept st). split; [exact Hmark|].
  split; [reflexivity|].
  change (load_posted_jobs (save_posted_jobs kept st)) with kept.
  rewrite Hkept, (still_recent_parsed now p s t Hat Ht). split.
  - intros Hold [_ [= Hlt]]. apply Z.ltb_lt in Hlt. lia.
  - intros Hnew. split; [apply elem_of_app; by left|].
    f_equal. apply Z.ltb_lt. lia.
Qed.

Lemma mark_jobs_as_posted_expires_witness :
  ∃ st',
    mark_jobs_as_posted (H:=Iso.datetime) Expiry.now OneChannel.jobs Backlog.st
    = Ok st'
    ∧ jobs_file st' = jobs_file Backlog.st
    ∧ (1704967200000000 <= Expiry.now - timedelta_days 30 →
       <["posted_at" := VStr "2024-01-11T10:00:00"]> Backlog.thursday
       ∉ load_posted_jobs st')
    ∧ (Expiry.now - timedelta_days 30 < 1704967200000000 →
       <["posted_at" := VStr "2024-01-11T10:00:00"]> Backlog.thursday
       ∈ load_posted_jobs st').
Proof.
  refine (mark_jobs_as_posted_expires (H:=Iso.datetime) Expiry.now
            OneChannel.jobs Backlog.st
            (<["posted_at" := VStr "2024-01-11T10:00:00"]> Backlog.thursday)
            "2024-01-11T10:00:00" 1704967200000000 _ _ _ _ _ _).
  - vm_compute. reflexivity.
  - apply (bool_decide_unpack _). vm_compute. exact I.
  - intros E. discriminate E.
  - apply (bool_decide_unpack _). vm_compute. exact I.
  - vm_compute. reflexivity.
  - vm_compute. reflexivity.
Defined.

(** X10. When some record of the delivered-set has a [posted_at] that is
    [None] or does not parse, [mark_jobs_as_posted] raises on every
    non-empty batch, and [post_jobs] leaves the store as it was, whatever
    the two channels answered: the batch stays undelivered. *)
Theorem post_jobs_unmarked_on_bad_timestamp `{Datetime}
    now telegram blogger jobs st p :
  jobs ≠ [] →
  p ∈ load_posted_jobs st →
  ¬ delivered_record p →
  (∃ e, mark_jobs_as_posted now jobs st = Raise e)
  ∧ post_jobs now telegram blogger jobs st = st.
Proof.
  intros Hjobs Hp Hbad.
  destruct (still_recent_broken now p Hbad) as [e He].
  assert (∃ e', mark_jobs_as_posted now jobs st = Raise e') as [e' Hmark].
  { unfold mark_jobs_as_posted. destruct jobs as [|j jobs]; [done|]. cbv zeta.
    destruct (filter_raising_raises (still_recent now)
                (load_posted_jobs st
                   ++ map (insert "posted_at" (VStr (isoformat now))) (j :: jobs))
                p e) as [e' ->]; [apply elem_of_app; by left|exact He|].
    cbn. eauto. }
  split; [eauto|].
  unfold post_jobs. destruct jobs as [|j jobs]; [done|].
  rewrite Hmark. by destruct (telegram || blogger).
Qed.

Lemma post_jobs_unmarked_on_bad_timestamp_witness :
  (∃ e, mark_jobs_as_posted (H:=Iso.datetime) Expiry.now [Backlog.monday]
          Expiry.broken = Raise e)
  ∧ post_jobs (H:=Iso.datetime) Expiry.now true true [Backlog.monday]
      Expiry.broken = Expiry.broken.
Proof.
  refine (post_jobs_unmarked_on_bad_timestamp (H:=Iso.datetime) Expiry.now
            true true [Backlog.monday] Expiry.broken
            (<["posted_at" := VNone]> Backlog.thursday) _ _ _).
  - intros E. discriminate E.
  - apply (bool_decide_unpack _). vm_compute. exact I.
  - vm_compute. intros E. exact E.
Defined.

(** ** Cleanup passes compose *)

Lemma filter_filter_impl {A} (p q : A → bool) (l : list A) :
  (∀ x, q x = true → p x = true) →
  List.filter q (List.filter p l) = List.filter q l.
Proof.
  intros Himpl. induction l as [|x l IH]; [reflexivity|]. cbn [List.filter].
  destruct (p x) eqn:Hp; cbn [List.filter]; rewrite IH; [reflexivity|].
  destruct (q x) eqn:Hq; [|reflexivity].
  rewrite (Himpl x Hq) in Hp. discriminate Hp.
Qed.

Lemma filter_length_le {A} (p : A → bool) (l : list A) :
  (length (List.filter p l) <= length l)%nat.
Proof.
  induction l as [|x l IH]; [done|]. cbn [List.filter].
  destruct (p x); cbn [length]; lia.
Qed.

Section Cleanup.
Context `{Datetime}.

Lemma keep_on_cleanup_mono cutoff1 cutoff2 (j : job) :
  cutoff1 <= cutoff2 →
  keep_on_cleanup cutoff2 j = Ok true → keep_on_cleanup cutoff1 j = Ok true.
Proof.
  intros Hle. rewrite !keep_on_cleanup_cases.
  destruct (truthy _); [|done].
  destruct (fromisoformat _) as [[t|t o]|]; [|done|done].
  intros [= Hlt]. f_equal. lia.
Qed.

(** Whether the test of a job raises does not depend on the cutoff. *)
Lemma keep_on_cleanup_returns cutoff1 cutoff2 (j : job) :
  (∃ b, keep_on_cleanup cutoff1 j = Ok b) →
  ∃ b, keep_on_cleanup cutoff2 j = Ok b.
Proof.
  rewrite !keep_on_cleanup_cases.
  destruct (truthy _); [|eauto].
  destruct (fromisoformat _) as [[t|t o]|]; eauto.
Qed.

Lemma after_cleanup_raises now days st e :
  filter_raising (keep_on_cleanup (now - timedelta_days days))
    (load_existing_jobs st) = Raise e →
  after_cleanup now days st = st.
Proof. intros Hr. unfold after_cleanup, cleanup_old_data. by rewrite Hr. Qed.

Lemma after_cleanup_fixed now days st :
  filter_raising (keep_on_cleanup (now - timedelta_days days))
    (load_existing_jobs st) = Ok (load_existing_jobs st) →
  after_cleanup now days st = st.
Proof.
  intros Hfix. unfold after_cleanup, cleanup_old_data. cbv zeta. rewrite Hfix.
  cbn [mbind result_bind returned]. by rewrite Nat.ltb_irrefl.
Qed.

Lemma filter_Forall_sub {A} (P : A → Prop) (q : A → bool) (l : list A) :
  Forall P l → Forall P (List.filter q l).
Proof.
  intros Hl. apply Forall_forall. intros x [Hx _]%list_elem_of_In%filter_In.
  rewrite Forall_forall in Hl. by apply Hl, list_elem_of_In.
Qed.

End Cleanup.

(** X11. A cleanup followed by a later cleanup with the same number of
    days leaves the known jobs a single cleanup at the later time leaves;
    running the same cleanup twice changes nothing more; a cleanup never
    touches the delivered-set and never adds a known job. *)
Theorem cleanup_old_data_composes `{Datetime} now1 now2 days st :
  now1 <= now2 →
  load_existing_jobs (after_cleanup now2 days (after_cleanup now1 days st))
  = load_existing_jobs (after_cleanup now2 days st)
  ∧ after_cleanup now1 days (after_cleanup now1 days st)
    = after_cleanup now1 days st
  ∧ posted_jobs_file (after_cleanup now1 days st) = posted_jobs_file st
  ∧ (length (load_existing_jobs (after_cleanup now1 days st))
     <= length (load_existing_jobs st))%nat.
Proof.
  intros Hle.
  set (q now := fun j => returned false
                           (keep_on_cleanup (now - timedelta_days days) j)).
  assert (∀ j, q now2 j = true → q now1 j = true) as Hmono.
  { intros j. unfold q.
    destruct (keep_on_cleanup (now2 - _) j) as [[]|] eqn:Hk; try done.
    intros _. rewrite (keep_on_cleanup_mono (now1 - timedelta_days days)
                         (now2 - timedelta_days days) j); [done|lia|exact Hk]. }
  destruct (filter_raising (keep_on_cleanup (now1 - timedelta_days days))
              (load_existing_jobs st)) as [kept|e] eqn:Hfirst.
  - destruct (filter_raising_Ok _ _ _ Hfirst) as [Hkept Hall]. fold (q now1) in Hkept.
    assert (load_existing_jobs (after_cleanup now1 days st)
            = List.filter (q now1) (load_existing_jobs st)) as Hload
      by (by rewrite after_cleanup_known, Hfirst).
    assert (∀ now, Forall (fun j => ∃ b, keep_on_cleanup
                                           (now - timedelta_days days) j = Ok b)
                     (load_existing_jobs st)) as Hreturns.
    { intros now. eapply Forall_impl; [exact Hall|]. cbn. intros j.
      apply keep_on_cleanup_returns. }
    split; [|split; [|split]].
    + rewrite (after_cleanup_known now2 days (after_cleanup now1 days st)), Hload.
      rewrite (after_cleanup_known now2 days st).
      rewrite (filter_raising_total _ _ (Hreturns now2)).
      rewrite (filter_raising_total _ _
                 (filter_Forall_sub _ (q now1) _ (Hreturns now2))).
      by apply filter_filter_impl.
    + apply after_cleanup_fixed. rewrite Hload.
      rewrite (filter_raising_total _ _
                 (filter_Forall_sub _ (q now1) _ (Hreturns now1))).
      f_equal. by apply filter_filter_impl.
    + apply after_cleanup_posted.
    + rewrite Hload. apply filter_length_le.
  - rewrite (after_cleanup_raises now1 days st e Hfirst).
    split; [reflexivity|]. split; [by apply (after_cleanup_raises now1 days st e)|].
    by split.
Qed.

Lemma cleanup_old_data_composes_witness :
  load_existing_jobs
    (after_cleanup (H:=Iso.datetime) Sample.t1 7
       (after_cleanup (H:=Iso.datetime) Sample.t0 7 Timestamps.st))
  = load_existing_jobs (after_cleanup (H:=Iso.datetime) Sample.t1 7 Timestamps.st)
  ∧ after_cleanup (H:=Iso.datetime) Sample.t0 7
      (after_cleanup (H:=Iso.datetime) Sample.t0 7 Timestamps.st)
    = after_cleanup (H:=Iso.datetime) Sample.t0 7 Timestamps.st
  ∧ posted_jobs_file (after_cleanup (H:=Iso.datetime) Sample.t0 7 Timestamps.st)
    = posted_jobs_file Timestamps.st
  ∧ (length (load_existing_jobs
               (after_cleanup (H:=Iso.datetime) Sample.t0 7 Timestamps.st))
     <= length (load_existing_jobs Timestamps.st))%nat.
Proof.
  refine (cleanup_old_data_composes (H:=Iso.datetime) Sample.t0 Sample.t1 7
            Timestamps.st _).
  vm_compute. intros E. discriminate E.
Defined.

(** ** Dictionaries in insertion order *)

Section DictFacts.
Context {K V : Type} `{EqDecision K}.
Implicit Types (d : list (K * V)) (k : K) (v : V).

Lemma dict_get_set d k v k' :
  dict_get (dict_set d k v) k' = if decide (k = k') then Some v else dict_get d k'.
Proof.
  induction d as [|[k0 v0] d IH]; cbn [dict_set dict_get].
  - reflexivity.
  - destruct (decide (k0 = k)) as [->|Hne]; cbn [dict_get].
    + destruct (decide (k = k')); reflexivity.
    + rewrite IH. destruct (decide (k0 = k')) as [->|]; [|reflexivity].
      destruct (decide (k = k')); congruence.
Qed.

Lemma dict_set_keys d k v :
  map fst (dict_set d k v)
  = match dict_get d k with
    | Some _ => map fst d
    | None => map fst d ++ [k]
    end.
Proof.
  induction d as [|[k0 v0] d IH]; cbn [dict_set dict_get map app]; [reflexivity|].
  destruct (decide (k0 = k)) as [->|Hne]; cbn [map fst]; [reflexivity|].
  rewrite IH. by destruct (dict_get d k).
Qed.

Lemma dict_get_None d k : dict_get d k = None ↔ k ∉ map fst d.
Proof.
  induction d as [|[k0 v0] d IH]; cbn [dict_get map fst].
  - split; [intros _; apply not_elem_of_nil|done].
  - rewrite not_elem_of_cons. destruct (decide (k0 = k)) as [->|Hne].
    + split; [done|]. intros [Hk _]. by destruct Hk.
    + rewrite IH. split; [|tauto]. intros Hk. split; [congruence|exact Hk].
Qed.

Lemma dict_set_NoDup d k v :
  NoDup (map fst d) → NoDup (map fst (dict_set d k v)).
Proof.
  intros Hd. rewrite dict_set_keys.
  destruct (dict_get d k) eqn:Hk; [exact Hd|].
  apply NoDup_app. split; [exact Hd|]. split; [|apply NoDup_singleton].
  intros k' Hin ->%list_elem_of_singleton. by apply dict_get_None in Hk.
Qed.

Lemma dict_get_elem d k v :
  NoDup (map fst d) → (k, v) ∈ d ↔ dict_get d k = Some v.
Proof.
  induction d as [|[k0 v0] d IH]; cbn [dict_get map fst].
  - intros _. split; [by intros ?%elem_of_nil|done].
  - intros [Hk0 Hd]%NoDup_cons. rewrite elem_of_cons.
    destruct (decide (k0 = k)) as [->|Hne].
    + split; [|intros [= ->]; by left].
      intros [[= ->]|Hin]; [done|]. destruct Hk0.
      apply list_elem_of_In, in_map_iff. exists (k, v).
      split; [done|by apply list_elem_of_In].
    + rewrite <- (IH Hd). split; [|tauto]. intros [[= ? ?]|?]; [congruence|done].
Qed.

End DictFacts.

(** ** Grouping by state and by type *)

Lemma state_step_get (d : list (string * list job)) (j : job) k :
  let state := state_or_other j in
  let d' := match dict_get d state with
            | None => dict_set d state []
            | Some _ => d
            end in
  dict_get (dict_set d' state (default [] (dict_get d' state) ++ [j])) k
  = if decide (state = k) then Some (default [] (dict_get d k) ++ [j])
    else dict_get d k.
Proof.
  cbv zeta. rewrite dict_get_set.
  destruct (decide (state_or_other j = k)) as [<-|Hne].
  - destruct (dict_get d (state_or_other j)) eqn:Hd; [by rewrite Hd|].
    rewrite dict_get_set. by rewrite decide_True.
  - destruct (dict_get d (state_or_other j)); [reflexivity|].
    rewrite dict_get_set. by rewrite decide_False.
Qed.

Lemma state_step_NoDup (d : list (string * list job)) (j : job) :
  let state := state_or_other j in
  let d' := match dict_get d state with
            | None => dict_set d state []
            | Some _ => d
            end in
  NoDup (map fst d) →
  NoDup (map fst (dict_set d' state (default [] (dict_get d' state) ++ [j]))).
Proof.
  cbv zeta. intros Hd. apply dict_set_NoDup.
  destruct (dict_get d (state_or_other j)); [exact Hd|by apply dict_set_NoDup].
Qed.

Lemma categorize_jobs_by_state_fold jobs (d : list (string * list job)) k :
  NoDup (map fst d) →
  let groups :=
    fold_left
      (fun state_jobs j =>
         let state := state_or_other j in
         let state_jobs :=
           match dict_get state_jobs state with
           | None => dict_set state_jobs state []
           | Some _ => state_jobs
           end in
         dict_set state_jobs state
           (default [] (dict_get state_jobs state) ++ [j]))
      jobs d in
  NoDup (map fst groups)
  ∧ dict_get groups k
    = match List.filter (fun j => bool_decide (state_or_other j = k)) jobs with
      | [] => dict_get d k
      | l => Some (default [] (dict_get d k) ++ l)
      end.
Proof.
  cbv zeta. revert d. induction jobs as [|j jobs IH]; intros d Hd; [done|].
  cbn [fold_left List.filter].
  destruct (IH _ (state_step_NoDup d j Hd)) as [Hnodup ->].
  split; [exact Hnodup|]. rewrite state_step_get. cbv zeta.
  destruct (decide (state_or_other j = k)) as [Hk|Hk].
  - rewrite bool_decide_eq_true_2 by exact Hk. cbn [default from_option id].
    destruct (List.filter _ jobs); [reflexivity|]. by rewrite <- app_assoc.
  - by rewrite bool_decide_eq_false_2 by exact Hk.
Qed.

(** X12. [categorize_jobs_by_state] has one group per state that occurs,
    with ['Other'] for jobs without state: the keys are distinct, each group
    is not empty and holds exactly the jobs of its state in their order,
    and every job is in the group of its state. *)
Theorem categorize_jobs_by_state_groups (jobs : list job) :
  let groups := categorize_jobs_by_state jobs in
  NoDup (map fst groups)
  ∧ (∀ state l, (state, l) ∈ groups →
       l ≠ []
       ∧ l = List.filter (fun j => bool_decide (state_or_other j = state)) jobs)
  ∧ (∀ j, j ∈ jobs → ∃ l, (state_or_other j, l) ∈ groups ∧ j ∈ l).
Proof.
  cbv zeta. unfold categorize_jobs_by_state.
  assert (NoDup (map fst ([] : list (string * list job)))) as Hnil
    by constructor.
  pose proof (fun k => categorize_jobs_by_state_fold jobs [] k Hnil) as Hfold.
  cbv zeta in Hfold. split; [apply (Hfold ""%string)|]. split.
  - intros state l Hin.
    apply dict_get_elem in Hin; [|apply (Hfold ""%string)].
    rewrite (proj2 (Hfold state)) in Hin. cbn [dict_get] in Hin.
    destruct (List.filter _ jobs) as [|x l']; [discriminate Hin|].
    injection Hin as <-. done.
  - intros j Hj.
    assert (j ∈ List.filter
                  (fun j' => bool_decide (state_or_other j' = state_or_other j))
                  jobs) as Hin.
    { apply list_elem_of_In, filter_In. split; [by apply list_elem_of_In|].
      by apply bool_decide_eq_true_2. }
    exists (List.filter
              (fun j' => bool_decide (state_or_other j' = state_or_other j)) jobs).
    split; [|exact Hin].
    apply dict_get_elem; [apply (Hfold ""%string)|].
    rewrite (proj2 (Hfold (state_or_other j))). cbn [dict_get].
    destruct (List.filter _ jobs); [by apply elem_of_nil in Hin|reflexivity].
Qed.

Lemma categorize_jobs_by_type_fold jobs (gov priv : list job) :
  fold_left
    (fun type_jobs j =>
       match default (VStr "government") (j !! "category") with
       | VStr job_type =>
           match dict_get type_jobs job_type with
           | Some l => dict_set type_jobs job_type (l ++ [j])
           | None => type_jobs
           end
       | VNone => type_jobs
       end)
    jobs [("government", gov); ("private", priv)]
  = [("government", gov ++ List.filter (type_is "government") jobs);
     ("private", priv ++ List.filter (type_is "private") jobs)].
Proof.
  revert gov priv. induction jobs as [|j jobs IH]; intros gov priv.
  - cbn [fold_left List.filter]. by rewrite !app_nil_r.
  - cbn [fold_left List.filter].
    assert (∀ c, type_is c j
                 = bool_decide (default (VStr "government") (j !! "category")
                                = VStr c)) as Htype by reflexivity.
    rewrite !Htype.
    destruct (default (VStr "government") (j !! "category")) as [|t].
    + rewrite !bool_decide_eq_false_2 by (intros E; discriminate E).
      cbv iota. apply IH.
    + destruct (decide (t = "government")) as [->|Hg].
      * cbn [dict_get dict_set]. rewrite !decide_True by reflexivity.
        rewrite IH, bool_decide_eq_true_2 by reflexivity.
        rewrite bool_decide_eq_false_2 by (intros E; discriminate E).
        by rewrite <- app_assoc.
      * destruct (decide (t = "private")) as [->|Hp].
        -- cbn [dict_get dict_set].
           rewrite decide_False by (intros E; discriminate E).
           rewrite decide_True by reflexivity.
           rewrite decide_False by (intros E; discriminate E).
           cbn [dict_set]. rewrite decide_True by reflexivity.
           rewrite IH, bool_decide_eq_false_2 by (intros E; discriminate E).
           rewrite bool_decide_eq_true_2 by reflexivity.
           by rewrite <- app_assoc.
        -- cbn [dict_get]. rewrite !decide_False by congruence.
           rewrite !bool_decide_eq_false_2 by congruence. cbv iota. apply IH.
Qed.

Lemma filter_two_length {A} (p q : A → bool) (l : list A) :
  (∀ x, p x = true → q x = false) →
  (length (List.filter p l) + length (List.filter q l) <= length l)%nat.
Proof.
  intros Hpq. induction l as [|x l IH]; [done|]. cbn [List.filter].
  destruct (p x) eqn:Hp; [rewrite (Hpq x Hp)|destruct (q x)]; cbn [length]; lia.
Qed.

Lemma filter_two_perm {A} (p q : A → bool) (l : list A) :
  Forall (fun x => p x = negb (q x)) l →
  Permutation (List.filter p l ++ List.filter q l) l.
Proof.
  induction 1 as [|x l Hx _ IH]; [done|]. cbn [List.filter]. rewrite Hx.
  destruct (q x); cbn [negb app].
  - rewrite <- Permutation_middle. by constructor.
  - by constructor.
Qed.

(** X13. [categorize_jobs_by_type] returns exactly the two groups
    government and private, in that order, each with its jobs in their
    order; a job without category counts as government, a job whose
    category is anything else (also [None]) is in neither group. *)
Theorem categorize_jobs_by_type_groups (jobs : list job) :
  categorize_jobs_by_type jobs
  = [("government", List.filter (type_is "government") jobs);
     ("private", List.filter (type_is "private") jobs)]
  ∧ (∀ j, type_is "government" j = true ↔
          j !! "category" = None ∨ j !! "category" = Some (VStr "government"))
  ∧ (∀ j, type_is "private" j = true ↔ j !! "category" = Some (VStr "private"))
  ∧ (length (List.filter (type_is "government") jobs)
     + length (List.filter (type_is "private") jobs) <= length jobs)%nat.
Proof.
  split; [apply (categorize_jobs_by_type_fold jobs [] [])|].
  split; [|split].
  - intros j. unfold type_is. rewrite bool_decide_eq_true.
    destruct (j !! "category") as [v|]; cbn; [|tauto].
    split; [intros ->; by right|]. intros [E|E]; congruence.
  - intros j. unfold type_is. rewrite bool_decide_eq_true.
    destruct (j !! "category") as [v|]; cbn; [|split; intros E; discriminate E].
    split; congruence.
  - apply filter_two_length. intros j. unfold type_is.
    intros Hg%bool_decide_eq_true. rewrite Hg.
    apply bool_decide_eq_false_2. intros E. discriminate E.
Qed.

(** ** Statistics *)

Lemma dict_set_sum (d : list (pyval * nat)) k n :
  (sum_list (map snd (dict_set d k n)) + default 0 (dict_get d k)
   = sum_list (map snd d) + n)%nat.
Proof.
  induction d as [|[k0 n0] d IH]; cbn [dict_set dict_get map snd sum_list].
  - cbn. lia.
  - destruct (decide (k0 = k)); cbn [map snd sum_list default from_option id];
      lia.
Qed.

Lemma count_by_fold field jobs (d : list (pyval * nat)) k :
  NoDup (map fst d) →
  let stats :=
    fold_left
      (fun stats j =>
         let key := get_or_unknown field j in
         dict_set stats key (default 0%nat (dict_get stats key) + 1)%nat)
      jobs d in
  NoDup (map fst stats)
  ∧ sum_list (map snd stats) = (sum_list (map snd d) + length jobs)%nat
  ∧ dict_get stats k
    = match length (List.filter
                      (fun j => bool_decide (get_or_unknown field j = k)) jobs)
      with
      | O => dict_get d k
      | n => Some (default 0 (dict_get d k) + n)%nat
      end.
Proof.
  cbv zeta. revert d. induction jobs as [|j jobs IH]; intros d Hd.
  - cbn [fold_left List.filter length]. split; [exact Hd|]. split; [lia|done].
  - cbn [fold_left List.filter].
    destruct (IH _ (dict_set_NoDup d (get_or_unknown field j)
                      (default 0 (dict_get d (get_or_unknown field j)) + 1)%nat
                      Hd)) as (Hnodup & -> & ->).
    split; [exact Hnodup|]. split.
    + pose proof (dict_set_sum d (get_or_unknown field j)
                    (default 0 (dict_get d (get_or_unknown field j)) + 1)%nat).
      cbn [length]. lia.
    + rewrite dict_get_set.
      destruct (decide (get_or_unknown field j = k)) as [Hk|Hk].
      * rewrite bool_decide_eq_true_2 by exact Hk. rewrite Hk.
        cbn [length default from_option id].
        destruct (length (List.filter _ jobs)); f_equal; lia.
      * by rewrite bool_decide_eq_false_2 by exact Hk.
Qed.

Lemma count_by_spec field jobs :
  NoDup (map fst (count_by field jobs))
  ∧ sum_list (map snd (count_by field jobs)) = length jobs
  ∧ ∀ key n, (key, n) ∈ count_by field jobs →
      (0 < n)%nat
      ∧ n = length (List.filter
                      (fun j => bool_decide (get_or_unknown field j = key)) jobs).
Proof.
  assert (NoDup (map fst ([] : list (pyval * nat)))) as Hnil by constructor.
  pose proof (fun k => count_by_fold field jobs [] k Hnil) as Hfold.
  cbv zeta in Hfold. fold (count_by field jobs) in Hfold.
  split; [apply (Hfold VNone)|]. split; [apply (Hfold VNone)|].
  intros key n Hin. apply dict_get_elem in Hin; [|apply (Hfold VNone)].
  rewrite (proj2 (proj2 (Hfold key))) in Hin. cbn [dict_get] in Hin.
  remember (length (List.filter
                      (fun j => bool_decide (get_or_unknown field j = key)) jobs))
    as m eqn:Hm.
  destruct m; [discriminate Hin|]. injection Hin as <-.
  cbn [default from_option id]. split; lia.
Qed.

(** X14. In [get_storage_stats] the counts by source add up to
    [total_jobs], and so do the counts by state; no key is listed twice;
    every listed count is positive and is the number of known jobs with
    that key (['Unknown'] for a missing key); and [government_jobs] plus
    [private_jobs] is at most [total_jobs]. *)
Theorem get_storage_stats_counts (st : store) :
  let stats := get_storage_stats st in
  sum_list (map snd (jobs_by_source stats)) = total_jobs stats
  ∧ sum_list (map snd (jobs_by_state stats)) = total_jobs stats
  ∧ NoDup (map fst (jobs_by_source stats))
  ∧ NoDup (map fst (jobs_by_state stats))
  ∧ (∀ key n, (key, n) ∈ jobs_by_source stats →
       (0 < n)%nat
       ∧ n = length (List.filter
                       (fun j => bool_decide (get_or_unknown "source" j = key))
                       (load_existing_jobs st)))
  ∧ (∀ key n, (key, n) ∈ jobs_by_state stats →
       (0 < n)%nat
       ∧ n = length (List.filter
                       (fun j => bool_decide (get_or_unknown "state" j = key))
                       (load_existing_jobs st)))
  ∧ (government_jobs stats + private_jobs stats <= total_jobs stats)%nat.
Proof.
  cbv zeta. unfold get_storage_stats. cbv zeta.
  cbn [jobs_by_source jobs_by_state total_jobs government_jobs private_jobs].
  destruct (count_by_spec "source" (load_existing_jobs st)) as (? & ? & ?).
  destruct (count_by_spec "state" (load_existing_jobs st)) as (? & ? & ?).
  repeat (split; [assumption|]).
  apply filter_two_length. intros j. unfold field_is.
  intros Hg%bool_decide_eq_true. rewrite Hg.
  apply bool_decide_eq_false_2. intros E. discriminate E.
Qed.


(** ** Batches for Telegram *)

Lemma concat_chunks {A} (m : nat) (l : list A) (c : nat) :
  concat (map (fun k => take m (drop (k * m) l)) (seq 0 c)) = take (c * m) l.
Proof.
  induction c as [|c IH]; [by rewrite take_0|].
  rewrite seq_S, map_app, concat_app, IH. cbn [map concat plus].
  rewrite app_nil_r, take_take_drop. f_equal. lia.
Qed.

Section Batches.
Variable MAX_JOBS_PER_POST : Z.
Hypothesis MAX_positive : 0 < MAX_JOBS_PER_POST.

Lemma slice_chunk (k : nat) (l : list job) :
  slice (Z.of_nat k * MAX_JOBS_PER_POST)
    (Z.of_nat k * MAX_JOBS_PER_POST + MAX_JOBS_PER_POST) l
  = take (Z.to_nat MAX_JOBS_PER_POST) (drop (k * Z.to_nat MAX_JOBS_PER_POST) l).
Proof. unfold slice. f_equal; [f_equal; lia|f_equal; nia]. Qed.

Lemma batches_of_spec (l : list job) :
  ∃ batches,
    batches_of MAX_JOBS_PER_POST l = Ok batches
    ∧ concat batches = l
    ∧ Forall (fun b => b ≠ [] ∧ Z.of_nat (length b) <= MAX_JOBS_PER_POST ∧ b ⊆ l)
        batches.
Proof.
  unfold batches_of, range_to.
  rewrite (proj2 (Z.eqb_neq _ _)) by lia.
  rewrite (proj2 (Z.ltb_lt _ _)) by lia.
  cbn [mbind result_bind]. eexists. split; [reflexivity|].
  set (m := Z.to_nat MAX_JOBS_PER_POST).
  set (c := Z.to_nat ((Z.of_nat (length l) + MAX_JOBS_PER_POST - 1)
                      / MAX_JOBS_PER_POST)).
  assert (Z.of_nat c * MAX_JOBS_PER_POST < Z.of_nat (length l) + MAX_JOBS_PER_POST
          ∧ Z.of_nat (length l) <= Z.of_nat c * MAX_JOBS_PER_POST) as [Hlo Hhi].
  { subst c. rewrite Z2Nat.id by (apply Z.div_pos; lia).
    pose proof (Z.mul_div_le (Z.of_nat (length l) + MAX_JOBS_PER_POST - 1)
                  MAX_JOBS_PER_POST MAX_positive).
    pose proof (Z.mul_succ_div_gt (Z.of_nat (length l) + MAX_JOBS_PER_POST - 1)
                  MAX_JOBS_PER_POST MAX_positive).
    nia. }
  rewrite map_map.
  rewrite (map_ext _ (fun k => take m (drop (k * m) l)))
    by (intros k; apply slice_chunk).
  split.
  - rewrite concat_chunks. apply take_ge. subst m. nia.
  - apply Forall_forall. intros b Hb.
    apply list_elem_of_In, in_map_iff in Hb as (k & <- & Hk%in_seq).
    assert (k * m < length l)%nat as Hlt by (subst m; nia).
    split; [|split].
    + intros Hnil. apply (f_equal length) in Hnil.
      rewrite length_take, length_drop in Hnil. cbn [length] in Hnil.
      subst m. lia.
    + rewrite length_take. subst m. lia.
    + etrans; [apply subseteq_take|apply subseteq_drop].
Qed.

Lemma group_jobs_for_posting_spec (jobs : list job) :
  ∃ batches,
    group_jobs_for_posting MAX_JOBS_PER_POST jobs = Ok batches
    ∧ concat batches
      = List.filter (field_is "category" "government") jobs
        ++ List.filter (field_is "category" "private") jobs
    ∧ Forall (fun b =>
                b ≠ [] ∧ Z.of_nat (length b) <= MAX_JOBS_PER_POST
                ∧ (Forall (fun j => j !! "category" = Some (VStr "government")) b
                   ∨ Forall (fun j => j !! "category" = Some (VStr "private")) b))
        batches.
Proof.
  unfold group_jobs_for_posting. cbv zeta.
  destruct (batches_of_spec (List.filter (field_is "category" "government") jobs))
    as (gov & -> & Hgov & Hgovs).
  destruct (batches_of_spec (List.filter (field_is "category" "private") jobs))
    as (priv & -> & Hpriv & Hprivs).
  cbn [mbind result_bind]. eexists. split; [reflexivity|]. split.
  - by rewrite concat_app, Hgov, Hpriv.
  - apply Forall_app. split.
    + eapply Forall_impl; [exact Hgovs|]. cbn. intros b (? & ? & Hsub).
      split; [done|]. split; [done|]. left. apply Forall_forall.
      intros j [_ Hj%bool_decide_eq_true]%Hsub%list_elem_of_In%filter_In.
      exact Hj.
    + eapply Forall_impl; [exact Hprivs|]. cbn. intros b (? & ? & Hsub).
      split; [done|]. split; [done|]. right. apply Forall_forall.
      intros j [_ Hj%bool_decide_eq_true]%Hsub%list_elem_of_In%filter_In.
      exact Hj.
Qed.

End Batches.

Lemma elem_of_valid_categories (jobs : list job) j :
  j ∈ List.filter (field_is "category" "government") jobs
      ++ List.filter (field_is "category" "private") jobs
  ↔ j ∈ jobs ∧ valid_category j.
Proof.
  rewrite elem_of_app, !list_elem_of_In, !filter_In. unfold field_is, valid_category.
  rewrite !bool_decide_eq_true. tauto.
Qed.

(** X15. With a positive [MAX_JOBS_PER_POST], [group_jobs_for_posting]
    returns batches that, in order, make up the government jobs followed
    by the private jobs; a job is in a batch iff it is in the input with one
    of the two categories; every batch is non-empty, holds at most
    [MAX_JOBS_PER_POST] jobs, and is of a single category. *)
Theorem group_jobs_for_posting_batches MAX_JOBS_PER_POST (jobs : list job) :
  0 < MAX_JOBS_PER_POST →
  ∃ batches,
    group_jobs_for_posting MAX_JOBS_PER_POST jobs = Ok batches
    ∧ concat batches
      = List.filter (field_is "category" "government") jobs
        ++ List.filter (field_is "category" "private") jobs
    ∧ (∀ j, j ∈ concat batches ↔ j ∈ jobs ∧ valid_category j)
    ∧ Forall (fun b =>
                b ≠ [] ∧ Z.of_nat (length b) <= MAX_JOBS_PER_POST
                ∧ (Forall (fun j => j !! "category" = Some (VStr "government")) b
                   ∨ Forall (fun j => j !! "category" = Some (VStr "private")) b))
        batches.
Proof.
  intros Hmax.
  destruct (group_jobs_for_posting_spec MAX_JOBS_PER_POST Hmax jobs)
    as (batches & Hgroup & Hconcat & Hall).
  exists batches. split; [exact Hgroup|]. split; [exact Hconcat|].
  split; [|exact Hall].
  intros j. rewrite Hconcat. apply elem_of_valid_categories.
Qed.

Lemma group_jobs_for_posting_batches_witness :
  ∃ batches,
    group_jobs_for_posting 1 Channels.jobs = Ok batches
    ∧ concat batches
      = List.filter (field_is "category" "government") Channels.jobs
        ++ List.filter (field_is "category" "private") Channels.jobs
    ∧ (∀ j, j ∈ concat batches ↔ j ∈ Channels.jobs ∧ valid_category j)
    ∧ Forall (fun b =>
                b ≠ [] ∧ Z.of_nat (length b) <= 1
                ∧ (Forall (fun j => j !! "category" = Some (VStr "government")) b
                   ∨ Forall (fun j => j !! "category" = Some (VStr "private")) b))
        batches.
Proof.
  refine (group_jobs_for_posting_batches 1 Channels.jobs _). lia.
Defined.

(** ** What the channels report *)

Lemma success_count_pos sent (batches : list (list job)) :
  (0 < success_count sent batches)%nat ↔
  ∃ k b, batches !! k = Some b ∧ sent k b = true ∧ b ≠ [].
Proof.
  unfold success_count. revert sent.
  induction batches as [|b batches IH]; intros sent.
  - cbn. split; [lia|]. intros (k & b & Hk & _). by destruct k.
  - rewrite imap_cons. cbn [sum_list].
    change (imap (_ ∘ S) batches)
      with (imap (fun k batch =>
                    if (sent ∘ S) k batch then length batch else 0%nat) batches).
    specialize (IH (sent ∘ S)).
    set (rest := sum_list (imap _ batches)) in *. unfold id. split.
    + intros Hpos.
      assert (sent 0%nat b = true ∧ b ≠ [] ∨ (0 < rest)%nat) as [[Hb Hne]|Hrest].
      { revert Hpos. destruct (sent 0%nat b); [|intros Hpos; right; lia].
        destruct b; [intros Hpos; right; cbn [length] in Hpos; lia|by left]. }
      * by exists 0%nat, b.
      * apply IH in Hrest as (k & b' & ? & ? & ?). by exists (S k), b'.
    + intros ([|k] & b' & Hk & Hsent & Hne).
      * injection Hk as <-. rewrite Hsent. destruct b; [done|]. cbn [length]. lia.
      * assert (0 < rest)%nat; [|lia]. apply IH. by exists k, b'.
Qed.

(** X16. [post_jobs_to_channel] reports success exactly when there are no
    jobs, or [MAX_JOBS_PER_POST] is positive and at least one batch was
    sent; with [MAX_JOBS_PER_POST = 0] the grouping raises [ValueError]; and
    [run_telegram_posting] reports success only if the poster was built and
    [post_jobs_to_channel] reported success. *)
Theorem post_jobs_to_channel_reports MAX_JOBS_PER_POST sent (jobs : list job) :
  (post_jobs_to_channel MAX_JOBS_PER_POST sent jobs = true ↔
   jobs = []
   ∨ (0 < MAX_JOBS_PER_POST
      ∧ ∃ batches k b,
          group_jobs_for_posting MAX_JOBS_PER_POST jobs = Ok batches
          ∧ batches !! k = Some b ∧ sent k b = true))
  ∧ (group_jobs_for_posting 0 jobs = Raise ValueError)
  ∧ (∀ poster, run_telegram_posting MAX_JOBS_PER_POST sent poster jobs = true →
               poster = Ok ()
               ∧ post_jobs_to_channel MAX_JOBS_PER_POST sent jobs = true).
Proof.
  split; [|split].
  - unfold post_jobs_to_channel. destruct jobs as [|j jobs]; [tauto|].
    destruct (Z.lt_ge_cases 0 MAX_JOBS_PER_POST) as [Hmax|Hmax].
    + destruct (group_jobs_for_posting_spec MAX_JOBS_PER_POST Hmax (j :: jobs))
        as (batches & -> & _ & Hall).
      rewrite Nat.ltb_lt, success_count_pos. split.
      * intros (k & b & Hk & Hsent & _). right. split; [exact Hmax|].
        by exists batches, k, b.
      * intros [E|[_ (batches' & k & b & [= <-] & Hk & Hsent)]];
          [discriminate E|].
        exists k, b. split; [exact Hk|]. split; [exact Hsent|].
        rewrite Forall_forall in Hall.
        by destruct (Hall b (list_elem_of_lookup_2 _ _ _ Hk)).
    + assert (group_jobs_for_posting MAX_JOBS_PER_POST (j :: jobs) = Ok []
              ∨ group_jobs_for_posting MAX_JOBS_PER_POST (j :: jobs)
                = Raise ValueError) as [-> | ->].
      { unfold group_jobs_for_posting, batches_of, range_to. cbv zeta.
        destruct (MAX_JOBS_PER_POST =? 0) eqn:Hz; [by right|].
        rewrite (proj2 (Z.ltb_ge _ _)) by lia. by left. }
      * split; [intros E; discriminate E|].
        intros [E|[? _]]; [discriminate E|lia].
      * split; [intros E; discriminate E|].
        intros [E|[? _]]; [discriminate E|lia].
  - reflexivity.
  - intros poster. unfold run_telegram_posting.
    destruct poster as [[]|e]; cbn; [done|]. intros E. discriminate E.
Qed.

(** ** Marking after the channels *)

Lemma post_jobs_marks `{Datetime} now telegram blogger jobs st :
  jobs ≠ [] →
  clock_ok now →
  Forall delivered_record (load_posted_jobs st) →
  telegram || blogger = true →
  Forall (fun j => <["posted_at" := VStr (isoformat now)]> j
                   ∈ load_posted_jobs (post_jobs now telegram blogger jobs st))
    jobs.
Proof.
  intros Hjobs Hclock Hposted Hsuccess.
  destruct (mark_jobs_as_posted_ok now jobs st Hclock Hposted Hjobs)
    as (kept & Hmark & Hkept).
  assert (post_jobs now telegram blogger jobs st = save_posted_jobs kept st)
    as ->.
  { unfold post_jobs. destruct jobs; [done|]. by rewrite Hsuccess, Hmark. }
  change (load_posted_jobs (save_posted_jobs kept st)) with kept.
  apply Forall_forall. intros j Hj. apply Hkept.
  split; [|by apply still_recent_new].
  apply elem_of_app. right. apply list_elem_of_In, in_map.
  by apply list_elem_of_In.
Qed.

(** X17. When the Blogger API key or blog id is not configured,
    [post_jobs_to_blogger] reports success without posting, so [post_jobs]
    records every job of a non-empty batch as delivered, also when nothing
    went to Telegram (given a clock that reads back what it prints and a
    delivered-set whose timestamps parse). *)
Theorem unconfigured_blogger_marks_batch `{Datetime} MAX_JOBS_PER_POST poster
    sent api_key blog_id create_blog_post now jobs st :
  jobs ≠ [] →
  clock_ok now →
  Forall delivered_record (load_posted_jobs st) →
  api_key = "" ∨ blog_id = "" →
  post_jobs_to_blogger api_key blog_id create_blog_post jobs = true
  ∧ Forall (fun j => <["posted_at" := VStr (isoformat now)]> j
                     ∈ load_posted_jobs
                         (post_jobs_on_channels MAX_JOBS_PER_POST poster sent
                            api_key blog_id create_blog_post now jobs st))
      jobs.
Proof.
  intros Hjobs Hclock Hposted Hconfig.
  assert (post_jobs_to_blogger api_key blog_id create_blog_post jobs = true)
    as Hblogger.
  { unfold post_jobs_to_blogger. destruct Hconfig as [-> | ->]; [reflexivity|].
    by rewrite orb_true_r. }
  split; [exact Hblogger|]. unfold post_jobs_on_channels.
  apply post_jobs_marks; try assumption. rewrite Hblogger. apply orb_true_r.
Qed.

Lemma unconfigured_blogger_marks_batch_witness :
  post_jobs_to_blogger "" "" (fun _ _ => false) OneChannel.jobs = true
  ∧ Forall (fun j => <["posted_at" := VStr (Iso.fmt OneChannel.now)]> j
                     ∈ load_posted_jobs
                         (post_jobs_on_channels (H:=Iso.datetime) 5
                            (Raise ValueError) (fun _ _ => false) "" ""
                            (fun _ _ => false) OneChannel.now OneChannel.jobs
                            Backlog.st))
      OneChannel.jobs.
Proof.
  refine (unconfigured_blogger_marks_batch (H:=Iso.datetime) 5
            (Raise ValueError) (fun _ _ => false) "" "" (fun _ _ => false)
            OneChannel.now OneChannel.jobs Backlog.st _ _ _ _).
  - intros E. discriminate E.
  - vm_compute. reflexivity.
  - apply (bool_decide_unpack _). vm_compute. exact I.
  - left. reflexivity.
Defined.

(** X18. When at least one Telegram batch was sent, [post_jobs] records
    every job of the batch as delivered: also the jobs of the batches whose
    sending failed, and the jobs without a valid category, which are in no
    batch (given a clock that reads back what it prints and a delivered-set
    whose timestamps parse). *)
Theorem partial_delivery_marks_batch `{Datetime} MAX_JOBS_PER_POST sent
    api_key blog_id create_blog_post now jobs st batches k b :
  clock_ok now →
  Forall delivered_record (load_posted_jobs st) →
  0 < MAX_JOBS_PER_POST →
  group_jobs_for_posting MAX_JOBS_PER_POST jobs = Ok batches →
  batches !! k = Some b →
  sent k b = true →
  Forall (fun j => <["posted_at" := VStr (isoformat now)]> j
                   ∈ load_posted_jobs
                       (post_jobs_on_channels MAX_JOBS_PER_POST (Ok ()) sent
                          api_key blog_id create_blog_post now jobs st))
    jobs.
Proof.
  intros Hclock Hposted Hmax Hgroup Hk Hsent.
  destruct jobs as [|j jobs]; [constructor|].
  unfold post_jobs_on_channels. apply post_jobs_marks; try assumption; [done|].
  apply orb_true_iff. left.
  unfold run_telegram_posting, post_jobs_to_channel. cbn [mbind result_bind returned].
  rewrite Hgroup. apply Nat.ltb_lt, success_count_pos.
  exists k, b. split; [exact Hk|]. split; [exact Hsent|].
  destruct (group_jobs_for_posting_spec MAX_JOBS_PER_POST Hmax (j :: jobs))
    as (batches' & Hgroup' & _ & Hall).
  rewrite Hgroup in Hgroup'. injection Hgroup' as <-.
  rewrite Forall_forall in Hall.
  by destruct (Hall b (list_elem_of_lookup_2 _ _ _ Hk)).
Qed.


Lemma partial_delivery_marks_batch_witness :
  Forall (fun j => <["posted_at" := VStr (Iso.fmt OneChannel.now)]> j
                   ∈ load_posted_jobs
                       (post_jobs_on_channels (H:=Iso.datetime) 1 (Ok ())
                          Channels.sent "key" "blog" (fun _ _ => false)
                          OneChannel.now Channels.jobs Backlog.st))
    Channels.jobs.
Proof.
  refine (partial_delivery_marks_batch (H:=Iso.datetime) 1 Channels.sent
            "key" "blog" (fun _ _ => false) OneChannel.now Channels.jobs
            Backlog.st
            [[<["category" := VStr "government"]> Backlog.wednesday];
             [<["category" := VStr "private"]> Backlog.tuesday]]
            0%nat [<["category" := VStr "government"]> Backlog.wednesday]
            _ _ _ _ _ _).
  - vm_compute. reflexivity.
  - apply (bool_decide_unpack _). vm_compute. exact I.
  - lia.
  - vm_compute. reflexivity.
  - reflexivity.
  - reflexivity.
Defined.

(** ** Records of reachable states *)

Section Known.
Context `{Datetime}.
Variable MAX_JOBS_PER_POST : Z.
Variable P : job → Prop.
Hypothesis accepted_P :
  ∀ now raw, is_valid raw = true → P (accepted_record now raw (fingerprint_of raw)).

Lemma process_loop_Forall now posted_hashes rest existing_hashes out :
  Forall P out →
  Forall P
    (fold_left (process_step now posted_hashes) rest (existing_hashes, out)).2.
Proof.
  revert existing_hashes out.
  induction rest as [|raw rest IH]; intros existing_hashes out Hout;
    [exact Hout|].
  cbn [fold_left]. rewrite process_step_cases. cbn [fst snd].
  destruct (is_valid raw) eqn:Hv; [case_bool_decide|].
  - apply IH, Hout.
  - apply IH, Forall_app. split; [exact Hout|].
    repeat constructor. by apply accepted_P.
  - apply IH, Hout.
Qed.

Lemma process_jobs_Forall now scraped_jobs st :
  Forall P (process_jobs now scraped_jobs st).1.
Proof.
  rewrite process_jobs_new_jobs. unfold process_loop.
  apply process_loop_Forall. constructor.
Qed.

Lemma run_event_Forall s e :
  Forall P (load_existing_jobs (disk s)) →
  Forall P (load_existing_jobs (disk (run_event MAX_JOBS_PER_POST s e))).
Proof.
  intros Hs. destruct e as [now raw|now tg bl|now tg bl|now]; cbn [run_event].
  - unfold run_scraping_job.
    pose proof (process_jobs_appends now raw (disk s)) as [Hload _].
    pose proof (process_jobs_Forall now raw (disk s)) as Hnew.
    destruct (process_jobs now raw (disk s)) as [new_jobs st].
    cbn [fst snd] in *.
    assert (Forall P (load_existing_jobs st)) as Hst
      by (rewrite Hload; apply Forall_app; by split).
    by destruct new_jobs.
  - unfold run_posting_job.
    destruct (get_jobs_for_posting _ (disk s)); [|exact Hs].
    cbn [disk]. by rewrite (load_existing_jobs_file _ _ (post_jobs_known _ _ _ _ _)).
  - destruct (delayed_posting s) as [|jobs rest]; [exact Hs|].
    unfold run_posting_job_for_jobs. destruct jobs; [exact Hs|].
    cbn [disk]. by rewrite (load_existing_jobs_file _ _ (post_jobs_known _ _ _ _ _)).
  - cbn [run_cleanup_job disk].
    destruct (after_cleanup_filter now 7 (disk s)) as [q Hq].
    unfold after_cleanup in Hq. rewrite Hq.
    apply Forall_forall. intros j [Hj _]%list_elem_of_In%filter_In.
    rewrite Forall_forall in Hs. by apply Hs, list_elem_of_In.
Qed.

Lemma run_events_Forall es s :
  Forall P (load_existing_jobs (disk s)) →
  Forall P (load_existing_jobs (disk (run_events MAX_JOBS_PER_POST s es))).
Proof.
  revert s. unfold run_events.
  induction es as [|e es IH]; intros s Hs; [exact Hs|].
  cbn [fold_left]. by apply IH, run_event_Forall.
Qed.

End Known.

Lemma accepted_record_complete `{Datetime} now raw :
  is_valid raw = true →
  complete_record (accepted_record now raw (fingerprint_of raw)).
Proof.
  intros Hv. destruct (stamped_complete now raw Hv) as [Hfields Hcat].
  unfold complete_record, accepted_record. split; [|split].
  - eapply Forall_impl; [exact Hfields|]. cbn. intros field.
    apply insert_keeps_key.
  - unfold valid_category.
    by rewrite !lookup_insert_ne by (intros E; discriminate E).
  - rewrite lookup_insert_eq. by eexists.
Qed.

Lemma valid_categories_perm (jobs : list job) :
  Forall valid_category jobs →
  Permutation
    (List.filter (field_is "category" "government") jobs
       ++ List.filter (field_is "category" "private") jobs) jobs.
Proof.
  intros Hvalid. apply filter_two_perm.
  eapply Forall_impl; [exact Hvalid|]. cbn. intros j. unfold field_is.
  intros [-> | ->]; reflexivity.
Qed.

Lemma valid_categories_length (jobs : list job) :
  Forall valid_category jobs →
  (length (List.filter (field_is "category" "government") jobs)
   + length (List.filter (field_is "category" "private") jobs) = length jobs)%nat.
Proof.
  intros Hvalid. rewrite <- length_app.
  by rewrite (valid_categories_perm jobs Hvalid).
Qed.

Lemma filter_present_key field key (jobs : list job) :
  Forall (fun j => is_Some (j !! field)) jobs →
  List.filter (fun j => bool_decide (get_or_unknown field j = key)) jobs
  = List.filter (fun j => bool_decide (j !! field = Some key)) jobs.
Proof.
  induction 1 as [|j jobs [v Hv] _ IH]; [reflexivity|].
  cbn [List.filter]. rewrite IH. unfold get_or_unknown. rewrite Hv.
  cbn [default from_option id].
  destruct (decide (v = key)) as [->|Hne].
  - by rewrite !bool_decide_eq_true_2.
  - rewrite !bool_decide_eq_false_2; [reflexivity|congruence|congruence].
Qed.

(** X19. In every state the scheduler reaches from an empty store, each
    known job carries all the fields of a validated record, a category of
    the two and a fingerprint; so [government_jobs + private_jobs =
    total_jobs] in [get_storage_stats], the counts by state never use the
    ['Unknown'] default (a job without state is counted under [None]), and
    the government and private jobs of a backlog make up all of it. *)
Theorem reachable_records_complete `{Datetime} MAX_JOBS_PER_POST es :
  let s := run_events MAX_JOBS_PER_POST fresh_scheduler es in
  let stats := get_storage_stats (disk s) in
  Forall complete_record (load_existing_jobs (disk s))
  ∧ (government_jobs stats + private_jobs stats = total_jobs stats)%nat
  ∧ (∀ key n, (key, n) ∈ jobs_by_state stats →
       n = length (List.filter (fun j => bool_decide (j !! "state" = Some key))
                     (load_existing_jobs (disk s))))
  ∧ (∀ limit backlog,
       get_jobs_for_posting limit (disk s) = Ok backlog →
       Permutation
         (List.filter (field_is "category" "government") backlog
            ++ List.filter (field_is "category" "private") backlog) backlog).
Proof.
  intros s stats.
  assert (Forall complete_record (load_existing_jobs (disk s))) as Hs.
  { apply (run_events_Forall MAX_JOBS_PER_POST complete_record).
    - intros now raw. apply accepted_record_complete.
    - constructor. }
  split; [exact Hs|]. split; [|split].
  - apply valid_categories_length.
    eapply Forall_impl; [exact Hs|]. by intros j (_ & Hcat & _).
  - intros key n Hin.
    destruct (count_by_spec "state" (load_existing_jobs (disk s)))
      as (_ & _ & Hcount).
    destruct (Hcount key n Hin) as [_ ->]. f_equal.
    apply filter_present_key.
    eapply Forall_impl; [exact Hs|]. cbn. intros j (Hfields & _).
    rewrite Forall_forall in Hfields. apply Hfields.
    apply (bool_decide_unpack _). vm_compute. exact I.
  - intros limit backlog Hsel. apply valid_categories_perm.
    apply Forall_forall. intros j Hj.
    apply (get_jobs_for_posting_subseteq _ _ _ Hsel), elem_of_unposted in Hj
      as [Hj _].
    rewrite Forall_forall in Hs. by destruct (Hs j Hj) as (_ & Hcat & _).
Qed.

(** ** The scraper's category *)

Lemma append_cons c (a b : string) : String c a +:+ b = String c (a +:+ b).
Proof. reflexivity. Qed.

Lemma prefix_app k a b :
  String.prefix k a = true → String.prefix k (a +:+ b) = true.
Proof.
  revert a. induction k as [|c k IH]; intros a.
  - intros _. destruct a, b; reflexivity.
  - destruct a as [|c' a]; [intros E; discriminate E|].
    rewrite append_cons. cbn [String.prefix].
    destruct (Ascii.ascii_dec c c'); [apply IH|intros E; discriminate E].
Qed.

Lemma contains_app_l k a b :
  BaseScraper.contains k a = true → BaseScraper.contains k (a +:+ b) = true.
Proof.
  induction a as [|c a IH].
  - cbn [BaseScraper.contains]. rewrite orb_false_r. intros Hk.
    destruct k; [|discriminate Hk]. destruct b; reflexivity.
  - rewrite append_cons. cbn [BaseScraper.contains].
    intros [Hp|Hc]%orb_true_iff; apply orb_true_iff.
    + left. rewrite <- append_cons. by apply prefix_app.
    + right. by apply IH.
Qed.

Lemma contains_app_r k a b :
  BaseScraper.contains k b = true → BaseScraper.contains k (a +:+ b) = true.
Proof.
  intros Hb. induction a as [|c a IH]; [exact Hb|].
  rewrite append_cons. cbn [BaseScraper.contains]. rewrite IH. apply orb_true_r.
Qed.

Lemma lower_char_idempotent c :
  Text.lower_char (Text.lower_char c) = Text.lower_char c.
Proof. destruct c as [[] [] [] [] [] [] [] []]; reflexivity. Qed.

Lemma lower_idempotent s : Text.lower (Text.lower s) = Text.lower s.
Proof.
  induction s as [|c s IH]; [reflexivity|].
  cbn [Text.lower]. by rewrite lower_char_idempotent, IH.
Qed.

Lemma categorize_job_valid title description :
  BaseScraper.categorize_job title description = "government"
  ∨ BaseScraper.categorize_job title description = "private".
Proof.
  unfold BaseScraper.categorize_job. cbv zeta.
  destruct (existsb _ BaseScraper.government_keywords); [by left|].
  destruct (existsb _ BaseScraper.private_keywords); [by right|by left].
Qed.

(** X20. A raw record with title and source whose category was set by the
    scraper's [categorize_job] is accepted by [clean_and_validate_job], and
    the category is kept. *)
Theorem scraped_category_kept `{Datetime} now raw title description :
  is_valid raw = true →
  ∃ record,
    clean_and_validate_job now
      (<["category" := VStr (BaseScraper.categorize_job title description)]> raw)
    = Some record
    ∧ record !! "category"
      = Some (VStr (BaseScraper.categorize_job title description)).
Proof.
  intros Hv. eexists. split.
  - apply clean_and_validate_job_valid. unfold is_valid in *.
    by rewrite !lookup_insert_ne by (intros E; discriminate E).
  - rewrite lookup_insert_ne by (intros E; discriminate E).
    rewrite cleaned_category, lookup_insert_eq.
    destruct (categorize_job_valid title description) as [-> | ->].
    + by rewrite bool_decide_eq_false_2 by (intros E; discriminate E).
    + by rewrite bool_decide_eq_true_2.
Qed.

Lemma scraped_category_kept_witness :
  ∃ record,
    clean_and_validate_job (H:=Iso.datetime) Sample.t0
      (<["category" := VStr (BaseScraper.categorize_job "Software Engineer"
                               "Openings at a startup")]> Sample.clerk)
    = Some record
    ∧ record !! "category"
      = Some (VStr (BaseScraper.categorize_job "Software Engineer"
                      "Openings at a startup")).
Proof.
  refine (scraped_category_kept (H:=Iso.datetime) Sample.t0 Sample.clerk
            "Software Engineer" "Openings at a startup" _).
  vm_compute. reflexivity.
Defined.

(** X21. [categorize_job] looks for government keywords first: when one
    occurs in the title or in the description, in any letter case, the job
    is a government job whatever private keywords occur.  And for every
    title and description, the answer does not depend on letter case. *)
Theorem government_keywords_first title description :
  (∀ keyword,
     keyword ∈ BaseScraper.government_keywords →
     BaseScraper.contains keyword (Text.lower title) = true
     ∨ BaseScraper.contains keyword (Text.lower description) = true →
     BaseScraper.categorize_job title description = "government")
  ∧ BaseScraper.categorize_job (Text.lower title) (Text.lower description)
    = BaseScraper.categorize_job title description.
Proof.
  split.
  - intros keyword Hkeyword Hin.
    unfold BaseScraper.categorize_job. cbv zeta.
    rewrite (proj2 (existsb_exists _ _)); [reflexivity|].
    exists keyword. split; [by apply list_elem_of_In|].
    rewrite !lower_app. destruct Hin as [Ht|Hd].
    + by apply contains_app_l.
    + by apply contains_app_r, contains_app_r.
  - unfold BaseScraper.categorize_job.
    by rewrite !lower_app, !lower_idempotent.
Qed.

Lemma government_keywords_first_witness :
  BaseScraper.categorize_job "IT Officer" "State Bank of India" = "government"
  ∧ BaseScraper.categorize_job (Text.lower "IT Officer")
      (Text.lower "State Bank of India")
    = BaseScraper.categorize_job "IT Officer" "State Bank of India".
Proof.
  destruct (government_keywords_first "IT Officer" "State Bank of India")
    as [Hfirst Hcase].
  split; [|exact Hcase]. apply (Hfirst "bank").
  - apply (bool_decide_unpack _). vm_compute. exact I.
  - right. vm_compute. reflexivity.
Defined.

(** ** Jobs without fingerprint *)

Lemma is_unposted_falsy (posted_jobs : list job) (j : job) :
  truthy (j !! "job_hash") = false →
  is_unposted (posted_hash_set posted_jobs) j = true.
Proof.
  unfold is_unposted. destruct (j !! "job_hash") as [[|h]|]; try done.
  cbn [truthy]. intros Hh%negb_false_iff%String.eqb_eq. subst h.
  apply bool_decide_eq_true_2.
  intros (p & _ & Ht & Hp)%elem_of_posted_hash_set.
  rewrite Hp in Ht. discriminate Ht.
Qed.

(** X22. [append_job] adds the job at the end of the known jobs and leaves
    the delivered-set alone; a job appended without a fingerprint ([job_hash]
    missing, [None] or empty) is still in the backlog after any call of
    [post_jobs], whatever batch was posted and whatever the channels
    answered. *)
Theorem append_job_never_marked `{Datetime} now telegram blogger jobs j st :
  truthy (j !! "job_hash") = false →
  load_existing_jobs (append_job j st) = load_existing_jobs st ++ [j]
  ∧ posted_jobs_file (append_job j st) = posted_jobs_file st
  ∧ j ∈ unposted (post_jobs now telegram blogger jobs (append_job j st)).
Proof.
  intros Hj. split; [reflexivity|]. split; [reflexivity|].
  apply elem_of_unposted. split; [|by apply is_unposted_falsy].
  rewrite (load_existing_jobs_file _ _ (post_jobs_known _ _ _ _ _)).
  apply elem_of_app. right. by left.
Qed.

Lemma append_job_never_marked_witness :
  load_existing_jobs (append_job Sample.clerk Backlog.st)
  = load_existing_jobs Backlog.st ++ [Sample.clerk]
  ∧ posted_jobs_file (append_job Sample.clerk Backlog.st)
    = posted_jobs_file Backlog.st
  ∧ Sample.clerk
    ∈ unposted (post_jobs (H:=Iso.datetime) OneChannel.now true true
                  [Sample.clerk] (append_job Sample.clerk Backlog.st)).
Proof.
  refine (append_job_never_marked (H:=Iso.datetime) OneChannel.now true true
            [Sample.clerk] Sample.clerk Backlog.st _).
  vm_compute. reflexivity.
Defined.

(** ** What each scheduled action leaves alone *)

Lemma record_delivery_prefix telegram blogger jobs (log : list delivery) :
  log `prefix_of` record_delivery telegram blogger jobs log.
Proof.
  unfold record_delivery. destruct jobs; [done|]. by apply prefix_app_r.
Qed.

(** X23. What one scheduled action leaves alone.  The log of deliveries
    only grows.  A scraping pass keeps the delivered-set and only appends to
    the known jobs and to the delayed tasks; the posting passes keep the
    jobs file, and a delayed pass that posts clears the delayed tasks; a
    cleanup keeps the delivered-set and the delayed tasks and adds no known
    job. *)
Theorem run_event_frame `{Datetime} MAX_JOBS_PER_POST s e :
  let s' := run_event MAX_JOBS_PER_POST s e in
  outbox s `prefix_of` outbox s'
  ∧ match e with
    | ScrapingJob _ _ =>
        posted_jobs_file (disk s') = posted_jobs_file (disk s)
        ∧ outbox s' = outbox s
        ∧ load_existing_jobs (disk s) `prefix_of` load_existing_jobs (disk s')
        ∧ delayed_posting s `prefix_of` delayed_posting s'
    | PostingJob _ _ _ =>
        jobs_file (disk s') = jobs_file (disk s)
        ∧ delayed_posting s' = delayed_posting s
    | DelayedPostingJob _ _ _ =>
        jobs_file (disk s') = jobs_file (disk s)
        ∧ (delayed_posting s' = [] ∨ s' = s)
    | CleanupJob _ =>
        posted_jobs_file (disk s') = posted_jobs_file (disk s)
        ∧ outbox s' = outbox s
        ∧ delayed_posting s' = delayed_posting s
        ∧ load_existing_jobs (disk s') ⊆ load_existing_jobs (disk s)
    end.
Proof.
  cbv zeta. destruct e as [now raw|now tg bl|now tg bl|now]; cbn [run_event].
  - unfold run_scraping_job.
    pose proof (process_jobs_appends now raw (disk s)) as [Hload Hposted].
    destruct (process_jobs now raw (disk s)) as [new_jobs st].
    cbn [fst snd] in *.
    assert (load_existing_jobs (disk s) `prefix_of` load_existing_jobs st)
      as Hprefix by (rewrite Hload; by apply prefix_app_r).
    destruct new_jobs; cbn [disk outbox delayed_posting];
      repeat split; try done; by apply prefix_app_r.
  - unfold run_posting_job.
    destruct (get_jobs_for_posting _ (disk s)); [|done].
    cbn [disk outbox delayed_posting].
    split; [apply record_delivery_prefix|]. split; [apply post_jobs_known|done].
  - destruct (delayed_posting s) as [|jobs rest] eqn:Hdelayed; [by auto|].
    unfold run_posting_job_for_jobs. destruct jobs as [|j jobs]; [by auto|].
    cbn [disk outbox delayed_posting].
    split; [apply record_delivery_prefix|]. split; [apply post_jobs_known|by left].
  - cbn [run_cleanup_job disk outbox delayed_posting].
    split; [done|]. split; [apply (after_cleanup_posted now 7)|].
    split; [done|]. split; [done|].
    destruct (after_cleanup_filter now 7 (disk s)) as [q Hq].
    unfold after_cleanup in Hq. rewrite Hq. intros j.
    rewrite !list_elem_of_In, filter_In. tauto.
Qed.

(** ** The sort is stable *)

Lemma string_ltb_irrefl s : String.ltb s s = false.
Proof. unfold String.ltb. by rewrite string_compare_refl. Qed.

Lemma insert_newest_first_same_key s x l :
  List.filter (fun j => String.eqb (key_str j) s) (insert_newest_first x l)
  = List.filter (fun j => String.eqb (key_str j) s) (x :: l).
Proof.
  induction l as [|y l IH]; [reflexivity|]. cbn [insert_newest_first].
  destruct (String.ltb (key_str x) (key_str y)) eqn:Hlt; [|reflexivity].
  cbn [List.filter] in *. rewrite IH.
  destruct (String.eqb_spec (key_str x) s) as [Hx|Hx]; [|reflexivity].
  destruct (String.eqb_spec (key_str y) s) as [Hy|Hy]; [|reflexivity].
  rewrite Hx, Hy, string_ltb_irrefl in Hlt. discriminate Hlt.
Qed.

Lemma sorted_newest_first_same_key s l :
  List.filter (fun j => String.eqb (key_str j) s) (sorted_newest_first l)
  = List.filter (fun j => String.eqb (key_str j) s) l.
Proof.
  induction l as [|x l IH]; [reflexivity|].
  cbn [sorted_newest_first foldr]. rewrite insert_newest_first_same_key.
  cbn [List.filter]. unfold sorted_newest_first in IH. by rewrite IH.
Qed.

(** X24. The sort of the backlog is stable: the jobs of the backlog with
    one and the same [scraped_at] come in the order they have among the
    undelivered jobs, which is their order in the jobs file. *)
Theorem backlog_keeps_file_order (st : store) backlog s :
  get_jobs_for_posting None st = Ok backlog →
  List.filter (fun j => String.eqb (key_str j) s) backlog
  = List.filter (fun j => String.eqb (key_str j) s) (unposted st)
  ∧ unposted st
    = List.filter (is_unposted (posted_hash_set (load_posted_jobs st)))
        (load_existing_jobs st).
Proof.
  unfold get_jobs_for_posting, sort_newest_first.
  destruct (_ && _); [intros E; discriminate E|]. cbn. intros [= <-].
  split; [apply sorted_newest_first_same_key|reflexivity].
Qed.

Lemma backlog_keeps_file_order_witness :
  List.filter (fun j => String.eqb (key_str j) "2024-01-09T09:00:00")
    [Backlog.wednesday; Backlog.tuesday; Backlog.monday]
  = List.filter (fun j => String.eqb (key_str j) "2024-01-09T09:00:00")
      (unposted Backlog.st)
  ∧ unposted Backlog.st
    = List.filter (is_unposted (posted_hash_set (load_posted_jobs Backlog.st)))
        (load_existing_jobs Backlog.st).
Proof.
  refine (backlog_keeps_file_order Backlog.st
            [Backlog.wednesday; Backlog.tuesday; Backlog.monday]
            "2024-01-09T09:00:00" _).
  vm_compute. reflexivity.
Defined.

(** ** Statistics and queries agree *)

Lemma filter_named_key field s (jobs : list job) :
  s ≠ "Unknown" →
  List.filter (fun j => bool_decide (get_or_unknown field j = VStr s)) jobs
  = List.filter (field_is field s) jobs.
Proof.
  intros Hs. induction jobs as [|j jobs IH]; [reflexivity|].
  cbn [List.filter]. rewrite IH. unfold get_or_unknown, field_is.
  destruct (j !! field) as [v|]; cbn [default from_option id].
  - destruct (decide (v = VStr s)) as [->|Hne].
    + by rewrite !bool_decide_eq_true_2.
    + rewrite !bool_decide_eq_false_2; [reflexivity|congruence|congruence].
  - rewrite !bool_decide_eq_false_2; [reflexivity| |]; congruence.
Qed.

(** X25. The statistics agree with the queries: for a name other than
    ['Unknown'], the count [get_storage_stats] lists for a source is the
    number of jobs [get_jobs_by_source] returns, the count for a state the
    number [get_jobs_by_state] returns, and [government_jobs] and
    [private_jobs] count what [get_jobs_by_category] returns. *)
Theorem get_storage_stats_matches_queries (st : store) s n :
  s ≠ "Unknown" →
  ((VStr s, n) ∈ jobs_by_source (get_storage_stats st) →
   n = length (get_jobs_by_source s st))
  ∧ ((VStr s, n) ∈ jobs_by_state (get_storage_stats st) →
     n = length (get_jobs_by_state s st))
  ∧ government_jobs (get_storage_stats st)
    = length (get_jobs_by_category "government" st)
  ∧ private_jobs (get_storage_stats st)
    = length (get_jobs_by_category "private" st).
Proof.
  intros Hs. unfold get_storage_stats. cbv zeta.
  cbn [jobs_by_source jobs_by_state government_jobs private_jobs].
  unfold get_jobs_by_source, get_jobs_by_state, get_jobs_by_category.
  split; [|split; [|by split]].
  - intros Hin.
    destruct (count_by_spec "source" (load_existing_jobs st)) as (_ & _ & Hcount).
    destruct (Hcount _ _ Hin) as [_ ->]. by rewrite filter_named_key.
  - intros Hin.
    destruct (count_by_spec "state" (load_existing_jobs st)) as (_ & _ & Hcount).
    destruct (Hcount _ _ Hin) as [_ ->]. by rewrite filter_named_key.
Qed.

Lemma get_storage_stats_matches_queries_witness :
  ((VStr "X", 4%nat) ∈ jobs_by_source (get_storage_stats Backlog.st) →
   4%nat = length (get_jobs_by_source "X" Backlog.st))
  ∧ ((VStr "X", 4%nat) ∈ jobs_by_state (get_storage_stats Backlog.st) →
     4%nat = length (get_jobs_by_state "X" Backlog.st))
  ∧ government_jobs (get_storage_stats Backlog.st)
    = length (get_jobs_by_category "government" Backlog.st)
  ∧ private_jobs (get_storage_stats Backlog.st)
    = length (get_jobs_by_category "private" Backlog.st).
Proof.
  refine (get_storage_stats_matches_queries Backlog.st "X" 4 _).
  intros E. discriminate E.
Defined.
